(** * Block Smasher: level layout generator, per-frame physics and
      application

    A shallow embedding of [GameScreen] (the level generator
    [generateBlocksForLevel], its seeded random source [seededRandom], the
    body of [gameLoop], the input handlers, [handleRestart], [togglePause]
    and the particles), of the map selection of [MapsScreen] and of the
    navigation and unlocking of [App], together with the properties the
    specification states about them and further properties of the code.

    Numbers.  A JavaScript [number] is an IEEE double.
    - The state of the seeded random source is an integer; it is modelled
      as [Z], and [advance_word32] shows that for a 32-bit state every
      intermediate value stays below 2^53, where double arithmetic on
      integers is exact.
    - Coordinates produced by the layout generator are modelled as
      rationals [Q] (every finite double is a rational) with exact sums
      and products; rounding is not modelled.  [Math.cos] and [Math.sin]
      are implementation-approximated in ECMAScript, so the generator
      takes them as parameters.
    - The physics step is modelled over the real numbers [R], where
      [Math.sqrt], [Math.sin] and [Math.cos] are the functions of the
      standard library of reals; rounding is not modelled.
    - [score] and [lives] are integers, modelled as [Z]; so are the level
      and map numbers of the application.
    - The particles are modelled over [R] like the physics; a particle is
      removed when its life is 0.008 below zero, far from any rounding.

    State.  The setters of [useState] called in a handler or a frame are
    taken to act in program order before the next event. *)

From Stdlib Require Import ZArith QArith Qround Lqa Lia List String Bool.
From Stdlib Require Import Reals Qreals Lra.
Import ListNotations.

(* ================================================================== *)
(** * Seeded random source *)
(* ================================================================== *)

Module Random.

Local Open Scope Z_scope.

(** The closure returned by [seededRandom] owns one mutable variable,
    [state]. *)
Record Source := mkSource { state : Z }.

(** [const seededRandom = (seed) => { let state = seed; return () => ... }] *)
Definition seededRandom (seed : Z) : Source := mkSource seed.

(** The integer the closure computes before the [%]:
    [state * 1664525 + 1013904223]. *)
Definition scaled (s : Z) : Z := s * 1664525 + 1013904223.

(** [state = (state * 1664525 + 1013904223) % 4294967296].  The JavaScript
    [%] truncates towards zero, which is [Z.rem].  The product is taken
    exactly, as the code's double does for every state the generator
    reaches (below 2^32) and every level id the application passes; a
    double rounds the product once the seed is 5411272430 or more. *)
Definition advance (s : Z) : Z := Z.rem (scaled s) 4294967296.

(** One call of the closure: the returned number and the closure after the
    call.  [return state / 4294967296]. *)
Definition call (r : Source) : Q * Source :=
  let s := advance (state r) in
  (inject_Z s / inject_Z 4294967296, mkSource s)%Q.

(** The first [n] numbers a source returns. *)
Fixpoint draws (n : nat) (r : Source) : list Q :=
  match n with
  | O => []
  | S n' => let (v, r') := call r in v :: draws n' r'
  end.

(** The states the first [n] calls go through. *)
Fixpoint states (n : nat) (r : Source) : list Z :=
  match n with
  | O => []
  | S n' => let (_, r') := call r in state r' :: states n' r'
  end.

(** The generator of the specification, in its words: a 32-bit state
    updated as [(state * 1664525 + 1013904223) mod 2^32]. *)
Definition lcg_spec (s : Z) : Z := (s * 1664525 + 1013904223) mod 2 ^ 32.

(** The sequence of states of the specification's generator. *)
Fixpoint lcg_states (n : nat) (s : Z) : list Z :=
  match n with
  | O => []
  | S n' => lcg_spec s :: lcg_states n' (lcg_spec s)
  end.

(** A state is a non-negative 32-bit integer. *)
Definition word32 (s : Z) : Prop := 0 <= s < 2 ^ 32.

End Random.

(* ================================================================== *)
(** * Level layout generator *)
(* ================================================================== *)

Module Layout.

Import Random.
Local Open Scope Q_scope.

(** [interface Block] *)
Record Block := mkBlock {
  x : Q;
  y : Q;
  width : Q;
  height : Q;
  alive : bool;
  color : string
}.

(** What one run of [generateBlocksForLevel] mutates: the array [blocks]
    and the state of the closure [random]. *)
Record GenState := mkGen { random_source : Source; blocks : list Block }.

Definition Gen (A : Type) : Type := GenState -> A * GenState.

Definition ret {A} (a : A) : Gen A := fun s => (a, s).

Definition bind {A B} (c : Gen A) (k : A -> Gen B) : Gen B :=
  fun s => let (a, s') := c s in k a s'.

Declare Scope gen_scope.
Delimit Scope gen_scope with gen.
Notation "v <- c ;; k" := (bind c (fun v => k))
  (at level 61, c at next level, right associativity) : gen_scope.
Notation "c ;; k" := (bind c (fun _ => k))
  (at level 61, right associativity) : gen_scope.
Local Open Scope gen_scope.

(** [const random = seededRandom(seed)] *)
Definition seed_random (seed : Z) : Gen unit :=
  fun s => (tt, mkGen (seededRandom seed) (blocks s)).

(** [random()] *)
Definition random : Gen Q :=
  fun s => let (v, r) := call (random_source s) in (v, mkGen r (blocks s)).

(** [blocks.push(b)] *)
Definition push (b : Block) : Gen unit :=
  fun s => (tt, mkGen (random_source s) (blocks s ++ [b])).

(** [if (c) { body }] *)
Definition when (c : bool) (body : Gen unit) : Gen unit :=
  if c then body else ret tt.

(** [for (let i = start; ...; i++) body] run for [n] rounds. *)
Fixpoint for_from (i : Z) (n : nat) (body : Z -> Gen unit) : Gen unit :=
  match n with
  | O => ret tt
  | S n' => body i ;; for_from (i + 1)%Z n' body
  end.

(** [for (let i = 0; i < bound; i++) body] with an integer [bound]. *)
Definition for_loop (bound : Z) (body : Z -> Gen unit) : Gen unit :=
  for_from 0%Z (Z.to_nat bound) body.

(** [xs.forEach((v, index) => body)] where the callback also updates a local
    variable of the enclosing function, carried here as [acc]. *)
Fixpoint forEach_from {A S} (index : Z) (xs : list A)
    (body : A -> Z -> S -> Gen S) (acc : S) : Gen S :=
  match xs with
  | [] => ret acc
  | v :: xs' => acc' <- body v index acc ;;
                forEach_from (index + 1)%Z xs' body acc'
  end.

Definition forEach {A S} (xs : list A) (body : A -> Z -> S -> Gen S) (acc : S) : Gen S :=
  forEach_from 0%Z xs body acc.

(** Array indexing [a[i]] with a non-negative integer index; [None] is
    JavaScript's [undefined]. *)
Definition index {A} (a : list A) (i : Z) : option A :=
  if (i <? 0)%Z then None else nth_error a (Z.to_nat i).

(** [pattern === 'tag'] *)
Definition is_pattern (p : option string) (tag : string) : bool :=
  match p with
  | Some s => String.eqb s tag
  | None => false
  end.

(** A colour read from an array.  The colour arrays are always indexed in
    range (for the clusters see [draw_cluster_facts]); [undefined] is
    rendered as the empty string. *)
Definition color_at (colors : list string) (i : Z) : string :=
  match index colors i with
  | Some c => c
  | None => EmptyString
  end.

Definition CANVAS_WIDTH : Q := 800.
Definition CANVAS_HEIGHT : Q := 600.

(** [Math.PI], the double nearest to pi: 884279719003555 / 2^48. *)
Definition Math_PI : Q := 884279719003555 # 281474976710656.

(** [Math.floor] and [Math.ceil], integer valued. *)
Definition Math_floor (q : Q) : Z := Qfloor q.
Definition Math_ceil (q : Q) : Z := Qceiling q.

(** [a >= b] and [a <= b] on numbers. *)
Definition geb (a b : Q) : bool := Qle_bool b a.
Definition leb (a b : Q) : bool := Qle_bool a b.

(** The test guarding every [push] of the procedural branches:
    [x >= margin && x + blockWidth <= CANVAS_WIDTH - margin &&
     y >= margin && y + blockHeight <= maxY]. *)
Definition fits (margin maxY bx by_ blockWidth blockHeight : Q) : bool :=
  geb bx margin && leb (bx + blockWidth) (CANVAS_WIDTH - margin) &&
  geb by_ margin && leb (by_ + blockHeight) maxY.


(** An integer of the source used as a number. *)
Definition num (z : Z) : Q := inject_Z z.

Section Generator.

(** [Math.cos] and [Math.sin] of the host. *)
Variables Math_cos Math_sin : Q -> Q.

(** Level 1: classic grid. *)
Definition level1 : Gen unit :=
  let rows := 4%Z in
  let cols := 6%Z in
  let blockWidth := 60 in
  let blockHeight := 25 in
  let gapX := 5 in
  let gapY := 5 in
  let startX := 50 in
  let startY := 50 in
  for_loop rows (fun row =>
    for_loop cols (fun col =>
      push (mkBlock (startX + num col * (blockWidth + gapX))
                    (startY + num row * (blockHeight + gapY))
                    blockWidth blockHeight true "#3b82f6"))).

(** Level 2: eight blocks on a circle. *)
Definition level2 : Gen unit :=
  let blockWidth := 70 in
  let blockHeight := 25 in
  let centerX := CANVAS_WIDTH / 2 in
  let centerY := 200 in
  let radius := 120 in
  let numBlocks := 8%Z in
  for_loop numBlocks (fun i =>
    let angle := (num i / num numBlocks) * Math_PI * 2 - Math_PI / 2 in
    let bx := centerX + Math_cos angle * radius - blockWidth / 2 in
    let by_ := centerY + Math_sin angle * radius - blockHeight / 2 in
    push (mkBlock bx by_ blockWidth blockHeight true "#7c3aed")).

(** Level 3: inverted pyramid.  The callback of [pyramidRows.forEach]
    advances the local [startY]. *)
Definition level3 : Gen Q :=
  let blockWidth := 55 in
  let blockHeight := 22 in
  let gapX := 8 in
  let gapY := 8 in
  let colors := ["#f97316"; "#fb923c"; "#fdba74"; "#fed7aa"]%string in
  let pyramidRows := [7; 6; 5; 4; 3; 2; 1]%Z in
  forEach pyramidRows (fun blocksInRow rowIndex startY =>
    let rowWidth := num blocksInRow * blockWidth + (num blocksInRow - 1) * gapX in
    let startX := (CANVAS_WIDTH - rowWidth) / 2 in
    for_loop blocksInRow (fun i =>
      push (mkBlock (startX + num i * (blockWidth + gapX)) startY
                    blockWidth blockHeight true
                    (color_at colors (Z.rem rowIndex (Z.of_nat (List.length colors)))))) ;;
    ret (startY + (blockHeight + gapY))) 50.

(** Level 4: checkerboard. *)
Definition level4 : Gen unit :=
  let rows := 8%Z in
  let cols := 8%Z in
  let blockWidth := 55 in
  let blockHeight := 22 in
  let gapX := 4 in
  let gapY := 4 in
  let startX := (CANVAS_WIDTH - (num cols * blockWidth + (num cols - 1) * gapX)) / 2 in
  let startY := 50 in
  let color1 := "#06b6d4"%string in
  let color2 := "#a855f7"%string in
  for_loop rows (fun row =>
    for_loop cols (fun col =>
      when (Z.rem (row + col) 2 =? 0)%Z
        (push (mkBlock (startX + num col * (blockWidth + gapX))
                       (startY + num row * (blockHeight + gapY))
                       blockWidth blockHeight true
                       (if (Z.rem row 2 =? 0)%Z then color1 else color2))))).

(** Level 5: the fortress. *)
Definition level5 : Gen unit :=
  let blockWidth := 50 in
  let blockHeight := 20 in
  let gapX := 5 in
  let gapY := 5 in
  let colors := ["#dc2626"; "#ef4444"; "#f97316"; "#fb923c"]%string in
  (* Outer wall *)
  let outerWallBlocks := 12%Z in
  let outerY := 50 in
  let outerStartX :=
    (CANVAS_WIDTH - (num outerWallBlocks * blockWidth + (num outerWallBlocks - 1) * gapX)) / 2 in
  for_loop outerWallBlocks (fun i =>
    push (mkBlock (outerStartX + num i * (blockWidth + gapX)) outerY
                  blockWidth blockHeight true (color_at colors 0))) ;;
  (* Left tower (2 rows, 2 cols) *)
  for_loop 2 (fun row =>
    for_loop 2 (fun col =>
      push (mkBlock (outerStartX + num col * (blockWidth + gapX))
                    (outerY + (num row + 1) * (blockHeight + gapY))
                    blockWidth blockHeight true (color_at colors (row + 1))))) ;;
  (* Right tower (2 rows, 2 cols) *)
  for_loop 2 (fun row =>
    for_loop 2 (fun col =>
      push (mkBlock (outerStartX + (num outerWallBlocks - 2 + num col) * (blockWidth + gapX))
                    (outerY + (num row + 1) * (blockHeight + gapY))
                    blockWidth blockHeight true (color_at colors (row + 1))))) ;;
  (* Inner wall *)
  let innerWallBlocks := 8%Z in
  let innerY := outerY + (blockHeight + gapY) * 3 in
  let innerStartX :=
    (CANVAS_WIDTH - (num innerWallBlocks * blockWidth + (num innerWallBlocks - 1) * gapX)) / 2 in
  for_loop innerWallBlocks (fun i =>
    push (mkBlock (innerStartX + num i * (blockWidth + gapX)) innerY
                  blockWidth blockHeight true (color_at colors 1))) ;;
  (* Core *)
  let coreBlocks := 4%Z in
  let coreY := innerY + (blockHeight + gapY) in
  let coreStartX :=
    (CANVAS_WIDTH - (num coreBlocks * blockWidth + (num coreBlocks - 1) * gapX)) / 2 in
  for_loop 2 (fun row =>
    for_loop coreBlocks (fun col =>
      push (mkBlock (coreStartX + num col * (blockWidth + gapX))
                    (coreY + num row * (blockHeight + gapY))
                    blockWidth blockHeight true (color_at colors 3)))).

(** The guarded push shared by every pattern of the procedural branches:
    [if (x >= margin && ... ) { blocks.push({ x, y, width, height, alive:
    true, color }) }]. *)
Definition place (margin maxY bx by_ blockWidth blockHeight : Q) (c : string) : Gen unit :=
  when (fits margin maxY bx by_ blockWidth blockHeight)
       (push (mkBlock bx by_ blockWidth blockHeight true c)).

(** [blockCount - 1 || 1] *)
Definition or_one (n : Z) : Z := if (n =? 0)%Z then 1%Z else n.

(** What a cluster draws before its pattern is laid out. *)
Record Cluster := mkCluster {
  clusterX : Q;
  clusterY : Q;
  pattern : option string;
  blockCount : Z;
  cluster_color : string;
  blockWidth : Q;
  blockHeight : Q
}.

Definition colors5 : list string :=
  ["#f97316"; "#06b6d4"; "#a855f7"; "#ec4899"; "#eab308"]%string.

Definition patterns6 : list string := ["tight"; "scattered"; "line"; "arc"]%string.

(** Level 6: the seven draws that open each cluster. *)
Definition draw_cluster6 (margin maxY : Q) : Gen Cluster :=
  r1 <- random ;;
  let clusterX := margin + r1 * (CANVAS_WIDTH - margin * 2 - 150) in
  r2 <- random ;;
  let clusterY := margin + r2 * (maxY - margin - 100) in
  r3 <- random ;;
  let pattern := index patterns6 (Math_floor (r3 * num (Z.of_nat (List.length patterns6)))) in
  r4 <- random ;;
  let blockCount := (5 + Math_floor (r4 * 4))%Z in
  r5 <- random ;;
  let color := color_at colors5 (Math_floor (r5 * num (Z.of_nat (List.length colors5)))) in
  r6 <- random ;;
  let blockWidth := 40 + r6 * 15 in
  r7 <- random ;;
  let blockHeight := 18 + r7 * 8 in
  ret (mkCluster clusterX clusterY pattern blockCount color blockWidth blockHeight).

(** Level 6, pattern ['tight']: compact grid. *)
Definition tight6 (margin maxY : Q) (k : Cluster) : Gen unit :=
  let 'mkCluster clusterX clusterY _ blockCount color blockWidth blockHeight := k in
  let rows := 2%Z in
  let cols := Math_ceil (num blockCount / num rows) in
  r <- random ;;
  let gap := 4 + r * 3 in
  for_loop blockCount (fun i =>
    let row := Math_floor (num i / num cols) in
    let col := Z.rem i cols in
    let bx := clusterX + num col * (blockWidth + gap) in
    let by_ := clusterY + num row * (blockHeight + gap) in
    place margin maxY bx by_ blockWidth blockHeight color).

(** Level 6, pattern ['scattered']: scattered circle. *)
Definition scattered6 (margin maxY : Q) (k : Cluster) : Gen unit :=
  let 'mkCluster clusterX clusterY _ blockCount color blockWidth blockHeight := k in
  r <- random ;;
  let radius := 25 + r * 30 in
  for_loop blockCount (fun i =>
    ra <- random ;;
    let angle := (num i / num blockCount) * Math_PI * 2 + ra * (5 # 10) in
    rr <- random ;;
    let r := radius * ((7 # 10) + rr * (6 # 10)) in
    let bx := clusterX + Math_cos angle * r in
    let by_ := clusterY + Math_sin angle * r in
    place margin maxY bx by_ blockWidth blockHeight color).

(** Level 6, pattern ['line']: linear with variation. *)
Definition line6 (margin maxY : Q) (k : Cluster) : Gen unit :=
  let 'mkCluster clusterX clusterY _ blockCount color blockWidth blockHeight := k in
  ra <- random ;;
  let angle := ra * Math_PI / 4 - Math_PI / 8 in
  rs <- random ;;
  let spacing := blockWidth + 3 + rs * 5 in
  for_loop blockCount (fun i =>
    let bx := clusterX + num i * spacing * Math_cos angle in
    let by_ := clusterY + num i * spacing * Math_sin angle
               + Math_sin (num i * (8 # 10)) * 10 in
    place margin maxY bx by_ blockWidth blockHeight color).

(** Level 6, pattern ['arc']. *)
Definition arc6 (margin maxY : Q) (k : Cluster) : Gen unit :=
  let 'mkCluster clusterX clusterY _ blockCount color blockWidth blockHeight := k in
  r1 <- random ;;
  let arcRadius := 40 + r1 * 40 in
  r2 <- random ;;
  let startAngle := r2 * Math_PI in
  r3 <- random ;;
  let arcLength := Math_PI * (6 # 10) + r3 * Math_PI * (4 # 10) in
  for_loop blockCount (fun i =>
    let t := num i / num (or_one (blockCount - 1)) in
    let angle := startAngle + t * arcLength in
    let bx := clusterX + Math_cos angle * arcRadius in
    let by_ := clusterY + Math_sin angle * arcRadius in
    place margin maxY bx by_ blockWidth blockHeight color).

(** Level 6: the dispatch on the pattern of a cluster. *)
Definition layout_cluster6 (margin maxY : Q) (k : Cluster) : Gen unit :=
  if is_pattern (pattern k) "tight" then tight6 margin maxY k
  else if is_pattern (pattern k) "scattered" then scattered6 margin maxY k
  else if is_pattern (pattern k) "line" then line6 margin maxY k
  else if is_pattern (pattern k) "arc" then arc6 margin maxY k
  else ret tt.

(** Level 6: explosive chaos, seeded with the constant 12345. *)
Definition level6 : Gen unit :=
  seed_random 12345 ;;
  let margin := 50 in
  let maxY := 420 in
  let numClusters := 10%Z in
  for_loop numClusters (fun c =>
    k <- draw_cluster6 margin maxY ;;
    layout_cluster6 margin maxY k).

Definition patterns100 : list string :=
  ["tight"; "scattered"; "line"; "arc"; "spiral"]%string.

(** Levels 100 and up: the seven draws that open each cluster. *)
Definition draw_cluster (margin maxY : Q) : Gen Cluster :=
  r1 <- random ;;
  let clusterX := margin + r1 * (CANVAS_WIDTH - margin * 2 - 150) in
  r2 <- random ;;
  let clusterY := margin + r2 * (maxY - margin - 100) in
  r3 <- random ;;
  let pattern := index patterns100 (Math_floor (r3 * num (Z.of_nat (List.length patterns100)))) in
  r4 <- random ;;
  let blockCount := (4 + Math_floor (r4 * 6))%Z in
  r5 <- random ;;
  let color := color_at colors5 (Math_floor (r5 * num (Z.of_nat (List.length colors5)))) in
  r6 <- random ;;
  let blockWidth := 35 + r6 * 20 in
  r7 <- random ;;
  let blockHeight := 18 + r7 * 10 in
  ret (mkCluster clusterX clusterY pattern blockCount color blockWidth blockHeight).

(** Levels 100 and up, pattern ['tight']: compact grid. *)
Definition tight (margin maxY : Q) (k : Cluster) : Gen unit :=
  let 'mkCluster clusterX clusterY _ blockCount color blockWidth blockHeight := k in
  let rows := 2%Z in
  let cols := Math_ceil (num blockCount / num rows) in
  r <- random ;;
  let gap := 3 + r * 4 in
  for_loop blockCount (fun i =>
    let row := Math_floor (num i / num cols) in
    let col := Z.rem i cols in
    let bx := clusterX + num col * (blockWidth + gap) in
    let by_ := clusterY + num row * (blockHeight + gap) in
    place margin maxY bx by_ blockWidth blockHeight color).

(** Levels 100 and up, pattern ['scattered']: scattered circle. *)
Definition scattered (margin maxY : Q) (k : Cluster) : Gen unit :=
  let 'mkCluster clusterX clusterY _ blockCount color blockWidth blockHeight := k in
  r <- random ;;
  let radius := 25 + r * 35 in
  for_loop blockCount (fun i =>
    ra <- random ;;
    let angle := (num i / num blockCount) * Math_PI * 2 + ra * (6 # 10) in
    rr <- random ;;
    let r := radius * ((6 # 10) + rr * (7 # 10)) in
    let bx := clusterX + Math_cos angle * r in
    let by_ := clusterY + Math_sin angle * r in
    place margin maxY bx by_ blockWidth blockHeight color).

(** Levels 100 and up, pattern ['line']: linear with variation. *)
Definition line (margin maxY : Q) (k : Cluster) : Gen unit :=
  let 'mkCluster clusterX clusterY _ blockCount color blockWidth blockHeight := k in
  ra <- random ;;
  let angle := ra * Math_PI / 3 - Math_PI / 6 in
  rs <- random ;;
  let spacing := blockWidth + 2 + rs * 6 in
  for_loop blockCount (fun i =>
    let bx := clusterX + num i * spacing * Math_cos angle in
    let by_ := clusterY + num i * spacing * Math_sin angle
               + Math_sin (num i * (9 # 10)) * 12 in
    place margin maxY bx by_ blockWidth blockHeight color).

(** Levels 100 and up, pattern ['arc']. *)
Definition arc (margin maxY : Q) (k : Cluster) : Gen unit :=
  let 'mkCluster clusterX clusterY _ blockCount color blockWidth blockHeight := k in
  r1 <- random ;;
  let arcRadius := 35 + r1 * 50 in
  r2 <- random ;;
  let startAngle := r2 * Math_PI in
  r3 <- random ;;
  let arcLength := Math_PI * (5 # 10) + r3 * Math_PI * (6 # 10) in
  for_loop blockCount (fun i =>
    let t := num i / num (or_one (blockCount - 1)) in
    let angle := startAngle + t * arcLength in
    let bx := clusterX + Math_cos angle * arcRadius in
    let by_ := clusterY + Math_sin angle * arcRadius in
    place margin maxY bx by_ blockWidth blockHeight color).

(** Levels 100 and up, pattern ['spiral']. *)
Definition spiral (margin maxY : Q) (k : Cluster) : Gen unit :=
  let 'mkCluster clusterX clusterY _ blockCount color blockWidth blockHeight := k in
  r <- random ;;
  let spiralTightness := 3 + r * 4 in
  for_loop blockCount (fun i =>
    let angle := (num i / num blockCount) * Math_PI * 2 * (15 # 10) in
    let radius := 10 + (num i / num blockCount) * spiralTightness * 15 in
    let bx := clusterX + Math_cos angle * radius in
    let by_ := clusterY + Math_sin angle * radius in
    place margin maxY bx by_ blockWidth blockHeight color).

(** Levels 100 and up: the dispatch on the pattern of a cluster. *)
Definition layout_cluster (margin maxY : Q) (k : Cluster) : Gen unit :=
  if is_pattern (pattern k) "tight" then tight margin maxY k
  else if is_pattern (pattern k) "scattered" then scattered margin maxY k
  else if is_pattern (pattern k) "line" then line margin maxY k
  else if is_pattern (pattern k) "arc" then arc margin maxY k
  else if is_pattern (pattern k) "spiral" then spiral margin maxY k
  else ret tt.

(** [(level - 100) % 12] *)
Definition levelDifficulty (level : Z) : Z := Z.rem (level - 100) 12.

(** [6 + Math.floor(levelDifficulty / 2)] *)
Definition numClusters (level : Z) : Z :=
  (6 + Math_floor (num (levelDifficulty level) / 2))%Z.

(** One round of the cluster loop of levels 100 and up. *)
Definition cluster_round (margin maxY : Q) (c : Z) : Gen unit :=
  k <- draw_cluster margin maxY ;;
  layout_cluster margin maxY k.

(** Levels 100 and up: procedural, seeded with the level itself. *)
Definition procedural (level : Z) : Gen unit :=
  seed_random level ;;
  let margin := 50 in
  let maxY := 420 in
  for_loop (numClusters level) (cluster_round margin maxY).

(** The body of [generateBlocksForLevel] after [const blocks = []]. *)
Definition generate (level : Z) : Gen unit :=
  if (level =? 1)%Z then level1
  else if (level =? 2)%Z then level2
  else if (level =? 3)%Z then level3 ;; ret tt
  else if (level =? 4)%Z then level4
  else if (level =? 5)%Z then level5
  else if (level =? 6)%Z then level6
  else if (level >=? 100)%Z then procedural level
  else ret tt.

(** [generateBlocksForLevel(level)]: a fresh array, the branch of the level,
    [return blocks].  No closure [random] exists before a branch creates
    one; the initial source is never called. *)
Definition generateBlocksForLevel (level : Z) : list Block :=
  blocks (snd (generate level (mkGen (seededRandom 0) []))).

(** The state of the generator when round [c] of the cluster loop of a
    level of 100 or more begins, and the cluster that round draws. *)
Definition before_round (level : Z) (c : nat) : GenState :=
  snd ((seed_random level ;; for_from 0%Z c (cluster_round 50 420))
         (mkGen (seededRandom 0) [])).

Definition cluster_at (level : Z) (c : nat) : Cluster :=
  fst (draw_cluster 50 420 (before_round level c)).

End Generator.

(** ** Vocabulary of the properties *)

Definition margin : Q := 50.
Definition maxPlayableY : Q := 420.

(** A block lies inside the playable rectangle. *)
Definition in_bounds (b : Block) : Prop :=
  margin <= x b /\ x b + width b <= CANVAS_WIDTH - margin /\
  margin <= y b /\ y b + height b <= maxPlayableY.

Definition in_boundsb (b : Block) : bool :=
  fits margin maxPlayableY (x b) (y b) (width b) (height b).

(** Two blocks agree on every field, numbers compared as numbers. *)
Definition same_block (a b : Block) : Prop :=
  x a == x b /\ y a == y b /\ width a == width b /\ height a == height b /\
  alive a = alive b /\ color a = color b.

(** The host's cosine and sine return values between -1 and 1. *)
Definition bounded (f : Q -> Q) : Prop := forall a, -1 <= f a <= 1.

(** A computation of the generator only appends to [blocks], and what it
    returns, what it appends and the source it leaves depend on the source
    alone; [R] is kept by the source and [P] holds of every appended
    block. *)
Definition appends {A} (R : Source -> Prop) (P : Block -> Prop) (c : Gen A) : Prop :=
  forall r, R r ->
    exists a r' l', R r' /\ Forall P l' /\
      forall l, c (mkGen r l) = (a, mkGen r' (l ++ l')).

(** A computation that never calls the source: what it returns and what
    it appends are the same from every state. *)
Definition pure_appends {A} (c : Gen A) : Prop :=
  exists a l', forall r l, c (mkGen r l) = (a, mkGen r (l ++ l')).

(** What a computation appends does not depend on the state it starts
    from. *)
Definition fixed_output {A} (c : Gen A) : Prop :=
  exists l', forall s, blocks (snd (c s)) = blocks s ++ l'.

(** No condition on the source. *)
Definition any (r : Source) : Prop := True.

(** The state of a source is not negative. *)
Definition nonneg (r : Source) : Prop := (0 <= state r)%Z.

(** One reading of "the per-cluster block count is scaled by the
    difficulty": in a level that is at least as difficult, the cluster of
    every round has at least as many blocks. *)
Definition block_count_follows_difficulty (Math_cos Math_sin : Q -> Q) : Prop :=
  forall (l1 l2 : Z) (c : nat),
    (100 <= l1)%Z -> (100 <= l2)%Z ->
    (levelDifficulty l1 <= levelDifficulty l2)%Z ->
    (blockCount (cluster_at Math_cos Math_sin l1 c)
     <= blockCount (cluster_at Math_cos Math_sin l2 c))%Z.

(** Run from source [r], the computation appends [b] first. *)
Definition first_push {A} (c : Gen A) (r : Source) (b : Block) : Prop :=
  exists a r' l', forall l, c (mkGen r l) = (a, mkGen r' (l ++ b :: l')).

(** Run from source [r], the computation returns [a], leaves source [r']
    and appends nothing. *)
Definition silent {A} (c : Gen A) (r : Source) (a : A) (r' : Source) : Prop :=
  forall l, c (mkGen r l) = (a, mkGen r' l).

(** A block of the given size fits at every point of the square of half
    side [rad] around the anchor. *)
Definition room (cx cy rad w h : Q) : bool :=
  leb 0 rad && leb (margin + rad) cx && leb (cx + rad + w) (CANVAS_WIDTH - margin) &&
  leb (margin + rad) cy && leb (cy + rad + h) maxPlayableY.

End Layout.

(* ================================================================== *)
(** * Session state and the per-frame step *)
(* ================================================================== *)

Module Physics.

Local Open Scope R_scope.

(** [useState<'playing' | 'paused' | 'victory' | 'defeat'>] *)
Inductive GameState := playing | paused | victory | defeat.

(** [interface Block] *)
Record Block := mkBlock {
  x : R;
  y : R;
  width : R;
  height : R;
  alive : bool;
  color : string
}.

(** [interface Ball] *)
Record Ball := mkBall {
  ball_x : R;
  ball_y : R;
  dx : R;
  dy : R;
  radius : R
}.

(** [interface Paddle] *)
Record Paddle := mkPaddle {
  paddle_x : R;
  paddle_y : R;
  paddle_width : R;
  paddle_height : R
}.

(** The state of a mounted [GameScreen]: the [useState] cells of state,
    score and lives, and the refs the loop reads and writes.  Particles
    and the frame counter feed the drawing only and are left out. *)
Record Session := mkSession {
  gameState : GameState;
  score : Z;
  lives : Z;
  blocks : list Block;          (* blocksRef.current *)
  ball : option Ball;           (* ballRef.current, null before the effect *)
  paddle : Paddle;              (* paddleRef.current *)
  ballLaunched : bool;          (* ballLaunchedRef.current *)
  keys : list string;           (* keysRef.current, a Set<string> *)
  mouseX : R                    (* mouseXRef.current *)
}.

Definition CANVAS_WIDTH : R := 800.
Definition CANVAS_HEIGHT : R := 600.

(** Comparisons of numbers as the conditions of the source use them. *)
Definition leb (a b : R) : bool := if Rle_dec a b then true else false.
Definition geb (a b : R) : bool := leb b a.
Definition gtb (a b : R) : bool := if Rlt_dec b a then true else false.

(** [keysRef.current.has(k)] *)
Definition has (ks : list string) (k : string) : bool :=
  existsb (String.eqb k) ks.

(** [keysRef.current.add(k)] and [keysRef.current.delete(k)] *)
Definition add (ks : list string) (k : string) : list string :=
  if has ks k then ks else ks ++ [k].
Definition delete (ks : list string) (k : string) : list string :=
  filter (fun k' => negb (String.eqb k k')) ks.

Definition set_paddle_x (p : Paddle) (v : R) : Paddle :=
  mkPaddle v (paddle_y p) (paddle_width p) (paddle_height p).

(** The paddle update of [gameLoop]: the two key-hold moves, then the
    assignment from the pointer. *)
Definition update_paddle (ks : list string) (mx : R) (p : Paddle) : Paddle :=
  let p1 := if has ks "ArrowLeft"
            then set_paddle_x p (Rmax 0 (paddle_x p - 8)) else p in
  let p2 := if has ks "ArrowRight"
            then set_paddle_x p1 (Rmin (CANVAS_WIDTH - paddle_width p1) (paddle_x p1 + 8))
            else p1 in
  set_paddle_x p2
    (Rmax 0 (Rmin (CANVAS_WIDTH - paddle_width p2) (mx - paddle_width p2 / 2))).

(** [ball.x += ball.dx; ball.y += ball.dy] *)
Definition move (b : Ball) : Ball :=
  mkBall (ball_x b + dx b) (ball_y b + dy b) (dx b) (dy b) (radius b).

Definition flip_dx (b : Ball) : Ball :=
  mkBall (ball_x b) (ball_y b) (- dx b) (dy b) (radius b).
Definition flip_dy (b : Ball) : Ball :=
  mkBall (ball_x b) (ball_y b) (dx b) (- dy b) (radius b).

(** Wall collisions: left or right wall, then the top wall. *)
Definition wall_x (b : Ball) : Ball :=
  if leb (ball_x b - radius b) 0 || geb (ball_x b + radius b) CANVAS_WIDTH
  then flip_dx b else b.
Definition wall_y (b : Ball) : Ball :=
  if leb (ball_y b - radius b) 0 then flip_dy b else b.
Definition wall_collisions (b : Ball) : Ball := wall_y (wall_x b).

(** The condition of the paddle collision. *)
Definition touches_paddle (p : Paddle) (b : Ball) : bool :=
  geb (ball_y b + radius b) (paddle_y p) &&
  leb (ball_y b - radius b) (paddle_y p + paddle_height p) &&
  geb (ball_x b) (paddle_x p) &&
  leb (ball_x b) (paddle_x p + paddle_width p).

(** The body of the paddle collision: [dy] is forced upwards, then the
    direction is recomputed from the hit position. *)
Definition paddle_bounce (p : Paddle) (b : Ball) : Ball :=
  let dy1 := - Rabs (dy b) in
  let hitPos := (ball_x b - paddle_x p) / paddle_width p in
  let angle := (hitPos - 5 / 10) * PI / (15 / 10) in
  let speed := sqrt (dx b * dx b + dy1 * dy1) in
  mkBall (ball_x b) (ball_y b) (sin angle * speed) (- Rabs (cos angle * speed))
         (radius b).

Definition paddle_collision (p : Paddle) (b : Ball) : Ball :=
  if touches_paddle p b then paddle_bounce p b else b.

(** The bounding-box test of a block against the ball. *)
Definition hits (b : Ball) (k : Block) : bool :=
  geb (ball_x b + radius b) (x k) &&
  leb (ball_x b - radius b) (x k + width k) &&
  geb (ball_y b + radius b) (y k) &&
  leb (ball_y b - radius b) (y k + height k).

Definition kill (k : Block) : Block :=
  mkBlock (x k) (y k) (width k) (height k) false (color k).

(** [blocksRef.current.forEach(...)]: every block is visited in order; a
    live block that overlaps the ball is marked dead, [dy] is inverted
    and ten points are added. *)
Fixpoint block_collisions (ks : list Block) (b : Ball) (sc : Z)
  : list Block * Ball * Z :=
  match ks with
  | [] => ([], b, sc)
  | k :: rest =>
      if negb (alive k) then
        let '(rest', b', sc') := block_collisions rest b sc in (k :: rest', b', sc')
      else if hits b k then
        let '(rest', b', sc') := block_collisions rest (flip_dy b) (sc + 10)%Z in
        (kill k :: rest', b', sc')
      else
        let '(rest', b', sc') := block_collisions rest b sc in (k :: rest', b', sc')
  end.

(** The position the ball is slaved to before launch and after a lost
    life. *)
Definition on_paddle (p : Paddle) (b : Ball) (vx vy : R) : Ball :=
  mkBall (paddle_x p + paddle_width p / 2) (paddle_y p - 10) vx vy (radius b).

(** [ball.y - ball.radius > CANVAS_HEIGHT] *)
Definition out_of_bounds (b : Ball) : bool :=
  gtb (ball_y b - radius b) CANVAS_HEIGHT.

(** The updater passed to [setLives] when the ball has left through the
    bottom, with the assignments it makes to the ball and to
    [ballLaunchedRef]; [ks] and [sc] are the blocks and the score after the
    block collisions of the same frame. *)
Definition lose_life (s : Session) (p : Paddle) (b : Ball)
    (ks : list Block) (sc : Z) : Session :=
  let newLives := (lives s - 1)%Z in
  if (newLives <=? 0)%Z then
    mkSession defeat sc newLives ks (Some b) p (ballLaunched s) (keys s) (mouseX s)
  else
    mkSession (gameState s) sc newLives ks (Some (on_paddle p b 0 0)) p false
              (keys s) (mouseX s).

(** The branch [if (ballLaunchedRef.current)] of the loop. *)
Definition launched_step (s : Session) (p : Paddle) (b : Ball) : Session :=
  let b1 := paddle_collision p (wall_collisions (move b)) in
  let '(ks, b2, sc) := block_collisions (blocks s) b1 (score s) in
  if out_of_bounds b2 then lose_life s p b2 ks sc
  else mkSession (gameState s) sc (lives s) ks (Some b2) p (ballLaunched s)
                 (keys s) (mouseX s).

(** The branch taken before launch: the ball follows the paddle. *)
Definition follow_step (s : Session) (p : Paddle) (b : Ball) : Session :=
  mkSession (gameState s) (score s) (lives s) (blocks s)
            (Some (on_paddle p b (dx b) (dy b))) p (ballLaunched s)
            (keys s) (mouseX s).

(** [blocksRef.current.every((block) => !block.alive)] *)
Definition all_dead (ks : list Block) : bool :=
  forallb (fun k => negb (alive k)) ks.

(** The victory check that ends the loop body. *)
Definition check_victory (s : Session) : Session :=
  if all_dead (blocks s) then
    mkSession victory (score s) (lives s) (blocks s) (ball s) (paddle s)
              (ballLaunched s) (keys s) (mouseX s)
  else s.

(** One call of [gameLoop]: nothing happens unless the state is
    [playing]; otherwise paddle, ball, blocks, lives and the victory check,
    in this order.  The calls of [setScore], [setLives] and [setGameState]
    take effect in program order.  The order matters only for a frame that
    both takes the last life and finds every block dead, where the deferred
    updater of [setLives] would set [defeat] after the check has set
    [victory]; such a frame needs a block below the canvas, which the
    invariant [sane] rules out. *)
Definition gameLoop (s : Session) : Session :=
  match gameState s with
  | playing =>
      let p := update_paddle (keys s) (mouseX s) (paddle s) in
      let s1 :=
        match ball s with
        | Some b => if ballLaunched s then launched_step s p b else follow_step s p b
        | None => mkSession (gameState s) (score s) (lives s) (blocks s) None p
                            (ballLaunched s) (keys s) (mouseX s)
        end in
      check_victory s1
  | _ => s
  end.

(** The launch shared by the space key and the click; [rnd] is the value
    [Math.random()] returns. *)
Definition launch (rnd : R) (s : Session) : Session :=
  match ball s with
  | Some b =>
      if negb (ballLaunched s) then
        let angle := (rnd - 5 / 10) * PI / 3 in
        let speed := 4 in
        mkSession (gameState s) (score s) (lives s) (blocks s)
                  (Some (mkBall (ball_x b) (ball_y b) (sin angle * speed)
                                (- cos angle * speed) (radius b)))
                  (paddle s) true (keys s) (mouseX s)
      else s
  | None => s
  end.

Definition set_keys (s : Session) (ks : list string) : Session :=
  mkSession (gameState s) (score s) (lives s) (blocks s) (ball s) (paddle s)
            (ballLaunched s) ks (mouseX s).

(** [handleKeyDown], [handleKeyUp] *)
Definition handleKeyDown (key : string) (rnd : R) (s : Session) : Session :=
  let s1 := set_keys s (add (keys s) key) in
  if String.eqb key " " then launch rnd s1 else s1.
Definition handleKeyUp (key : string) (s : Session) : Session :=
  set_keys s (delete (keys s) key).

(** [handleMouseMove], [handleClick] *)
Definition handleMouseMove (clientX left rect_width : R) (s : Session) : Session :=
  mkSession (gameState s) (score s) (lives s) (blocks s) (ball s) (paddle s)
            (ballLaunched s) (keys s) ((clientX - left) / rect_width * CANVAS_WIDTH).
Definition handleClick (rnd : R) (s : Session) : Session := launch rnd s.

(** [togglePause] *)
Definition togglePause (s : Session) : Session :=
  let set st := mkSession st (score s) (lives s) (blocks s) (ball s) (paddle s)
                          (ballLaunched s) (keys s) (mouseX s) in
  match gameState s with
  | playing => set paused
  | paused => set playing
  | _ => s
  end.

(** [handleRestart]; [fresh] is [generateBlocksForLevel(levelId)]. *)
Definition handleRestart (fresh : list Block) (s : Session) : Session :=
  mkSession playing 0 3 fresh
            (Some (mkBall (paddle_x (paddle s) + paddle_width (paddle s) / 2)
                          (paddle_y (paddle s) - 10) 0 0 8))
            (paddle s) false (keys s) (mouseX s).

(** The session once the component is mounted and its effects have run. *)
Definition initial (generated : list Block) : Session :=
  let p := mkPaddle 340 560 120 15 in
  mkSession playing 0 3 generated
            (Some (mkBall (paddle_x p + paddle_width p / 2) (paddle_y p - 10) 0 0 8))
            p false [] 400.

(** What can happen to a session between mount and restart. *)
Inductive Event :=
| Frame
| KeyDown (key : string) (rnd : R)
| KeyUp (key : string)
| MouseMove (clientX left rect_width : R)
| Click (rnd : R)
| TogglePause.

Definition step (e : Event) (s : Session) : Session :=
  match e with
  | Frame => gameLoop s
  | KeyDown key rnd => handleKeyDown key rnd s
  | KeyUp key => handleKeyUp key s
  | MouseMove cx l w => handleMouseMove cx l w s
  | Click rnd => handleClick rnd s
  | TogglePause => togglePause s
  end.

(** The session after a sequence of events, oldest first. *)
Definition run (es : list Event) (s : Session) : Session :=
  fold_left (fun s e => step e s) es s.

(** [sqrt(dx^2 + dy^2)] *)
Definition speed (b : Ball) : R := sqrt (dx b * dx b + dy b * dy b).

(** How many live blocks the ball overlaps. *)
Definition hit_count (b : Ball) (ks : list Block) : Z :=
  Z.of_nat (List.length (filter (fun k => alive k && hits b k) ks)).

(** ** Vocabulary of the properties *)

(** [clamp(v, lo, hi)] *)
Definition clamp (v lo hi : R) : R := Rmax lo (Rmin hi v).

(** What the block loop does to one block, given the ball. *)
Definition struck (b : Ball) (k : Block) : Block :=
  if alive k && hits b k then kill k else k.

(** The ball after [n] inversions of [dy]. *)
Definition flips (n : nat) (b : Ball) : Ball := Nat.iter n flip_dy b.

(** The ball as the block loop of a frame sees it: moved, and bounced off
    the walls and the paddle. *)
Definition ball_at_blocks (s : Session) (b : Ball) : Ball :=
  paddle_collision (update_paddle (keys s) (mouseX s) (paddle s))
                   (wall_collisions (move b)).

(** A block ends above the bottom of the canvas. *)
Definition in_canvas (k : Block) : Prop := y k + height k <= CANVAS_HEIGHT.

(** The state is [victory] exactly when no block is alive. *)
Definition victory_iff_cleared (s : Session) : Prop :=
  gameState s = victory <-> all_dead (blocks s) = true.

(** Lives are not negative, and the state is [defeat] exactly when none is
    left. *)
Definition lives_sound (s : Session) : Prop :=
  (0 <= lives s)%Z /\ (gameState s = defeat <-> lives s = 0%Z).

(** What holds throughout a session that starts with a live block. *)
Definition steady (s : Session) : Prop :=
  Forall in_canvas (blocks s) /\ victory_iff_cleared s /\ lives_sound s.

(** The first frame has not been run yet on a level without a live block: the
    ball still rests at the height the mount effect gave it, launched or
    not. *)
Definition unmoved (s : Session) : Prop :=
  all_dead (blocks s) = true /\ lives s = 3%Z /\
  (gameState s = playing \/ gameState s = paused) /\
  exists b, ball s = Some b /\ ball_y b = 560 - 10 /\ radius b = 8 /\ dy b <= 4.

(** What holds in every state of a session on a level whose blocks end
    inside the canvas. *)
Definition sane (s : Session) : Prop :=
  Forall in_canvas (blocks s) /\ lives_sound s /\
  (victory_iff_cleared s \/ unmoved s).

(** A block of the generator as the loop sees it. *)
Definition of_layout (k : Layout.Block) : Block :=
  mkBlock (Q2R (Layout.x k)) (Q2R (Layout.y k)) (Q2R (Layout.width k))
          (Q2R (Layout.height k)) (Layout.alive k) (Layout.color k).

End Physics.

(* ================================================================== *)
(** * The mounted component: restart, notification, bookkeeping *)
(* ================================================================== *)

Module Lifetime.

Import Physics.
Local Open Scope R_scope.

(** What can happen to a mounted [GameScreen]: an event of the session,
    or a click on the restart button. *)
Inductive Action :=
| Act (e : Event)
| Restart.

(** [generated] is [generateBlocksForLevel(levelId)] for the [levelId] the
    component was mounted with; [handleRestart] calls the generator
    again. *)
Definition perform (generated : list Block) (a : Action) (s : Session) : Session :=
  match a with
  | Act e => step e s
  | Restart => handleRestart generated s
  end.

(** The component after a sequence of actions, oldest first. *)
Definition lifetime (generated : list Block) (acts : list Action) (s : Session)
  : Session :=
  fold_left (fun s a => perform generated a s) acts s.

(** Whether a call of [gameLoop] calls [onLevelComplete(levelId)]: the
    call stands next to [setGameState('victory')], behind the early return
    for a state other than [playing] and behind the test that every block
    is dead, which reads the blocks as the block loop of the same frame
    left them. *)
Definition notifies (s : Session) : bool :=
  match gameState s with
  | playing => all_dead (blocks (gameLoop s))
  | _ => false
  end.

(** How often [onLevelComplete] is called during a sequence of events. *)
Fixpoint notifications (es : list Event) (s : Session) : nat :=
  match es with
  | [] => O
  | e :: es' =>
      ((match e with
        | Frame => if notifies s then 1 else 0
        | _ => 0
        end) + notifications es' (step e s))%nat
  end.

(** ** Vocabulary of the properties *)

(** How many blocks are dead. *)
Definition dead_count (ks : list Block) : Z :=
  Z.of_nat (List.length (filter (fun k => negb (alive k)) ks)).

(** Every block is alive. *)
Definition all_alive (ks : list Block) : bool := forallb alive ks.

(** A block before and after: same place, size and colour, and a dead
    block stays dead. *)
Definition same_or_killed (k k' : Block) : Prop :=
  x k' = x k /\ y k' = y k /\ width k' = width k /\ height k' = height k /\
  color k' = color k /\ (alive k = false -> alive k' = false).

(** The paddle has the height, width and thickness it is mounted with and
    lies inside the canvas. *)
Definition mounted_paddle (p : Paddle) : Prop :=
  paddle_y p = 560 /\ paddle_width p = 120 /\ paddle_height p = 15 /\
  0 <= paddle_x p <= CANVAS_WIDTH - 120.

(** What holds of a mounted component at all times. *)
Definition mounted (s : Session) : Prop :=
  sane s /\ mounted_paddle (paddle s) /\ (lives s <= 3)%Z /\
  exists b, ball s = Some b /\ radius b = 8.

(** The ball is either launched and travels at the launch speed, or it
    rests. *)
Definition cruising (s : Session) : Prop :=
  exists b, ball s = Some b /\
    if ballLaunched s then speed b = 4 else dx b = 0 /\ dy b = 0.

(** The x coordinate of the middle of the paddle. *)
Definition centre (p : Paddle) : R := paddle_x p + paddle_width p / 2.

(** The centre of the ball is at most 4 beyond a side wall or the top
    wall, now and after the move of the next frame. *)
Definition contained (b : Ball) : Prop :=
  - 4 <= ball_x b <= 804 /\ - 4 <= ball_x b + dx b <= 804 /\
  - 4 <= ball_y b /\ - 4 <= ball_y b + dy b.

(** A block begins below the strip in which the ball touches the top
    wall. *)
Definition below_top (k : Block) : Prop := 16 < y k.

(** What holds of the ball of a mounted component at all times. *)
Definition enclosed (s : Session) : Prop :=
  mounted_paddle (paddle s) /\ Forall below_top (blocks s) /\
  exists b, ball s = Some b /\ radius b = 8 /\ contained b /\
    if ballLaunched s then speed b = 4
    else dx b = 0 /\ dy b = 0 /\ 0 <= ball_x b <= 800 /\ 0 <= ball_y b.

(** An event that launches a ball at rest: a click, or the space key. *)
Definition launches (e : Event) : bool :=
  match e with
  | Click _ => true
  | KeyDown key _ => String.eqb key " "
  | _ => false
  end.

(** The ball has not been launched: it rests on the middle of the paddle,
    and nothing has been scored or lost. *)
Definition waiting (generated : list Block) (s : Session) : Prop :=
  ballLaunched s = false /\ score s = 0%Z /\ lives s = 3%Z /\
  blocks s = generated /\ gameState s <> defeat /\
  exists b, ball s = Some b /\ dx b = 0 /\ dy b = 0 /\
            ball_x b = centre (paddle s) /\ ball_y b = paddle_y (paddle s) - 10.

End Lifetime.

(* ================================================================== *)
(** * Counting what the generator appends *)
(* ================================================================== *)

Module Census.

Import Random Layout.
Local Open Scope Q_scope.

(** A computation of the generator keeps [R] of the source, returns a
    value with [Q], and appends at most [n] blocks, each with [P]. *)
Definition emits {A} (R : Source -> Prop) (Q : A -> Prop) (P : Block -> Prop)
    (n : nat) (c : Gen A) : Prop :=
  forall r, R r ->
    exists a r' l', R r' /\ Q a /\ Forall P l' /\ (List.length l' <= n)%nat /\
      forall l, c (mkGen r l) = (a, mkGen r' (l ++ l')).

(** A number as [random()] returns it. *)
Definition unit_draw (v : Q) : Prop := 0 <= v < 1.

(** What a cluster may have drawn: the count of its blocks and their
    size within the given ranges, and a colour of the palette. *)
Definition cluster_in (cmin cmax : Z) (wlo whi hlo hhi : Q) (k : Cluster) : Prop :=
  (cmin <= blockCount k <= cmax)%Z /\
  wlo <= blockWidth k < whi /\ hlo <= blockHeight k < hhi /\
  In (cluster_color k) colors5.

(** A block of a cluster: alive, of a size within the given ranges, in a
    colour of the palette. *)
Definition block_in (wlo whi hlo hhi : Q) (b : Block) : Prop :=
  alive b = true /\ wlo <= width b < whi /\ hlo <= height b < hhi /\
  In (color b) colors5.

End Census.

(* ================================================================== *)
(** * Particles *)
(* ================================================================== *)

Module Particles.

Local Open Scope R_scope.

(** [interface Particle] *)
Record Particle := mkParticle {
  px : R;
  py : R;
  pdx : R;
  pdy : R;
  life : R;
  maxLife : R;
  size : R;
  pcolor : string
}.

(** The loop of [createParticles] from round [i], [n] rounds to go.  Every
    round calls [Math.random()] three times, for [dx], [dy] and [size] in
    this order; [rnd j] is the number the call of index [j] returns. *)
Fixpoint spawn (x y : R) (color : string) (rnd : nat -> R) (i n : nat)
  : list Particle :=
  match n with
  | O => []
  | S n' =>
      mkParticle x y ((rnd (3 * i)%nat - 5 / 10) * 4)
                 ((rnd (3 * i + 1)%nat - 5 / 10) * 4) 1 1
                 (rnd (3 * i + 2)%nat * 3 + 2) color
      :: spawn x y color rnd (S i) n'
  end.

(** [createParticles(x, y, count, color)] on [particlesRef.current];
    [particleEffects] is [settings.particleEffects]. *)
Definition createParticles (particleEffects : bool) (x y : R) (count : nat)
    (color : string) (rnd : nat -> R) (ps : list Particle) : list Particle :=
  if negb particleEffects then ps else ps ++ spawn x y color rnd 0 count.

(** What the callback of the particle filter does to a particle before it
    tests its life. *)
Definition age (p : Particle) : Particle :=
  mkParticle (px p + pdx p) (py p + pdy p) (pdx p) (pdy p) (life p - 16 / 1000)
             (maxLife p) (size p) (pcolor p).

(** [particlesRef.current = particlesRef.current.filter(...)]: every
    particle is moved and aged, and kept when [particle.life > 0]. *)
Definition update (ps : list Particle) : list Particle :=
  filter (fun p => Physics.gtb (life p) 0) (map age ps).

(** [ctx.globalAlpha = particle.life / particle.maxLife] *)
Definition globalAlpha (p : Particle) : R := life p / maxLife p.

(** The particles after [n] frames in which none is created. *)
Definition frames (n : nat) (ps : list Particle) : list Particle :=
  Nat.iter n update ps.

(** ** Vocabulary of the properties *)

(** A particle [n] frames older. *)
Definition aged (n : nat) (p : Particle) : Particle :=
  mkParticle (px p + INR n * pdx p) (py p + INR n * pdy p) (pdx p) (pdy p)
             (life p - INR n * (16 / 1000)) (maxLife p) (size p) (pcolor p).

(** A particle as [createParticles(x, y, _, color)] makes it from numbers
    of the unit interval. *)
Definition fresh (x y : R) (color : string) (p : Particle) : Prop :=
  px p = x /\ py p = y /\ pcolor p = color /\ life p = 1 /\ maxLife p = 1 /\
  - 2 <= pdx p < 2 /\ - 2 <= pdy p < 2 /\ 2 <= size p < 5.

End Particles.

(* ================================================================== *)
(** * The application: screens, map selection, unlocking *)
(* ================================================================== *)

Module App.

Local Open Scope Z_scope.

(** [useState<'menu' | 'maps' | 'leaderboard' | 'settings' | 'game'>] *)
Inductive Screen := menu | maps | leaderboard | settings | game.

(** [useState<'curated' | 'procedural'>] *)
Inductive Tab := curated | procedural.

(** [interface MapData]; [description], [completed] and [stars] are only
    displayed and are left out. *)
Record MapData := mkMap {
  id : Z;
  name : string;
  difficulty : string;
  blocks : Z;
  locked : bool
}.

Definition curatedMaps : list MapData :=
  [ mkMap 1 "First Steps" "Easy" 24 false;
    mkMap 2 "Circular Formation" "Medium" 8 true;
    mkMap 3 "Pyramid Power" "Medium" 36 true;
    mkMap 4 "Checkerboard" "Hard" 32 true;
    mkMap 5 "The Fortress" "Hard" 64 true;
    mkMap 6 "Explosive Chaos" "Extreme" 80 true ].

(** The state of a mounted [MapsScreen].  [devLockStates] is an object
    keyed by map id; the newest entry of a key comes first. *)
Record MapsState := mkMaps {
  activeTab : Tab;
  developerMode : bool;
  instantWinMode : bool;
  devLockStates : list (Z * bool);
  instantWinMapId : option Z
}.

(** The state of [App]; the settings are handed to the screens and take
    no part in the navigation.  [mapsScreen] is the state of the
    [MapsScreen], which is mounted afresh whenever the screen becomes
    ['maps']. *)
Record State := mkApp {
  currentScreen : Screen;
  selectedMapId : Z;
  unlockedLevels : list Z;
  mapsScreen : MapsState
}.

Definition mapsInitial : MapsState := mkMaps curated false false [] None.

Definition initial : State := mkApp menu 1 [1] mapsInitial.

(** [unlockedLevels.includes(n)] *)
Definition includes (l : list Z) (n : Z) : bool := existsb (Z.eqb n) l.

(** [devLockStates[k]]; [None] is [undefined]. *)
Fixpoint lookup (d : list (Z * bool)) (k : Z) : option bool :=
  match d with
  | [] => None
  | (k', v) :: d' => if k =? k' then Some v else lookup d' k
  end.

(** [handleLevelComplete(levelId)] on [unlockedLevels] *)
Definition handleLevelComplete (levelId : Z) (unlocked : list Z) : list Z :=
  let nextLevel := levelId + 1 in
  if negb (includes unlocked nextLevel) then unlocked ++ [nextLevel] else unlocked.

(** The [locked] that [updatedMaps] computes for a map. *)
Definition lockedNow (unlocked : list Z) (st : MapsState) (m : MapData) : bool :=
  if developerMode st then
    match lookup (devLockStates st) (id m) with
    | Some v => v
    | None => negb (includes unlocked (id m))
    end
  else negb (includes unlocked (id m)).

(** [updatedMaps] *)
Definition updatedMaps (unlocked : list Z) (st : MapsState) : list MapData :=
  map (fun m => mkMap (id m) (name m) (difficulty m) (blocks m)
                      (lockedNow unlocked st m))
      curatedMaps.

(** [toggleMapLock(mapId, currentLockState)] *)
Definition toggleMapLock (mapId : Z) (currentLockState : bool) (st : MapsState)
  : MapsState :=
  mkMaps (activeTab st) (developerMode st) (instantWinMode st)
         ((mapId, negb currentLockState) :: devLockStates st) (instantWinMapId st).

Definition setInstantWinMapId (v : option Z) (st : MapsState) : MapsState :=
  mkMaps (activeTab st) (developerMode st) (instantWinMode st) (devLockStates st) v.

(** [handleSelectMap(mapId)] *)
Definition handleSelectMap (mapId : Z) (a : State) : State :=
  mkApp game mapId (unlockedLevels a) (mapsScreen a).

Definition setMaps (a : State) (st : MapsState) : State :=
  mkApp (currentScreen a) (selectedMapId a) (unlockedLevels a) st.

(** The [onClick] of the card of a curated map. *)
Definition clickCurated (m : MapData) (a : State) : State :=
  let st := mapsScreen a in
  if developerMode st && instantWinMode st
  then setMaps a (setInstantWinMapId (Some (id m)) st)
  else if negb (locked m) then handleSelectMap (id m) a
  else a.

(** The cards of the procedural tab, [index] from 0 to 11. *)
Definition levelIdOf (index : Z) : Z := 100 + index + 1.

(** [['Easy', 'Medium', 'Hard', 'Expert'][Math.floor(index / 3) % 4]], as
    the position in the array. *)
Definition difficultyRank (index : Z) : Z := Z.rem (index / 3) 4.

(** [30 + (index * 5) + (index % 3) * 10] *)
Definition estimatedBlocks (index : Z) : Z := 30 + index * 5 + Z.rem index 3 * 10.

(** The number in the title of a card, [Random Level #{index + 1}], and
    the one in the header of the game, [Random Level #${levelId - 99}]. *)
Definition cardNumber (index : Z) : Z := index + 1.
Definition headerNumber (levelId : Z) : Z := levelId - 99.

(** The [onClick] of a card of the procedural tab. *)
Definition clickProcedural (index : Z) (a : State) : State :=
  let st := mapsScreen a in
  let levelId := levelIdOf index in
  if developerMode st && instantWinMode st
  then setMaps a (setInstantWinMapId (Some levelId) st)
  else handleSelectMap levelId a.

(** What the main menu can navigate to. *)
Inductive Target := to_settings | to_maps | to_leaderboard.

Definition screen_of (t : Target) : Screen :=
  match t with
  | to_settings => settings
  | to_maps => maps
  | to_leaderboard => leaderboard
  end.

(** What the user and the game can do to the application.  An event of a
    control that is not on the screen changes nothing. *)
Inductive Event :=
| Navigate (t : Target)        (* a button of the main menu *)
| Back                         (* [onBack] of the screen shown *)
| SetTab (t : Tab)
| ToggleDeveloperMode
| ToggleInstantWin
| ToggleLock (mapId : Z)       (* the lock button on a curated card *)
| ClickCurated (mapId : Z)
| ClickProcedural (index : Z)
| CloseOverlay                 (* [onRestart] and [onMenu] of the instant win *)
| LevelComplete.               (* [onLevelComplete(levelId)] of the game *)

(** The card of a curated map as the screen shows it. *)
Definition card (a : State) (mapId : Z) : option MapData :=
  find (fun m => id m =? mapId) (updatedMaps (unlockedLevels a) (mapsScreen a)).

Definition onMaps (a : State) (f : MapsState -> MapsState) : State :=
  match currentScreen a with
  | maps => setMaps a (f (mapsScreen a))
  | _ => a
  end.

Definition step (e : Event) (a : State) : State :=
  match e with
  | Navigate t =>
      match currentScreen a with
      | menu => mkApp (screen_of t) (selectedMapId a) (unlockedLevels a) mapsInitial
      | _ => a
      end
  | Back =>
      match currentScreen a with
      | menu => a
      | game => mkApp maps (selectedMapId a) (unlockedLevels a) mapsInitial
      | _ => mkApp menu (selectedMapId a) (unlockedLevels a) (mapsScreen a)
      end
  | SetTab t =>
      onMaps a (fun st => mkMaps t (developerMode st) (instantWinMode st)
                                 (devLockStates st) (instantWinMapId st))
  | ToggleDeveloperMode =>
      onMaps a (fun st => mkMaps (activeTab st) (negb (developerMode st))
                                 (instantWinMode st) (devLockStates st)
                                 (instantWinMapId st))
  | ToggleInstantWin =>
      onMaps a (fun st =>
        if developerMode st
        then mkMaps (activeTab st) (developerMode st) (negb (instantWinMode st))
                    (devLockStates st) (instantWinMapId st)
        else st)
  | ToggleLock mapId =>
      match currentScreen a, activeTab (mapsScreen a), card a mapId with
      | maps, curated, Some m =>
          if developerMode (mapsScreen a)
          then setMaps a (toggleMapLock (id m) (locked m) (mapsScreen a))
          else a
      | _, _, _ => a
      end
  | ClickCurated mapId =>
      match currentScreen a, activeTab (mapsScreen a), card a mapId with
      | maps, curated, Some m => clickCurated m a
      | _, _, _ => a
      end
  | ClickProcedural index =>
      match currentScreen a, activeTab (mapsScreen a) with
      | maps, procedural =>
          if (0 <=? index) && (index <? 12) then clickProcedural index a else a
      | _, _ => a
      end
  | CloseOverlay => onMaps a (setInstantWinMapId None)
  | LevelComplete =>
      match currentScreen a with
      | game => mkApp game (selectedMapId a)
                      (handleLevelComplete (selectedMapId a) (unlockedLevels a))
                      (mapsScreen a)
      | _ => a
      end
  end.

(** The application after a sequence of events, oldest first. *)
Definition run (es : list Event) (a : State) : State :=
  fold_left (fun a e => step e a) es a.

(** ** Vocabulary of the properties *)

(** A level the generator has a branch for and the map screen a card. *)
Definition offered (n : Z) : Prop := 1 <= n <= 6 \/ 101 <= n <= 112.

(** The unlocked curated levels are the levels 1 to [k]. *)
Definition unlocked_up_to (k : Z) (l : list Z) : Prop :=
  forall n, 1 <= n <= 7 -> (In n l <-> n <= k).

(** The developer mode is never switched. *)
Definition no_developer (es : list Event) : Prop := ~ In ToggleDeveloperMode es.

(** The level selected has a card and a branch of the generator; the
    unlocked levels are listed once, level 1 is among them, and every
    other one follows such a level. *)
Definition playable (a : State) : Prop :=
  offered (selectedMapId a) /\ NoDup (unlockedLevels a) /\
  In 1 (unlockedLevels a) /\
  forall n, In n (unlockedLevels a) -> n = 1 \/ offered (n - 1).

(** The developer mode is off, the unlocked curated levels are the levels
    1 to [k], and the level selected is one of them or a random level. *)
Definition sequential (k : Z) (a : State) : Prop :=
  developerMode (mapsScreen a) = false /\ 1 <= k <= 7 /\
  unlocked_up_to k (unlockedLevels a) /\
  (selectedMapId a <= k \/ 101 <= selectedMapId a).

(** [unlockedLevels] after the levels of [ls] have been completed, oldest
    first. *)
Definition completes (ls : list Z) (unlocked : list Z) : list Z :=
  fold_left (fun l n => handleLevelComplete n l) ls unlocked.

End App.

(* ================================================================== *)
(** * The seeded random source is the 32-bit linear congruential
      generator *)
(* ================================================================== *)

Section RandomFacts.

Import Random.
Local Open Scope Z_scope.

(** On a 32-bit state the product and the sum stay below 2^53, so the
    double computation is the integer one; the truncating remainder is the
    modulus, and the new state is again a 32-bit integer. *)
Lemma advance_word32 (s : Z) :
  word32 s ->
  0 <= scaled s < 2 ^ 53 /\ advance s = lcg_spec s /\ word32 (advance s).
Proof.
  unfold word32, advance, lcg_spec, scaled. intros Hs.
  assert (Hpos : 0 <= s * 1664525 + 1013904223 < 2 ^ 53).
  { change (2 ^ 32) with 4294967296 in Hs.
    change (2 ^ 53) with 9007199254740992. lia. }
  split; [exact Hpos|].
  change (2 ^ 32) with 4294967296.
  change (2 ^ 53) with 9007199254740992 in Hpos.
  rewrite Z.rem_mod_nonneg by lia.
  split; [reflexivity|].
  apply Z.mod_pos_bound. lia.
Qed.

(** From a non-negative state of any size the next state is a 32-bit
    integer. *)
Lemma advance_nonneg (s : Z) : 0 <= s -> word32 (advance s).
Proof.
  unfold word32, advance, scaled. intros Hs.
  change (2 ^ 32) with 4294967296.
  rewrite Z.rem_mod_nonneg by lia.
  apply Z.mod_pos_bound. lia.
Qed.

(** The number returned for a 32-bit state lies in [0, 1). *)
Lemma unit_interval (s : Z) :
  word32 s -> (0 <= inject_Z s / inject_Z 4294967296 < 1)%Q.
Proof.
  unfold word32. change (2 ^ 32) with 4294967296. intros [Hlo Hhi].
  unfold Qdiv, Qmult, Qinv, Qle, Qlt, inject_Z; simpl Qnum; simpl Qden.
  split; lia.
Qed.

Lemma call_value (r : Source) :
  fst (call r) = (inject_Z (advance (state r)) / inject_Z 4294967296)%Q.
Proof. reflexivity. Qed.

Lemma call_state (r : Source) : state (snd (call r)) = advance (state r).
Proof. reflexivity. Qed.

Lemma states_lcg (n : nat) : forall r,
  word32 (state r) -> states n r = lcg_states n (state r).
Proof.
  induction n as [|n IH]; intros r Hr; [reflexivity|].
  destruct (advance_word32 _ Hr) as (_ & Heq & Hw).
  simpl. rewrite <- Heq. f_equal.
  rewrite (IH (mkSource (advance (state r))) Hw). reflexivity.
Qed.

Lemma draws_states (n : nat) : forall r,
  draws n r = map (fun s => (inject_Z s / inject_Z 4294967296)%Q) (states n r).
Proof.
  induction n as [|n IH]; intros r; [reflexivity|].
  simpl. f_equal. apply IH.
Qed.

Lemma states_word32 (n : nat) : forall r,
  word32 (state r) -> Forall word32 (states n r).
Proof.
  induction n as [|n IH]; intros r Hr; simpl; constructor.
  - apply advance_word32, Hr.
  - apply IH. apply advance_word32, Hr.
Qed.

(** C4.  For every non-negative 32-bit seed the source built by
    [seededRandom] goes through the states
    [state := (state * 1664525 + 1013904223) mod 2^32] (every intermediate
    integer stays below 2^53, so the double arithmetic is exact), each call
    returns [state / 2^32], a number in [0, 1), and a second source built
    from the same seed returns the same sequence. *)
Theorem seeded_random_lcg (seed : Z) (n : nat) :
  word32 seed ->
  states n (seededRandom seed) = lcg_states n seed /\
  draws n (seededRandom seed) =
    map (fun s => (inject_Z s / inject_Z (2 ^ 32))%Q) (lcg_states n seed) /\
  Forall (fun s => 0 <= scaled s < 2 ^ 53) (seed :: lcg_states n seed) /\
  Forall (fun v => (0 <= v < 1)%Q) (draws n (seededRandom seed)) /\
  (forall seed', seed' = seed ->
     draws n (seededRandom seed') = draws n (seededRandom seed)).
Proof.
  intros Hseed.
  assert (Hst : states n (seededRandom seed) = lcg_states n seed)
    by (apply (states_lcg n (seededRandom seed)); exact Hseed).
  assert (Hw : Forall word32 (lcg_states n seed))
    by (rewrite <- Hst; apply states_word32; exact Hseed).
  split; [exact Hst|].
  split; [rewrite draws_states, Hst; reflexivity|].
  split.
  { constructor; [apply advance_word32, Hseed|].
    eapply Forall_impl; [|exact Hw].
    intros s Hs. apply advance_word32, Hs. }
  split.
  { rewrite draws_states, Hst. apply Forall_map.
    eapply Forall_impl; [|exact Hw]. intros s Hs. apply unit_interval, Hs. }
  intros seed' ->. reflexivity.
Qed.

(** The theorem at seed 12345, the seed of level 6, for three calls. *)
Lemma seeded_random_lcg_witness :
  word32 12345 /\
  states 3 (seededRandom 12345) = lcg_states 3 12345 /\
  Forall (fun v => (0 <= v < 1)%Q) (draws 3 (seededRandom 12345)).
Proof.
  assert (H : word32 12345) by (unfold word32; simpl; lia).
  pose proof (seeded_random_lcg 12345 3 H) as (H1 & _ & _ & H4 & _).
  exact (conj H (conj H1 H4)).
Defined.

End RandomFacts.

(* ================================================================== *)
(** * The layout generator: how its computations use the state *)
(* ================================================================== *)

Section AppendRules.

Import Random Layout.
Local Open Scope Q_scope.
Local Open Scope gen_scope.

Variable R : Source -> Prop.
Variable P : Block -> Prop.
Hypothesis R_call : forall r, R r -> R (snd (call r)).

Lemma appends_ret {A} (a : A) : appends R P (ret a).
Proof.
  intros r Hr. exists a, r, []. repeat split; auto.
  intros l. unfold ret. now rewrite app_nil_r.
Qed.

Lemma appends_bind {A B} (c : Gen A) (k : A -> Gen B) :
  appends R P c -> (forall a, appends R P (k a)) -> appends R P (bind c k).
Proof.
  intros Hc Hk r Hr.
  destruct (Hc r Hr) as (a & r1 & l1 & Hr1 & Hl1 & E1).
  destruct (Hk a r1 Hr1) as (b & r2 & l2 & Hr2 & Hl2 & E2).
  exists b, r2, (l1 ++ l2). repeat split; auto.
  - apply Forall_app; auto.
  - intros l. unfold bind. rewrite E1, E2. now rewrite app_assoc.
Qed.

Lemma appends_random : appends R P random.
Proof.
  intros r Hr. exists (fst (call r)), (snd (call r)), [].
  repeat split; auto.
  intros l. unfold random. simpl. now rewrite app_nil_r.
Qed.

Lemma appends_seed (seed : Z) : R (seededRandom seed) -> appends R P (seed_random seed).
Proof.
  intros Hs r _. exists tt, (seededRandom seed), []. repeat split; auto.
  intros l. unfold seed_random. simpl. now rewrite app_nil_r.
Qed.

Lemma appends_push (b : Block) : P b -> appends R P (push b).
Proof.
  intros Hb r Hr. exists tt, r, [b]. repeat split; auto.
Qed.

Lemma appends_when (c : bool) (body : Gen unit) :
  (c = true -> appends R P body) -> appends R P (when c body).
Proof.
  destruct c; simpl; intros H; [now apply H | apply appends_ret].
Qed.

Lemma appends_for_from (body : Z -> Gen unit) (n : nat) :
  (forall i, appends R P (body i)) -> forall i, appends R P (for_from i n body).
Proof.
  intros Hb. induction n as [|n IH]; intros i; simpl.
  - apply appends_ret.
  - apply appends_bind; [apply Hb | intros _; apply IH].
Qed.

Lemma appends_for_loop (bound : Z) (body : Z -> Gen unit) :
  (forall i, appends R P (body i)) -> appends R P (for_loop bound body).
Proof. intros Hb. now apply appends_for_from. Qed.

Lemma appends_forEach {A S} (xs : list A) (body : A -> Z -> S -> Gen S) (acc : S) :
  (forall v i a, appends R P (body v i a)) -> appends R P (forEach xs body acc).
Proof.
  intros Hb. unfold forEach. generalize 0%Z. revert acc.
  induction xs as [|v xs IH]; intros acc i; simpl.
  - apply appends_ret.
  - apply appends_bind; [apply Hb | intros a; apply IH].
Qed.

(** The guarded push: a block is appended only when it passes the test. *)
Lemma appends_place (m M bx by_ w h : Q) (c : string) :
  (fits m M bx by_ w h = true -> P (mkBlock bx by_ w h true c)) ->
  appends R P (place m M bx by_ w h c).
Proof.
  intros H. unfold place. apply appends_when. intros Hf.
  apply appends_push. now apply H.
Qed.

End AppendRules.

(** Solves [appends] goals of straight-line generator code. *)
Ltac appends_step :=
  lazymatch goal with
  | |- Layout.appends _ _ (Layout.bind _ _) => apply appends_bind; [| intros ? ]
  | |- Layout.appends _ _ (Layout.for_loop _ _) => apply appends_for_loop; intros ?
  | |- Layout.appends _ _ Layout.random => apply appends_random; assumption
  | |- Layout.appends _ _ (Layout.place _ _ _ _ _ _ _) => apply appends_place; solve [ auto ]
  | |- Layout.appends _ _ (Layout.ret _) => apply appends_ret
  end.

Section PatternRules.

Import Random Layout.
Local Open Scope Q_scope.

Variables Math_cos Math_sin : Q -> Q.
Variable R : Source -> Prop.
Variable P : Block -> Prop.
Variables m M : Q.
Hypothesis R_call : forall r, R r -> R (snd (call r)).
Hypothesis P_fits : forall bx by_ w h c,
  fits m M bx by_ w h = true -> P (mkBlock bx by_ w h true c).

Lemma appends_draw_cluster6 : appends R P (draw_cluster6 m M).
Proof. unfold draw_cluster6. repeat appends_step. Qed.

Lemma appends_draw_cluster : appends R P (draw_cluster m M).
Proof. unfold draw_cluster. repeat appends_step. Qed.

Lemma appends_layout_cluster6 (k : Cluster) :
  appends R P (layout_cluster6 Math_cos Math_sin m M k).
Proof.
  unfold layout_cluster6.
  repeat match goal with |- context [if ?c then _ else _] => destruct c end;
    destruct k; unfold tight6, scattered6, line6, arc6; repeat appends_step.
Qed.

Lemma appends_layout_cluster (k : Cluster) :
  appends R P (layout_cluster Math_cos Math_sin m M k).
Proof.
  unfold layout_cluster.
  repeat match goal with |- context [if ?c then _ else _] => destruct c end;
    destruct k; unfold tight, scattered, line, arc, spiral; repeat appends_step.
Qed.

Lemma appends_cluster_round (c : Z) :
  appends R P (cluster_round Math_cos Math_sin m M c).
Proof.
  unfold cluster_round. apply appends_bind.
  - apply appends_draw_cluster.
  - intros k. apply appends_layout_cluster.
Qed.

End PatternRules.

(* ================================================================== *)
(** * Boundary safety *)
(* ================================================================== *)

Section BoundarySafety.

Import Random Layout.
Local Open Scope Q_scope.

Lemma leb_le (a b : Q) : leb a b = true <-> a <= b.
Proof. unfold leb. apply Qle_bool_iff. Qed.

Lemma geb_le (a b : Q) : geb a b = true <-> b <= a.
Proof. unfold geb. apply Qle_bool_iff. Qed.

(** The test of the procedural branches is the boundary condition. *)
Lemma fits_in_bounds (bx by_ w h : Q) (a : bool) (c : string) :
  fits margin maxPlayableY bx by_ w h = true <-> in_bounds (mkBlock bx by_ w h a c).
Proof.
  unfold fits, in_bounds; simpl.
  rewrite !andb_true_iff, !geb_le, !leb_le. tauto.
Qed.

Lemma in_boundsb_spec (b : Block) : in_boundsb b = true <-> in_bounds b.
Proof. destruct b. apply fits_in_bounds. Qed.

(** What a computation appends can be read off a run on the empty array,
    so a property of the appended blocks can be settled by running it. *)
Lemma appends_checked {A} (R : Source -> Prop) (c : Gen A) :
  appends R (fun _ => True) c ->
  (forall r, R r -> forallb in_boundsb (blocks (snd (c (mkGen r [])))) = true) ->
  appends R in_bounds c.
Proof.
  intros Hc Hrun r Hr.
  destruct (Hc r Hr) as (a & r' & l' & Hr' & _ & E).
  exists a, r', l'. repeat split; auto.
  specialize (Hrun r Hr). rewrite (E []) in Hrun. simpl in Hrun.
  apply Forall_forall. intros b Hb. apply in_boundsb_spec.
  rewrite forallb_forall in Hrun. now apply Hrun.
Qed.

Lemma any_call (r : Source) : any r -> any (snd (call r)).
Proof. intros _. exact I. Qed.

Ltac appends_plain :=
  repeat lazymatch goal with
         | |- appends _ _ (bind _ _) => apply appends_bind; [| intros ? ]
         | |- appends _ _ (for_loop _ _) => apply appends_for_loop; intros ?
         | |- appends _ _ (forEach _ _ _) => apply appends_forEach; intros ? ? ?
         | |- appends _ _ (when _ _) => apply appends_when; intros ?
         | |- appends _ _ (push _) => apply appends_push; exact I
         | |- appends _ _ (ret _) => apply appends_ret
         end.

Lemma appends_level1 : appends any in_bounds level1.
Proof.
  apply appends_checked.
  - unfold level1. appends_plain.
  - intros r _. vm_compute. reflexivity.
Qed.

Lemma appends_level3 : appends any in_bounds level3.
Proof.
  apply appends_checked.
  - unfold level3. appends_plain.
  - intros r _. vm_compute. reflexivity.
Qed.

Lemma appends_level4 : appends any in_bounds level4.
Proof.
  apply appends_checked.
  - unfold level4. appends_plain.
  - intros r _. vm_compute. reflexivity.
Qed.

Lemma appends_level5 : appends any in_bounds level5.
Proof.
  apply appends_checked.
  - unfold level5. appends_plain.
  - intros r _. vm_compute. reflexivity.
Qed.

Variables Math_cos Math_sin : Q -> Q.
Hypothesis cos_bounded : bounded Math_cos.
Hypothesis sin_bounded : bounded Math_sin.

(** Level 2: the ring of radius 120 around (400, 200) stays inside. *)
Lemma appends_level2 : appends any in_bounds (level2 Math_cos Math_sin).
Proof.
  unfold level2. apply appends_for_loop. intros i.
  apply appends_push.
  match goal with |- in_bounds (mkBlock (_ + Math_cos ?a * _ - _) _ _ _ _ _) =>
    pose proof (cos_bounded a) as Hc; pose proof (sin_bounded a) as Hs;
    set (u := Math_cos a) in *; set (v := Math_sin a) in *
  end.
  clearbody u v.
  unfold in_bounds, margin, maxPlayableY, CANVAS_WIDTH; simpl.
  assert (E1 : 800 / 2 == 400) by reflexivity.
  assert (E2 : 70 / 2 == 35) by reflexivity.
  assert (E3 : 25 / 2 == 25 # 2) by reflexivity.
  rewrite E1, E2, E3.
  repeat split; Lqa.lra.
Qed.

Lemma fits_P (bx by_ w h : Q) (c : string) :
  fits 50 420 bx by_ w h = true -> in_bounds (mkBlock bx by_ w h true c).
Proof. apply fits_in_bounds. Qed.

Lemma appends_level6 : appends any in_bounds (level6 Math_cos Math_sin).
Proof.
  unfold level6. apply appends_bind.
  - apply appends_seed. exact I.
  - intros _. apply appends_for_loop. intros c. apply appends_bind.
    + apply appends_draw_cluster6. apply any_call.
    + intros k. apply appends_layout_cluster6; [apply any_call | apply fits_P].
Qed.

Lemma appends_procedural (level : Z) :
  appends any in_bounds (procedural Math_cos Math_sin level).
Proof.
  unfold procedural. apply appends_bind.
  - apply appends_seed. exact I.
  - intros _. apply appends_for_loop. intros c.
    apply appends_cluster_round; [apply any_call | apply fits_P].
Qed.

(** Every branch of the generator appends blocks that lie inside the
    playable rectangle. *)
Lemma appends_generate (level : Z) :
  appends any in_bounds (generate Math_cos Math_sin level).
Proof.
  unfold generate.
  repeat match goal with |- context [if ?c then _ else _] => destruct c end.
  - apply appends_level1.
  - apply appends_level2.
  - apply appends_bind; [apply appends_level3 | intros _; apply appends_ret].
  - apply appends_level4.
  - apply appends_level5.
  - apply appends_level6.
  - apply appends_procedural.
  - apply appends_ret.
Qed.

End BoundarySafety.

(** C2.  Boundary safety: for every level, every block the generator
    returns satisfies [x >= 50], [x + width <= 800 - 50], [y >= 50] and
    [y + height <= 420]; this includes the hand-authored levels 1 to 5,
    which have no filter (level 2 needs that cosine and sine stay between
    -1 and 1). *)
Theorem boundary_safety (Math_cos Math_sin : Q -> Q) (level : Z) (b : Layout.Block) :
  Layout.bounded Math_cos -> Layout.bounded Math_sin ->
  In b (Layout.generateBlocksForLevel Math_cos Math_sin level) ->
  (50 <= Layout.x b /\ Layout.x b + Layout.width b <= 800 - 50 /\
   50 <= Layout.y b /\ Layout.y b + Layout.height b <= 420)%Q.
Proof.
  intros Hc Hs Hb. unfold Layout.generateBlocksForLevel in Hb.
  destruct (appends_generate Math_cos Math_sin Hc Hs level (Random.seededRandom 0) I)
    as (a & r' & l' & _ & Hl & E).
  rewrite (E []) in Hb. simpl in Hb.
  rewrite Forall_forall in Hl. exact (Hl b Hb).
Qed.

(* ================================================================== *)
(** * Determinism of the generator *)
(* ================================================================== *)

Section FirstBlock.

Import Random Layout.
Local Open Scope Q_scope.
Local Open Scope gen_scope.

Lemma appends_any {A} (c : Gen A) (P : Block -> Prop) :
  appends any P c -> appends any (fun _ => True) c.
Proof.
  intros H r Hr. destruct (H r Hr) as (a & r' & l' & _ & _ & E).
  exists a, r', l'. repeat split; auto.
  apply Forall_forall. auto.
Qed.

Lemma first_push_bind_l {A B} (c : Gen A) (k : A -> Gen B) r b :
  first_push c r b -> (forall a, appends any (fun _ => True) (k a)) ->
  first_push (bind c k) r b.
Proof.
  intros (a & r1 & l1 & E1) Hk.
  destruct (Hk a r1 I) as (b' & r2 & l2 & _ & _ & E2).
  exists b', r2, (l1 ++ l2). intros l. unfold bind.
  rewrite E1, E2. now rewrite <- app_assoc.
Qed.

Lemma first_push_bind_r {A B} (c : Gen A) (k : A -> Gen B) r a r1 b :
  silent c r a r1 -> first_push (k a) r1 b -> first_push (bind c k) r b.
Proof.
  intros E1 (b' & r2 & l2 & E2). exists b', r2, l2.
  intros l. unfold bind. now rewrite E1, E2.
Qed.

Lemma first_push_place (m M bx by_ w h : Q) (c : string) r :
  fits m M bx by_ w h = true ->
  first_push (place m M bx by_ w h c) r (mkBlock bx by_ w h true c).
Proof.
  intros Hf. exists tt, r, []. intros l. unfold place. now rewrite Hf.
Qed.

Lemma first_push_for_loop (bound : Z) (body : Z -> Gen unit) r b :
  (0 < bound)%Z -> first_push (body 0%Z) r b ->
  (forall i, appends any (fun _ => True) (body i)) ->
  first_push (for_loop bound body) r b.
Proof.
  intros Hpos H0 Hb. unfold for_loop.
  destruct (Z.to_nat bound) as [|n] eqn:E; [lia|]. simpl.
  apply first_push_bind_l; [exact H0|].
  intros _. apply appends_for_from. exact Hb.
Qed.

Lemma silent_random r : silent random r (fst (call r)) (snd (call r)).
Proof. intros l. reflexivity. Qed.

Lemma silent_seed seed r : silent (seed_random seed) r tt (seededRandom seed).
Proof. intros l. reflexivity. Qed.

Lemma silent_draw_cluster (m M : Q) r :
  silent (draw_cluster m M) r
    (fst (draw_cluster m M (mkGen r [])))
    (random_source (snd (draw_cluster m M (mkGen r [])))).
Proof. intros l. reflexivity. Qed.

(** Inside the square of half side [rad] around the anchor the test
    passes. *)
Lemma room_fits (cx cy rad w h u v : Q) :
  room cx cy rad w h = true -> -1 <= u <= 1 -> -1 <= v <= 1 ->
  fits 50 420 (cx + u * rad) (cy + v * rad) w h = true.
Proof.
  unfold room, fits, margin, maxPlayableY, CANVAS_WIDTH.
  rewrite !andb_true_iff, !geb_le, !leb_le.
  intros ((((H0 & H1) & H2) & H3) & H4) [Hu1 Hu2] [Hv1 Hv2].
  assert (Hur : - rad <= u * rad <= rad) by (split; Lqa.nra).
  assert (Hvr : - rad <= v * rad <= rad) by (split; Lqa.nra).
  repeat split; Lqa.lra.
Qed.

Variables Math_cos Math_sin : Q -> Q.
Hypothesis cos_bounded : bounded Math_cos.
Hypothesis sin_bounded : bounded Math_sin.

Ltac appends_trivial :=
  repeat lazymatch goal with
         | |- appends _ _ (bind _ _) => apply appends_bind; [| intros ? ]
         | |- appends _ _ (for_loop _ _) => apply appends_for_loop; intros ?
         | |- appends _ _ random => apply appends_random; apply any_call
         | |- appends _ _ (place _ _ _ _ _ _ _) => apply appends_place; intros _; exact I
         | |- appends _ _ (ret _) => apply appends_ret
         end.

(** A spiral cluster with room around its anchor places its first block
    whatever the host's cosine and sine return. *)
Lemma spiral_first (k : Cluster) (r : Source) :
  (0 < blockCount k)%Z ->
  room (clusterX k) (clusterY k)
       (10 + (num 0 / num (blockCount k)) * (3 + fst (call r) * 4) * 15)
       (blockWidth k) (blockHeight k) = true ->
  exists b, width b = blockWidth k /\
            first_push (spiral Math_cos Math_sin 50 420 k) r b.
Proof.
  destruct k as [cx cy p bc col w h]; simpl. intros Hbc Hroom.
  eexists. split; [| unfold spiral; eapply first_push_bind_r;
                     [apply silent_random|]; apply first_push_for_loop ].
  2: exact Hbc.
  2: { apply first_push_place. apply room_fits;
       [exact Hroom | apply cos_bounded | apply sin_bounded]. }
  - reflexivity.
  - intros i. appends_trivial.
Qed.

(** The same for an arc cluster. *)
Lemma arc_first (k : Cluster) (r : Source) :
  (0 < blockCount k)%Z ->
  room (clusterX k) (clusterY k) (35 + fst (call r) * 50)
       (blockWidth k) (blockHeight k) = true ->
  exists b, width b = blockWidth k /\
            first_push (arc Math_cos Math_sin 50 420 k) r b.
Proof.
  destruct k as [cx cy p bc col w h]; simpl. intros Hbc Hroom.
  eexists. split; [| unfold arc; eapply first_push_bind_r;
                     [apply silent_random|];
                     eapply first_push_bind_r; [apply silent_random|];
                     eapply first_push_bind_r; [apply silent_random|];
                     apply first_push_for_loop ].
  2: exact Hbc.
  2: { apply first_push_place. apply room_fits;
       [exact Hroom | apply cos_bounded | apply sin_bounded]. }
  - reflexivity.
  - intros i. appends_trivial.
Qed.

Lemma layout_cluster_spiral (m M : Q) (k : Cluster) :
  pattern k = Some "spiral"%string ->
  layout_cluster Math_cos Math_sin m M k = spiral Math_cos Math_sin m M k.
Proof. unfold layout_cluster. intros ->. reflexivity. Qed.

Lemma layout_cluster_arc (m M : Q) (k : Cluster) :
  pattern k = Some "arc"%string ->
  layout_cluster Math_cos Math_sin m M k = arc Math_cos Math_sin m M k.
Proof. unfold layout_cluster. intros ->. reflexivity. Qed.

(** The first block a procedural level returns is the first block its
    first cluster places. *)
Lemma procedural_first (level : Z) (k : Cluster) (r7 : Source) (b : Block) :
  (100 <= level)%Z -> (0 < numClusters level)%Z ->
  silent (draw_cluster 50 420) (seededRandom level) k r7 ->
  first_push (layout_cluster Math_cos Math_sin 50 420 k) r7 b ->
  exists l, generateBlocksForLevel Math_cos Math_sin level = b :: l.
Proof.
  intros Hlevel Hn Hdraw Hfirst.
  assert (H : first_push (generate Math_cos Math_sin level) (seededRandom 0) b).
  { unfold generate.
    replace (level =? 1)%Z with false by lia.
    replace (level =? 2)%Z with false by lia.
    replace (level =? 3)%Z with false by lia.
    replace (level =? 4)%Z with false by lia.
    replace (level =? 5)%Z with false by lia.
    replace (level =? 6)%Z with false by lia.
    replace (level >=? 100)%Z with true by lia.
    unfold procedural. eapply first_push_bind_r; [apply silent_seed|].
    apply first_push_for_loop; [exact Hn| |].
    - unfold cluster_round. eapply first_push_bind_r; eassumption.
    - intros i. apply appends_any with (P := in_bounds).
      apply appends_cluster_round; [apply any_call | apply fits_P]. }
  destruct H as (a & r' & l' & E).
  exists l'. unfold generateBlocksForLevel. now rewrite (E []).
Qed.

End FirstBlock.

Section Reseeding.

Import Random Layout.
Local Open Scope Q_scope.

Lemma pure_ret {A} (a : A) : pure_appends (ret a).
Proof. exists a, []. intros r l. unfold ret. now rewrite app_nil_r. Qed.

Lemma pure_bind {A B} (c : Gen A) (k : A -> Gen B) :
  pure_appends c -> (forall a, pure_appends (k a)) -> pure_appends (bind c k).
Proof.
  intros (a & l1 & E1) Hk. destruct (Hk a) as (b & l2 & E2).
  exists b, (l1 ++ l2). intros r l. unfold bind.
  rewrite E1, E2. now rewrite app_assoc.
Qed.

Lemma pure_push (b : Block) : pure_appends (push b).
Proof. exists tt, [b]. intros r l. reflexivity. Qed.

Lemma pure_when (c : bool) (body : Gen unit) :
  pure_appends body -> pure_appends (when c body).
Proof. destruct c; simpl; [auto | intros _; apply pure_ret]. Qed.

Lemma pure_for_from (body : Z -> Gen unit) (n : nat) :
  (forall i, pure_appends (body i)) -> forall i, pure_appends (for_from i n body).
Proof.
  intros Hb. induction n as [|n IH]; intros i; simpl.
  - apply pure_ret.
  - apply pure_bind; [apply Hb | intros _; apply IH].
Qed.

Lemma pure_for_loop (bound : Z) (body : Z -> Gen unit) :
  (forall i, pure_appends (body i)) -> pure_appends (for_loop bound body).
Proof. intros Hb. now apply pure_for_from. Qed.

Lemma pure_forEach {A S} (xs : list A) (body : A -> Z -> S -> Gen S) (acc : S) :
  (forall v i a, pure_appends (body v i a)) -> pure_appends (forEach xs body acc).
Proof.
  intros Hb. unfold forEach. generalize 0%Z. revert acc.
  induction xs as [|v xs IH]; intros acc i; simpl.
  - apply pure_ret.
  - apply pure_bind; [apply Hb | intros a; apply IH].
Qed.

Ltac pure_steps :=
  repeat lazymatch goal with
         | |- pure_appends (bind _ _) => apply pure_bind; [| intros ? ]
         | |- pure_appends (for_loop _ _) => apply pure_for_loop; intros ?
         | |- pure_appends (forEach _ _ _) => apply pure_forEach; intros ? ? ?
         | |- pure_appends (when _ _) => apply pure_when
         | |- pure_appends (push _) => apply pure_push
         | |- pure_appends (ret _) => apply pure_ret
         end.

Lemma pure_fixed {A} (c : Gen A) : pure_appends c -> fixed_output c.
Proof.
  intros (a & l' & E). exists l'. intros [r l]. now rewrite E.
Qed.

(** A computation that starts by seeding its source forgets the source it
    was given. *)
Lemma seeded_fixed (seed : Z) (c : Gen unit) :
  appends any (fun _ => True) c -> fixed_output (bind (seed_random seed) (fun _ => c)).
Proof.
  intros Hc. destruct (Hc (seededRandom seed) I) as (a & r' & l' & _ & _ & E).
  exists l'. intros [r l]. unfold bind, seed_random. cbn [blocks].
  now rewrite E.
Qed.

Variables Math_cos Math_sin : Q -> Q.

(** The blocks a level appends do not depend on the source or the array
    the generator starts from: every branch that draws numbers seeds its
    own source first. *)
Lemma generate_fixed (level : Z) : fixed_output (generate Math_cos Math_sin level).
Proof.
  unfold generate.
  repeat match goal with |- context [if ?c then _ else _] => destruct c end.
  - apply pure_fixed. unfold level1. pure_steps.
  - apply pure_fixed. unfold level2. pure_steps.
  - apply pure_fixed. unfold level3. pure_steps.
  - apply pure_fixed. unfold level4. pure_steps.
  - apply pure_fixed. unfold level5. pure_steps.
  - unfold level6. apply seeded_fixed. apply appends_for_loop. intros c.
    apply appends_bind.
    + apply appends_draw_cluster6. apply any_call.
    + intros k. apply appends_layout_cluster6; [apply any_call | auto].
  - unfold procedural. apply seeded_fixed. apply appends_for_loop. intros c.
    apply appends_cluster_round; [apply any_call | auto].
  - apply pure_fixed, pure_ret.
Qed.

Lemma generate_from_any_state (level : Z) (s : GenState) :
  blocks (snd (generate Math_cos Math_sin level s))
  = blocks s ++ generateBlocksForLevel Math_cos Math_sin level.
Proof.
  destruct (generate_fixed level) as (l' & E).
  unfold generateBlocksForLevel. now rewrite (E s), (E (mkGen _ [])).
Qed.

End Reseeding.

Section Determinism.

Import Random Layout.
Local Open Scope Q_scope.

Variables Math_cos Math_sin : Q -> Q.
Hypothesis cos_bounded : bounded Math_cos.
Hypothesis sin_bounded : bounded Math_sin.

Lemma same_block_refl (b : Block) : same_block b b.
Proof. unfold same_block. repeat split; reflexivity. Qed.

Lemma same_blocks_refl (l : list Block) : Forall2 same_block l l.
Proof. induction l; constructor; auto using same_block_refl. Qed.

(** Level 101 opens with a spiral cluster whose first block is kept. *)
Lemma level101_first :
  exists b l,
    width b = blockWidth (fst (draw_cluster 50 420 (mkGen (seededRandom 101) []))) /\
    generateBlocksForLevel Math_cos Math_sin 101 = b :: l.
Proof.
  set (k := fst (draw_cluster 50 420 (mkGen (seededRandom 101) []))).
  set (r7 := random_source (snd (draw_cluster 50 420 (mkGen (seededRandom 101) [])))).
  destruct (spiral_first Math_cos Math_sin cos_bounded sin_bounded k r7)
    as (b & Hw & Hb).
  - vm_compute. reflexivity.
  - vm_compute. reflexivity.
  - exists b.
    destruct (procedural_first Math_cos Math_sin 101 k r7 b) as (l & E).
    + lia.
    + vm_compute. reflexivity.
    + apply silent_draw_cluster.
    + rewrite layout_cluster_spiral; [exact Hb | vm_compute; reflexivity].
    + exists l. split; [exact Hw | exact E].
Qed.

(** Level 102 opens with an arc cluster whose first block is kept. *)
Lemma level102_first :
  exists b l,
    width b = blockWidth (fst (draw_cluster 50 420 (mkGen (seededRandom 102) []))) /\
    generateBlocksForLevel Math_cos Math_sin 102 = b :: l.
Proof.
  set (k := fst (draw_cluster 50 420 (mkGen (seededRandom 102) []))).
  set (r7 := random_source (snd (draw_cluster 50 420 (mkGen (seededRandom 102) [])))).
  destruct (arc_first Math_cos Math_sin cos_bounded sin_bounded k r7)
    as (b & Hw & Hb).
  - vm_compute. reflexivity.
  - vm_compute. reflexivity.
  - exists b.
    destruct (procedural_first Math_cos Math_sin 102 k r7 b) as (l & E).
    + lia.
    + vm_compute. reflexivity.
    + apply silent_draw_cluster.
    + rewrite layout_cluster_arc; [exact Hb | vm_compute; reflexivity].
    + exists l. split; [exact Hw | exact E].
Qed.

Lemma level101_level102_differ :
  ~ Forall2 same_block (generateBlocksForLevel Math_cos Math_sin 101)
                       (generateBlocksForLevel Math_cos Math_sin 102).
Proof.
  destruct level101_first as (b1 & l1 & W1 & E1).
  destruct level102_first as (b2 & l2 & W2 & E2).
  rewrite E1, E2. intros H. inversion H as [|? ? ? ? Hb _]; subst.
  destruct Hb as (_ & _ & Hw & _). rewrite W1, W2 in Hw.
  vm_compute in Hw. discriminate Hw.
Qed.

End Determinism.

(** C1.  The generator is deterministic: two calls with the same level
    return the same list of blocks (same length, same order, the same
    fields on every block), and what the body appends for a level is the
    same from whatever array and source it starts; two generations of
    level 101 are identical, and the generation of level 102 differs from
    that of level 101 (cosine and sine taking values between -1 and 1). *)
Theorem generator_deterministic (Math_cos Math_sin : Q -> Q) :
  Layout.bounded Math_cos -> Layout.bounded Math_sin ->
  (forall level first second,
     first = Layout.generateBlocksForLevel Math_cos Math_sin level ->
     second = Layout.generateBlocksForLevel Math_cos Math_sin level ->
     first = second /\ List.length first = List.length second /\
     Forall2 Layout.same_block first second) /\
  (forall level s,
     Layout.blocks (snd (Layout.generate Math_cos Math_sin level s))
     = Layout.blocks s ++ Layout.generateBlocksForLevel Math_cos Math_sin level) /\
  Layout.generateBlocksForLevel Math_cos Math_sin 101 =
    Layout.generateBlocksForLevel Math_cos Math_sin 101 /\
  Layout.generateBlocksForLevel Math_cos Math_sin 102 <>
    Layout.generateBlocksForLevel Math_cos Math_sin 101 /\
  ~ Forall2 Layout.same_block
      (Layout.generateBlocksForLevel Math_cos Math_sin 101)
      (Layout.generateBlocksForLevel Math_cos Math_sin 102).
Proof.
  intros Hc Hs.
  pose proof (level101_level102_differ Math_cos Math_sin Hc Hs) as Hd.
  split; [|split; [|split; [|split]]].
  - intros level first second -> ->.
    repeat split; [apply same_blocks_refl].
  - intros level s. apply generate_from_any_state.
  - reflexivity.
  - intros E. apply Hd. rewrite E. apply same_blocks_refl.
  - exact Hd.
Qed.

Lemma constant_bounded (c : Q) : (-1 <= c <= 1)%Q -> Layout.bounded (fun _ => c).
Proof. intros H a. exact H. Qed.

(** [boundary_safety] at level 2, for a host whose cosine is constantly 1
    and whose sine is constantly 0: the first block of the ring. *)
Lemma boundary_safety_witness :
  let b := Layout.mkBlock (1940 # 4) (375 # 2) 70 25 true "#7c3aed" in
  In b (Layout.generateBlocksForLevel (fun _ => 1%Q) (fun _ => 0%Q) 2) /\
  (50 <= Layout.x b /\ Layout.x b + Layout.width b <= 800 - 50 /\
   50 <= Layout.y b /\ Layout.y b + Layout.height b <= 420)%Q.
Proof.
  intros b.
  assert (H1 : Layout.bounded (fun _ : Q => 1%Q))
    by (apply constant_bounded; split; discriminate).
  assert (H0 : Layout.bounded (fun _ : Q => 0%Q))
    by (apply constant_bounded; split; discriminate).
  assert (Hin : In b (Layout.generateBlocksForLevel (fun _ => 1%Q) (fun _ => 0%Q) 2))
    by (vm_compute; left; reflexivity).
  split; [exact Hin|].
  exact (boundary_safety (fun _ => 1%Q) (fun _ => 0%Q) 2 b H1 H0 Hin).
Defined.

(** [generator_deterministic] for the same host. *)
Lemma generator_deterministic_witness :
  Layout.bounded (fun _ => 1%Q) /\ Layout.bounded (fun _ => 0%Q) /\
  Layout.generateBlocksForLevel (fun _ => 1%Q) (fun _ => 0%Q) 102 <>
  Layout.generateBlocksForLevel (fun _ => 1%Q) (fun _ => 0%Q) 101.
Proof.
  assert (H1 : Layout.bounded (fun _ : Q => 1%Q))
    by (apply constant_bounded; split; discriminate).
  assert (H0 : Layout.bounded (fun _ : Q => 0%Q))
    by (apply constant_bounded; split; discriminate).
  split; [exact H1|]. split; [exact H0|].
  exact (proj1 (proj2 (proj2 (proj2
           (generator_deterministic (fun _ => 1%Q) (fun _ => 0%Q) H1 H0))))).
Defined.

(* ================================================================== *)
(** * Procedural levels: seed, patterns, cluster and block counts *)
(* ================================================================== *)

Section Procedural.

Import Random Layout.
Local Open Scope Z_scope.

Lemma nonneg_call (r : Source) : nonneg r -> nonneg (snd (call r)).
Proof.
  unfold nonneg. intros H. rewrite call_state.
  apply advance_nonneg in H. unfold word32 in H. lia.
Qed.

(** A draw from a source whose state is not negative, scaled by [n] and
    floored, is an index below [n]. *)
Lemma floor_draw (r : Source) (n : Z) :
  nonneg r -> 0 < n ->
  0 <= Math_floor (fst (call r) * inject_Z n) < n.
Proof.
  intros Hr Hn. rewrite call_value.
  pose proof (unit_interval _ (advance_nonneg _ Hr)) as [Hlo Hhi].
  set (q := (inject_Z (advance (state r)) / inject_Z 4294967296)%Q) in *.
  clearbody q.
  assert (HN : (0 < inject_Z n)%Q)
    by (change 0%Q with (inject_Z 0); rewrite <- Zlt_Qlt; lia).
  unfold Math_floor. split.
  - change 0 with (Qfloor (inject_Z 0)). apply Qfloor_resp_le.
    change (inject_Z 0) with 0%Q. apply Qmult_le_0_compat; [exact Hlo|].
    apply Qlt_le_weak, HN.
  - rewrite Zlt_Qlt. eapply Qle_lt_trans; [apply Qfloor_le|].
    set (N := inject_Z n) in *. clearbody N. Lqa.nra.
Qed.

Lemma index_defined {A} (a : list A) (i : Z) :
  0 <= i < Z.of_nat (List.length a) -> exists v, index a i = Some v /\ In v a.
Proof.
  intros Hi. unfold index.
  destruct (i <? 0) eqn:E; [lia|].
  destruct (nth_error a (Z.to_nat i)) as [v|] eqn:En.
  - exists v. split; [reflexivity | eapply nth_error_In; eauto].
  - apply nth_error_None in En. lia.
Qed.

Lemma levelDifficulty_mod (level : Z) :
  100 <= level -> levelDifficulty level = (level - 100) mod 12.
Proof. intros H. unfold levelDifficulty. apply Z.rem_mod_nonneg; lia. Qed.

Lemma numClusters_div (level : Z) :
  numClusters level = 6 + levelDifficulty level / 2.
Proof.
  unfold numClusters, Math_floor, num, Qfloor, Qdiv, Qmult, Qinv, inject_Z; simpl.
  now rewrite Z.mul_1_r.
Qed.

Variables Math_cos Math_sin : Q -> Q.

(** Every round of the cluster loop starts from a source whose state is
    not negative. *)
Lemma before_round_nonneg (level : Z) (c : nat) :
  100 <= level -> nonneg (random_source (before_round Math_cos Math_sin level c)).
Proof.
  intros Hlevel. unfold before_round.
  assert (H : appends nonneg (fun _ => True)
                (bind (seed_random level)
                      (fun _ => for_from 0 c (cluster_round Math_cos Math_sin 50 420)))).
  { apply appends_bind.
    - apply appends_seed. unfold nonneg. simpl. lia.
    - intros _. apply appends_for_from. intros i.
      apply appends_cluster_round; [apply nonneg_call | auto]. }
  destruct (H (seededRandom 0)) as (a & r' & l' & Hr' & _ & E).
  - unfold nonneg. simpl. lia.
  - rewrite (E []). exact Hr'.
Qed.

(** The cluster loop of a level is its first [c] rounds followed by the
    others, so [before_round] is the state in which round [c] starts. *)
Lemma for_from_split (body : Z -> Gen unit) (c n : nat) : forall i s,
  for_from i (c + n) body s =
  for_from (i + Z.of_nat c) n body (snd (for_from i c body s)).
Proof.
  induction c as [|c IH]; intros i s.
  - simpl. now rewrite Z.add_0_r.
  - change (S c + n)%nat with (S (c + n)). cbn [for_from]. unfold bind.
    destruct (body i s) as [[] s1]. rewrite IH.
    replace (i + Z.of_nat (S c)) with (i + 1 + Z.of_nat c) by lia. reflexivity.
Qed.

(** What a cluster of a level of 100 or more draws: its pattern is one of
    the five tags, and its block count is [4 + floor(6 * r)] for the fourth
    number [r] of the round, between 4 and 9. *)
Lemma draw_cluster_facts (m M : Q) (s : GenState) :
  nonneg (random_source s) ->
  let k := fst (draw_cluster m M s) in
  (exists p, pattern k = Some p /\ In p patterns100) /\
  blockCount k = 4 + Math_floor (nth 3 (draws 7 (random_source s)) 0%Q * 6) /\
  4 <= blockCount k <= 9 /\
  In (cluster_color k) colors5.
Proof.
  destruct s as [r l]. intros Hr. cbv zeta. cbn [random_source] in *.
  set (k := fst (draw_cluster m M (mkGen r l))).
  pose proof (nonneg_call _ Hr) as H1.
  pose proof (nonneg_call _ H1) as H2.
  pose proof (nonneg_call _ H2) as H3.
  pose proof (nonneg_call _ H3) as H4.
  split; [|split; [|split]].
  - apply (index_defined patterns100).
    exact (floor_draw (snd (call (snd (call r)))) 5 H2 eq_refl).
  - reflexivity.
  - pose proof (floor_draw (snd (call (snd (call (snd (call r)))))) 6 H3 eq_refl) as H.
    change (blockCount k)
      with (4 + Math_floor (fst (call (snd (call (snd (call (snd (call r)))))))
                            * inject_Z 6)).
    lia.
  - destruct (index_defined colors5
                (Math_floor (fst (call (snd (call (snd (call (snd (call (snd
                   (call r))))))))) * inject_Z 5))) as (v & Ev & Hv).
    { exact (floor_draw _ 5 H4 eq_refl). }
    change (cluster_color k)
      with (color_at colors5
              (Math_floor (fst (call (snd (call (snd (call (snd (call (snd
                 (call r))))))))) * inject_Z 5))).
    unfold color_at. now rewrite Ev.
Qed.

End Procedural.

(** The run of the procedural branch, cut before round [c]: the rounds
    from [c] on, started in [before_round level c]. *)
Lemma procedural_from_round (Math_cos Math_sin : Q -> Q) (level : Z) (c : nat) :
  (c <= Z.to_nat (Layout.numClusters level))%nat ->
  Layout.procedural Math_cos Math_sin level (Layout.mkGen (Random.seededRandom 0) [])
  = Layout.for_from (Z.of_nat c) (Z.to_nat (Layout.numClusters level) - c)
      (Layout.cluster_round Math_cos Math_sin 50 420)
      (Layout.before_round Math_cos Math_sin level c).
Proof.
  intros Hc. unfold Layout.procedural, Layout.before_round, Layout.for_loop.
  unfold Layout.bind, Layout.seed_random. cbv beta iota zeta.
  cbn [Layout.blocks snd].
  replace (Z.to_nat (Layout.numClusters level))
    with (c + (Z.to_nat (Layout.numClusters level) - c))%nat at 1 by lia.
  rewrite for_from_split. reflexivity.
Qed.

(** A round of the cluster loop draws its cluster and lays it out. *)
Lemma cluster_round_at (Math_cos Math_sin : Q -> Q) (level : Z) (c : nat) :
  Layout.cluster_round Math_cos Math_sin 50 420 (Z.of_nat c)
    (Layout.before_round Math_cos Math_sin level c)
  = Layout.layout_cluster Math_cos Math_sin 50 420
      (Layout.cluster_at Math_cos Math_sin level c)
      (snd (Layout.draw_cluster 50 420 (Layout.before_round Math_cos Math_sin level c))).
Proof.
  unfold Layout.cluster_round, Layout.cluster_at, Layout.bind.
  destruct (Layout.draw_cluster 50 420 (Layout.before_round Math_cos Math_sin level c)).
  reflexivity.
Qed.

(** C8, as the code has it.  For every level of 100 or more: the generator
    runs the procedural branch, which seeds its source with the level
    itself and then runs [numClusters] rounds of the cluster loop, so the
    blocks of the level are those the rounds append; the number of
    clusters is [6 + floor(((level - 100) mod 12) / 2)], between 6 and 11,
    and repeats every 12 levels; round [c] of the run starts in the state
    [before_round level c] (the source seeded with the level before round
    0), draws the cluster [cluster_at level c] and lays it out; every
    cluster draws its pattern from tight, scattered, line, arc and spiral;
    the number of blocks of a cluster is [4 + floor(6 * r)] for the fourth
    number [r] the round draws, between 4 and 9 at every difficulty. *)
Theorem procedural_levels (Math_cos Math_sin : Q -> Q) (level : Z) :
  (100 <= level)%Z ->
  Layout.generate Math_cos Math_sin level = Layout.procedural Math_cos Math_sin level /\
  Layout.random_source (Layout.before_round Math_cos Math_sin level 0)
    = Random.seededRandom level /\
  Layout.levelDifficulty level = ((level - 100) mod 12)%Z /\
  Layout.numClusters level = (6 + ((level - 100) mod 12) / 2)%Z /\
  (6 <= Layout.numClusters level <= 11)%Z /\
  Layout.numClusters (level + 12) = Layout.numClusters level /\
  (forall c : nat, (Z.of_nat c < Layout.numClusters level)%Z ->
    let k := Layout.cluster_at Math_cos Math_sin level c in
    let r := Layout.random_source (Layout.before_round Math_cos Math_sin level c) in
    (exists p, Layout.pattern k = Some p /\
               In p ["tight"; "scattered"; "line"; "arc"; "spiral"]%string) /\
    Layout.blockCount k
      = (4 + Layout.Math_floor (nth 3 (Random.draws 7 r) 0%Q * 6))%Z /\
    (4 <= Layout.blockCount k <= 9)%Z) /\
  Layout.procedural Math_cos Math_sin level
    = Layout.bind (Layout.seed_random level)
        (fun _ => Layout.for_loop (Layout.numClusters level)
                    (Layout.cluster_round Math_cos Math_sin 50 420)) /\
  Layout.before_round Math_cos Math_sin level 0
    = Layout.mkGen (Random.seededRandom level) [] /\
  Layout.generateBlocksForLevel Math_cos Math_sin level
    = Layout.blocks
        (snd (Layout.for_loop (Layout.numClusters level)
                (Layout.cluster_round Math_cos Math_sin 50 420)
                (Layout.mkGen (Random.seededRandom level) []))) /\
  (forall c : nat, (Z.of_nat c < Layout.numClusters level)%Z ->
    Layout.generate Math_cos Math_sin level (Layout.mkGen (Random.seededRandom 0) [])
    = Layout.for_from (Z.of_nat c) (Z.to_nat (Layout.numClusters level) - c)
        (Layout.cluster_round Math_cos Math_sin 50 420)
        (Layout.before_round Math_cos Math_sin level c) /\
    Layout.cluster_round Math_cos Math_sin 50 420 (Z.of_nat c)
      (Layout.before_round Math_cos Math_sin level c)
    = Layout.layout_cluster Math_cos Math_sin 50 420
        (Layout.cluster_at Math_cos Math_sin level c)
        (snd (Layout.draw_cluster 50 420
                (Layout.before_round Math_cos Math_sin level c)))).
Proof.
  intros Hlevel.
  pose proof (levelDifficulty_mod level Hlevel) as Hd.
  pose proof (Z.mod_pos_bound (level - 100) 12 eq_refl) as Hr.
  assert (Hg : Layout.generate Math_cos Math_sin level
               = Layout.procedural Math_cos Math_sin level).
  { unfold Layout.generate.
    replace (level =? 1)%Z with false by lia.
    replace (level =? 2)%Z with false by lia.
    replace (level =? 3)%Z with false by lia.
    replace (level =? 4)%Z with false by lia.
    replace (level =? 5)%Z with false by lia.
    replace (level =? 6)%Z with false by lia.
    replace (level >=? 100)%Z with true by lia. reflexivity. }
  split; [exact Hg|].
  split; [reflexivity|].
  split; [exact Hd|].
  split; [rewrite numClusters_div, Hd; reflexivity|].
  split.
  { rewrite numClusters_div, Hd.
    pose proof (Z.div_pos ((level - 100) mod 12) 2).
    assert (((level - 100) mod 12) / 2 < 6)%Z
      by (apply Z.div_lt_upper_bound; lia).
    lia. }
  split.
  { rewrite !numClusters_div, Hd, (levelDifficulty_mod (level + 12)) by lia.
    replace (level + 12 - 100)%Z with (level - 100 + 1 * 12)%Z by lia.
    now rewrite Z.mod_add by lia. }
  split.
  { intros c _ k r.
    destruct (draw_cluster_facts 50 420 (Layout.before_round Math_cos Math_sin level c))
      as (H1 & H2 & H3 & _).
    - apply before_round_nonneg. exact Hlevel.
    - exact (conj H1 (conj H2 H3)). }
  split; [reflexivity|].
  split; [reflexivity|].
  split.
  { unfold Layout.generateBlocksForLevel. rewrite Hg. reflexivity. }
  intros c Hc. split.
  - rewrite Hg. apply procedural_from_round. lia.
  - apply cluster_round_at.
Qed.

(** [procedural_levels] at level 101: six clusters, and the blocks of the
    level are those of the six rounds run on the source seeded with
    101. *)
Lemma procedural_levels_witness :
  (100 <= 101)%Z /\
  Layout.numClusters 101 = (6 + ((101 - 100) mod 12) / 2)%Z /\
  (6 <= Layout.numClusters 101 <= 11)%Z /\
  Layout.generateBlocksForLevel (fun _ => 1%Q) (fun _ => 0%Q) 101
    = Layout.blocks
        (snd (Layout.for_loop (Layout.numClusters 101)
                (Layout.cluster_round (fun _ => 1%Q) (fun _ => 0%Q) 50 420)
                (Layout.mkGen (Random.seededRandom 101) []))).
Proof.
  assert (H : (100 <= 101)%Z) by lia.
  pose proof (procedural_levels (fun _ => 1%Q) (fun _ => 0%Q) 101 H)
    as (_ & _ & _ & H4 & H5 & _ & _ & _ & _ & H10 & _).
  exact (conj H (conj H4 (conj H5 H10))).
Defined.

(** C8, the part the code does not have: the block count of a cluster does
    not follow the difficulty.  Levels 100 and 112 both have difficulty 0,
    and their first clusters have 6 and 8 blocks; level 123 has difficulty
    11 and its first cluster has 5 blocks. *)
Lemma block_count_not_scaled :
  (Layout.levelDifficulty 100 = 0 /\ Layout.levelDifficulty 112 = 0 /\
   Layout.levelDifficulty 123 = 11)%Z /\
  (Layout.blockCount (Layout.cluster_at (fun _ => 1%Q) (fun _ => 0%Q) 100 0) = 6 /\
   Layout.blockCount (Layout.cluster_at (fun _ => 1%Q) (fun _ => 0%Q) 112 0) = 8 /\
   Layout.blockCount (Layout.cluster_at (fun _ => 1%Q) (fun _ => 0%Q) 123 0) = 5)%Z /\
  ~ Layout.block_count_follows_difficulty (fun _ => 1%Q) (fun _ => 0%Q).
Proof.
  split; [repeat split; reflexivity|].
  split; [repeat split; vm_compute; reflexivity|].
  intros H. specialize (H 112%Z 100%Z 0%nat).
  assert (E : (8 <= 6)%Z) by (apply H; vm_compute; discriminate).
  lia.
Qed.

(* ================================================================== *)
(** * The frame: paddle, score and speed *)
(* ================================================================== *)

Section FrameFacts.

Import Physics.
Local Open Scope R_scope.

Lemma leb_true (a b : R) : leb a b = true <-> a <= b.
Proof. unfold leb. destruct (Rle_dec a b); split; auto; discriminate. Qed.

Lemma gtb_true (a b : R) : gtb a b = true <-> b < a.
Proof. unfold gtb. destruct (Rlt_dec b a); split; auto; discriminate. Qed.

Lemma update_paddle_pointer (ks : list string) (mx : R) (p : Paddle) :
  update_paddle ks mx p =
  mkPaddle (clamp (mx - paddle_width p / 2) 0 (CANVAS_WIDTH - paddle_width p))
           (paddle_y p) (paddle_width p) (paddle_height p).
Proof.
  unfold update_paddle, clamp.
  destruct (has ks "ArrowLeft"), (has ks "ArrowRight"); reflexivity.
Qed.

Lemma check_victory_paddle (s : Session) : paddle (check_victory s) = paddle s.
Proof. unfold check_victory. destruct (all_dead (blocks s)); reflexivity. Qed.

Lemma launched_step_paddle (s : Session) (p : Paddle) (b : Ball) :
  paddle (launched_step s p b) = p.
Proof.
  unfold launched_step, lose_life.
  destruct (block_collisions _ _ _) as [[ks b2] sc].
  destruct (out_of_bounds b2); [|reflexivity].
  destruct (lives s - 1 <=? 0)%Z; reflexivity.
Qed.

(** A frame run while playing leaves the paddle where the paddle update
    put it. *)
Lemma gameLoop_paddle (s : Session) :
  gameState s = playing ->
  paddle (gameLoop s) = update_paddle (keys s) (mouseX s) (paddle s).
Proof.
  intros Hp. unfold gameLoop. rewrite Hp, check_victory_paddle.
  destruct (ball s) as [b|]; [|reflexivity].
  destruct (ballLaunched s); [apply launched_step_paddle | reflexivity].
Qed.

End FrameFacts.

(** C9.  Pointer input wins over key-hold input: after a frame run in the
    playing state the paddle's [x] is
    [clamp(mouseX - paddleWidth / 2, 0, canvasWidth - paddleWidth)], and two
    frames that differ only in the keys held end with the same paddle. *)
Theorem pointer_wins (s : Physics.Session) (held : list string) :
  Physics.gameState s = Physics.playing ->
  Physics.paddle_x (Physics.paddle (Physics.gameLoop s)) =
    Physics.clamp (Physics.mouseX s - Physics.paddle_width (Physics.paddle s) / 2)
                  0 (Physics.CANVAS_WIDTH - Physics.paddle_width (Physics.paddle s)) /\
  Physics.paddle (Physics.gameLoop (Physics.set_keys s held)) =
    Physics.paddle (Physics.gameLoop s).
Proof.
  intros Hp. split.
  - rewrite gameLoop_paddle by exact Hp. now rewrite update_paddle_pointer.
  - rewrite !gameLoop_paddle by exact Hp. simpl.
    now rewrite !update_paddle_pointer.
Qed.

(** [pointer_wins] for a session holding "ArrowLeft" with the pointer at
    100, against the same frame with "ArrowRight" held. *)
Lemma pointer_wins_witness :
  let s := Physics.mkSession Physics.playing 0 3 []
             (Some (Physics.mkBall 400 550 0 0 8))
             (Physics.mkPaddle 340 560 120 15) false ["ArrowLeft"%string] 100 in
  Physics.gameState s = Physics.playing /\
  Physics.paddle (Physics.gameLoop (Physics.set_keys s ["ArrowRight"%string])) =
    Physics.paddle (Physics.gameLoop s).
Proof.
  intros s. split; [reflexivity|].
  exact (proj2 (pointer_wins s ["ArrowRight"%string] eq_refl)).
Defined.

Section ScoreFacts.

Import Physics.
Local Open Scope R_scope.

Lemma hits_flip_dy (b : Ball) (k : Block) : hits (flip_dy b) k = hits b k.
Proof. reflexivity. Qed.

Lemma hits_flips (n : nat) (b : Ball) (k : Block) : hits (flips n b) k = hits b k.
Proof. induction n as [|n IH]; [reflexivity|]. simpl. now rewrite hits_flip_dy. Qed.

Lemma hit_count_flip_dy (b : Ball) (ks : list Block) :
  hit_count (flip_dy b) ks = hit_count b ks.
Proof. reflexivity. Qed.

Lemma hit_count_cons (b : Ball) (k : Block) (ks : list Block) :
  hit_count b (k :: ks) =
  ((if alive k && hits b k then 1 else 0) + hit_count b ks)%Z.
Proof.
  unfold hit_count. cbn [filter]. destruct (alive k && hits b k).
  - cbn [List.length]. rewrite Nat2Z.inj_succ. lia.
  - lia.
Qed.

(** The block loop: every live block the ball overlaps is marked dead, no
    other block changes, [dy] is inverted once per hit and the score grows
    by ten per hit. *)
Lemma block_collisions_spec (ks : list Block) : forall (b : Ball) (sc : Z),
  block_collisions ks b sc =
  (map (struck b) ks,
   flips (Z.to_nat (hit_count b ks)) b,
   (sc + 10 * hit_count b ks)%Z).
Proof.
  induction ks as [|k ks IH]; intros b sc.
  - simpl. unfold hit_count. simpl. now rewrite Z.add_0_r.
  - cbn [block_collisions map]. rewrite hit_count_cons. unfold struck at 1.
    destruct (alive k) eqn:Ea; cbn [negb andb].
    + destruct (hits b k) eqn:Eh.
      * rewrite IH. rewrite hit_count_flip_dy.
        replace (map (struck (flip_dy b)) ks) with (map (struck b) ks) by reflexivity.
        f_equal; [f_equal|lia].
        assert (Hn : (0 <= hit_count b ks)%Z) by (unfold hit_count; lia).
        replace (Z.to_nat (1 + hit_count b ks)) with (S (Z.to_nat (hit_count b ks))) by lia.
        unfold flips. rewrite Nat.iter_succ_r. reflexivity.
      * rewrite IH. rewrite Z.add_0_l. reflexivity.
    + rewrite IH. rewrite Z.add_0_l. reflexivity.
Qed.

Lemma check_victory_score (s : Session) : score (check_victory s) = score s.
Proof. unfold check_victory. destruct (all_dead (blocks s)); reflexivity. Qed.

Lemma check_victory_blocks (s : Session) : blocks (check_victory s) = blocks s.
Proof. unfold check_victory. destruct (all_dead (blocks s)); reflexivity. Qed.

Lemma launched_step_score_blocks (s : Session) (p : Paddle) (b : Ball) :
  let b1 := paddle_collision p (wall_collisions (move b)) in
  score (launched_step s p b) = (score s + 10 * hit_count b1 (blocks s))%Z /\
  blocks (launched_step s p b) = map (struck b1) (blocks s).
Proof.
  intros b1. unfold launched_step, lose_life. fold b1.
  rewrite block_collisions_spec.
  destruct (out_of_bounds _); [|split; reflexivity].
  destruct (lives s - 1 <=? 0)%Z; split; reflexivity.
Qed.

(** What the block loop leaves of a block: place, size and colour as they
    were, and [alive] only if the block was alive and the ball does not
    overlap it. *)
Lemma struck_fields (b : Ball) (k : Block) :
  x (struck b k) = x k /\ y (struck b k) = y k /\
  width (struck b k) = width k /\ height (struck b k) = height k /\
  color (struck b k) = color k /\
  alive (struck b k) = alive k && negb (hits b k).
Proof.
  unfold struck. destruct (alive k) eqn:Ea; cbn [andb].
  - destruct (hits b k); cbn [negb kill x y width height color alive];
      repeat split; auto.
  - rewrite Ea. repeat split; reflexivity.
Qed.

Lemma struck_marks (b : Ball) (ks : list Block) :
  Forall2 (fun k k' =>
             x k' = x k /\ y k' = y k /\ width k' = width k /\
             height k' = height k /\ color k' = color k /\
             alive k' = alive k && negb (hits b k))
          ks (map (struck b) ks).
Proof.
  induction ks as [|k ks IH]; cbn [map]; constructor; [apply struck_fields | exact IH].
Qed.

(** The blocks that are alive after the loop are those that were alive
    and were not hit: their number falls by the number of hits. *)
Lemma live_after_struck (b : Ball) (ks : list Block) :
  Z.of_nat (List.length (filter alive (map (struck b) ks)))
  = (Z.of_nat (List.length (filter alive ks)) - hit_count b ks)%Z.
Proof.
  induction ks as [|k ks IH]; [reflexivity|].
  rewrite hit_count_cons. cbn [map filter].
  destruct (struck_fields b k) as (_ & _ & _ & _ & _ & ->).
  destruct (alive k); cbn [andb negb].
  - destruct (hits b k); cbn [negb List.length]; rewrite ?Nat2Z.inj_succ; lia.
  - lia.
Qed.

End ScoreFacts.

(** Score and blocks after a frame run while playing. *)
Lemma ten_points_frame (s : Physics.Session) :
  Physics.gameState s = Physics.playing ->
  (forall b, Physics.ball s = Some b -> Physics.ballLaunched s = true ->
     Physics.score (Physics.gameLoop s) =
       (Physics.score s
        + 10 * Physics.hit_count (Physics.ball_at_blocks s b) (Physics.blocks s))%Z /\
     Physics.blocks (Physics.gameLoop s) =
       map (Physics.struck (Physics.ball_at_blocks s b)) (Physics.blocks s)) /\
  (Physics.ball s = None \/ Physics.ballLaunched s = false ->
     Physics.score (Physics.gameLoop s) = Physics.score s /\
     Physics.blocks (Physics.gameLoop s) = Physics.blocks s).
Proof.
  intros Hp. split.
  - intros b Hb Hl. unfold Physics.gameLoop. rewrite Hp, Hb, Hl.
    rewrite check_victory_score, check_victory_blocks.
    apply launched_step_score_blocks.
  - intros H. unfold Physics.gameLoop. rewrite Hp.
    rewrite check_victory_score, check_victory_blocks.
    destruct (Physics.ball s) as [b|]; [|split; reflexivity].
    destruct H as [H|H]; [discriminate|]. rewrite H. split; reflexivity.
Qed.

(** C10.  Each destructive block collision adds exactly ten points: in a
    frame run while playing with a launched ball, the live blocks that
    overlap the ball's bounding box are all marked dead ([alive] is
    [false] after the frame), no other block changes, no block changes
    place, size or colour, the number of live blocks falls by the number
    [k] of those blocks, and the score grows by [10 * k]; in any other
    frame the score does not change. *)
Theorem ten_points_per_block (s : Physics.Session) :
  Physics.gameState s = Physics.playing ->
  (forall b, Physics.ball s = Some b -> Physics.ballLaunched s = true ->
     let b1 := Physics.ball_at_blocks s b in
     Physics.score (Physics.gameLoop s) =
       (Physics.score s + 10 * Physics.hit_count b1 (Physics.blocks s))%Z /\
     Physics.blocks (Physics.gameLoop s) =
       map (fun k => if Physics.alive k && Physics.hits b1 k
                     then Physics.kill k else k) (Physics.blocks s) /\
     Forall2 (fun k k' =>
                Physics.x k' = Physics.x k /\ Physics.y k' = Physics.y k /\
                Physics.width k' = Physics.width k /\
                Physics.height k' = Physics.height k /\
                Physics.color k' = Physics.color k /\
                Physics.alive k' = Physics.alive k && negb (Physics.hits b1 k))
             (Physics.blocks s) (Physics.blocks (Physics.gameLoop s)) /\
     Z.of_nat (List.length
                 (filter Physics.alive (Physics.blocks (Physics.gameLoop s))))
       = (Z.of_nat (List.length (filter Physics.alive (Physics.blocks s)))
          - Physics.hit_count b1 (Physics.blocks s))%Z) /\
  (Physics.ball s = None \/ Physics.ballLaunched s = false ->
     Physics.score (Physics.gameLoop s) = Physics.score s /\
     Physics.blocks (Physics.gameLoop s) = Physics.blocks s).
Proof.
  intros Hp. destruct (ten_points_frame s Hp) as [H1 H2]. split.
  - intros b Hb Hl b1. destruct (H1 b Hb Hl) as [Es Eb]. fold b1 in Es, Eb.
    split; [exact Es|]. split; [exact Eb|]. rewrite Eb. split.
    + apply struck_marks.
    + apply live_after_struck.
  - exact H2.
Qed.

Lemma leb_false (a b : R) : (b < a)%R -> Physics.leb a b = false.
Proof. intros H. unfold Physics.leb. destruct (Rle_dec a b); [lra | reflexivity]. Qed.

Lemma gtb_false (a b : R) : (a <= b)%R -> Physics.gtb a b = false.
Proof. intros H. unfold Physics.gtb. destruct (Rlt_dec b a); [lra | reflexivity]. Qed.

(** Evaluates the comparisons of a frame on concrete numbers. *)
Ltac eval_frame :=
  repeat (cbn [Physics.ball_x Physics.ball_y Physics.dx Physics.dy Physics.radius
               Physics.paddle_x Physics.paddle_y Physics.paddle_width
               Physics.paddle_height Physics.x Physics.y Physics.width
               Physics.height Physics.alive Physics.paddle Physics.mouseX
               Physics.keys Physics.blocks andb orb negb filter];
          match goal with
          | |- context [Physics.leb ?a ?b] =>
              first [ rewrite (proj2 (leb_true a b)) by lra
                    | rewrite (leb_false a b) by lra ]
          | |- context [Physics.gtb ?a ?b] =>
              first [ rewrite (proj2 (gtb_true a b)) by lra
                    | rewrite (gtb_false a b) by lra ]
          end).

(** The ball of the examples, one frame later: it moves four units up,
    away from walls and paddle. *)
Lemma example_ball (s : Physics.Session) :
  Physics.keys s = [] -> Physics.mouseX s = 400%R ->
  Physics.paddle s = Physics.mkPaddle 340 560 120 15 ->
  Physics.ball_at_blocks s (Physics.mkBall 400 300 0 (-4) 8)
    = Physics.mkBall 400 296 0 (-4) 8.
Proof.
  intros Hk Hm Hpad. unfold Physics.ball_at_blocks. rewrite Hk, Hm, Hpad.
  rewrite update_paddle_pointer.
  unfold Physics.move. cbn [Physics.ball_x Physics.ball_y Physics.dx Physics.dy
                            Physics.radius].
  replace (400 + 0)%R with 400%R by lra.
  replace (300 + -4)%R with 296%R by lra.
  unfold Physics.wall_collisions, Physics.wall_x, Physics.wall_y, Physics.geb,
    Physics.CANVAS_WIDTH.
  eval_frame.
  unfold Physics.paddle_collision, Physics.touches_paddle, Physics.geb.
  eval_frame. reflexivity.
Qed.

(** [ten_points_per_block] on a frame in which the ball overlaps two live
    blocks, lies over a dead one and misses a fourth: the score goes from
    0 to 20, the two blocks are dead after the frame and the fourth is
    still alive. *)
Lemma ten_points_per_block_witness :
  let b := Physics.mkBall 400 300 0 (-4) 8 in
  let s := Physics.mkSession Physics.playing 0 3
             [Physics.mkBlock 390 280 60 25 true "#3b82f6";
              Physics.mkBlock 380 270 60 25 true "#3b82f6";
              Physics.mkBlock 385 275 60 25 false "#3b82f6";
              Physics.mkBlock 50 50 60 25 true "#3b82f6"]
             (Some b) (Physics.mkPaddle 340 560 120 15) true [] 400 in
  Physics.gameState s = Physics.playing /\
  Physics.score (Physics.gameLoop s) =
    (0 + 10 * Physics.hit_count (Physics.ball_at_blocks s b) (Physics.blocks s))%Z /\
  Physics.hit_count (Physics.ball_at_blocks s b) (Physics.blocks s) = 2%Z /\
  Physics.score (Physics.gameLoop s) = 20%Z /\
  map Physics.alive (Physics.blocks (Physics.gameLoop s))
    = [false; false; false; true].
Proof.
  intros b s.
  destruct (ten_points_per_block s eq_refl) as [H _].
  destruct (H b eq_refl eq_refl) as (Hs & _ & Hm & _).
  assert (Eb : Physics.ball_at_blocks s b = Physics.mkBall 400 296 0 (-4) 8)
    by (unfold b; exact (example_ball s eq_refl eq_refl eq_refl)).
  assert (Hn : Physics.hit_count (Physics.ball_at_blocks s b) (Physics.blocks s)
               = 2%Z).
  { rewrite Eb. unfold s, Physics.hit_count, Physics.hits, Physics.geb.
    cbn [Physics.blocks]. eval_frame. reflexivity. }
  split; [reflexivity|]. split; [exact Hs|]. split; [exact Hn|]. split.
  - rewrite Hs, Hn. reflexivity.
  - rewrite Eb in Hm.
    set (after := Physics.blocks (Physics.gameLoop s)) in *.
    unfold s in Hm. cbn [Physics.blocks] in Hm.
    inversion Hm as [|k1 k1' l1 l1' (_ & _ & _ & _ & _ & A1) Hm1]; subst.
    inversion Hm1 as [|k2 k2' l2 l2' (_ & _ & _ & _ & _ & A2) Hm2]; subst.
    inversion Hm2 as [|k3 k3' l3 l3' (_ & _ & _ & _ & _ & A3) Hm3]; subst.
    inversion Hm3 as [|k4 k4' l4 l4' (_ & _ & _ & _ & _ & A4) Hm4]; subst.
    inversion Hm4; subst.
    cbn [map]. rewrite A1, A2, A3, A4.
    unfold Physics.hits, Physics.geb. eval_frame. reflexivity.
Defined.

(* ================================================================== *)
(** * Speed invariance *)
(* ================================================================== *)

Section SpeedFacts.

Import Physics.
Local Open Scope R_scope.

Lemma speed_flip_dx (b : Ball) : speed (flip_dx b) = speed b.
Proof. unfold speed, flip_dx; simpl. f_equal. ring. Qed.

Lemma speed_flip_dy (b : Ball) : speed (flip_dy b) = speed b.
Proof. unfold speed, flip_dy; simpl. f_equal. ring. Qed.

Lemma speed_flips (n : nat) (b : Ball) : speed (flips n b) = speed b.
Proof.
  induction n as [|n IH]; [reflexivity|].
  simpl. now rewrite speed_flip_dy.
Qed.

Lemma speed_wall_collisions (b : Ball) : speed (wall_collisions b) = speed b.
Proof.
  unfold wall_collisions, wall_y, wall_x.
  destruct (leb (ball_x b - radius b) 0 || geb (ball_x b + radius b) CANVAS_WIDTH);
    match goal with |- context [if ?c then _ else _] => destruct c end;
    rewrite ?speed_flip_dy, ?speed_flip_dx; reflexivity.
Qed.

Lemma speed_nonneg (b : Ball) : 0 <= speed b.
Proof. apply sqrt_pos. Qed.

Lemma abs_square (t : R) : Rabs t * Rabs t = t * t.
Proof. rewrite <- Rabs_mult. apply Rabs_pos_eq. nra. Qed.

(** The speed the paddle bounce reads after forcing [dy] upwards is the
    speed before the bounce. *)
Lemma paddle_speed_read (b : Ball) :
  sqrt (dx b * dx b + - Rabs (dy b) * - Rabs (dy b)) = speed b.
Proof.
  unfold speed. f_equal.
  replace (- Rabs (dy b) * - Rabs (dy b)) with (Rabs (dy b) * Rabs (dy b)) by ring.
  now rewrite abs_square.
Qed.

Lemma speed_paddle_bounce (p : Paddle) (b : Ball) :
  speed (paddle_bounce p b) = speed b.
Proof.
  unfold paddle_bounce. rewrite paddle_speed_read.
  set (a := (ball_x b - paddle_x p) / paddle_width p - 5 / 10).
  unfold speed at 1; simpl.
  replace (- Rabs (cos (a * PI / (15 / 10)) * speed b)
           * - Rabs (cos (a * PI / (15 / 10)) * speed b))
    with (Rabs (cos (a * PI / (15 / 10)) * speed b)
          * Rabs (cos (a * PI / (15 / 10)) * speed b)) by ring.
  rewrite abs_square.
  set (t := a * PI / (15 / 10)).
  replace (sin t * speed b * (sin t * speed b) + cos t * speed b * (cos t * speed b))
    with ((Rsqr (sin t) + Rsqr (cos t)) * (speed b * speed b))
    by (unfold Rsqr; ring).
  rewrite sin2_cos2, Rmult_1_l.
  apply sqrt_square, speed_nonneg.
Qed.

Lemma speed_paddle_collision (p : Paddle) (b : Ball) :
  speed (paddle_collision p b) = speed b.
Proof.
  unfold paddle_collision. destruct (touches_paddle p b);
    [apply speed_paddle_bounce | reflexivity].
Qed.

End SpeedFacts.


(* ================================================================== *)
(** * The session: lives, defeat and victory *)
(* ================================================================== *)

Section SessionFacts.

Import Physics.
Local Open Scope R_scope.

(** Walls, paddle and blocks change the velocity only. *)
Lemma wall_collisions_place (b : Ball) :
  ball_y (wall_collisions b) = ball_y b /\ radius (wall_collisions b) = radius b.
Proof.
  unfold wall_collisions, wall_y, wall_x.
  destruct (leb (ball_x b - radius b) 0 || geb (ball_x b + radius b) CANVAS_WIDTH);
    match goal with |- context [if ?c then _ else _] => destruct c end;
    split; reflexivity.
Qed.

Lemma paddle_collision_place (p : Paddle) (b : Ball) :
  ball_y (paddle_collision p b) = ball_y b /\ radius (paddle_collision p b) = radius b.
Proof.
  unfold paddle_collision. destruct (touches_paddle p b); split; reflexivity.
Qed.

Lemma flips_place (n : nat) (b : Ball) :
  ball_y (flips n b) = ball_y b /\ radius (flips n b) = radius b.
Proof.
  induction n as [|n [IH1 IH2]]; [split; reflexivity|].
  simpl. split; assumption.
Qed.

Lemma out_of_bounds_flips (n : nat) (b : Ball) :
  out_of_bounds (flips n b) = out_of_bounds b.
Proof.
  unfold out_of_bounds. destruct (flips_place n b) as [-> ->]. reflexivity.
Qed.

(** Where the ball is when the block loop and the bottom test run. *)
Lemma ball_at_blocks_place (s : Session) (b : Ball) :
  ball_y (ball_at_blocks s b) = ball_y b + dy b /\
  radius (ball_at_blocks s b) = radius b.
Proof.
  unfold ball_at_blocks.
  destruct (paddle_collision_place
              (update_paddle (keys s) (mouseX s) (paddle s))
              (wall_collisions (move b))) as [-> ->].
  destruct (wall_collisions_place (move b)) as [-> ->]. split; reflexivity.
Qed.

(** A ball below the canvas overlaps no block that ends inside it. *)
Lemma below_misses (b : Ball) (k : Block) :
  out_of_bounds b = true -> in_canvas k -> hits b k = false.
Proof.
  unfold out_of_bounds, in_canvas, hits. rewrite gtb_true. intros Hb Hk.
  rewrite (leb_false (ball_y b - radius b) (y k + height k)) by lra.
  now rewrite andb_false_r.
Qed.

Lemma below_hits_nothing (b : Ball) (ks : list Block) :
  out_of_bounds b = true -> Forall in_canvas ks ->
  map (struck b) ks = ks /\ hit_count b ks = 0%Z.
Proof.
  intros Hb Hks. induction Hks as [|k ks Hk _ [IH1 IH2]].
  - split; reflexivity.
  - rewrite hit_count_cons. cbn [map]. unfold struck at 1.
    rewrite (below_misses b k Hb Hk), andb_false_r, IH1, IH2. split; reflexivity.
Qed.

Lemma in_canvas_struck (b : Ball) (ks : list Block) :
  Forall in_canvas ks -> Forall in_canvas (map (struck b) ks).
Proof.
  intros H. apply Forall_map. eapply Forall_impl; [|exact H].
  intros k Hk. unfold struck. destruct (alive k && hits b k); exact Hk.
Qed.

(** The frame of a launched ball that stays above the bottom. *)
Lemma launched_step_inside (s : Session) (b : Ball) :
  let p := update_paddle (keys s) (mouseX s) (paddle s) in
  let b1 := ball_at_blocks s b in
  let n := hit_count b1 (blocks s) in
  out_of_bounds b1 = false ->
  launched_step s p b =
  mkSession (gameState s) (score s + 10 * n) (lives s) (map (struck b1) (blocks s))
            (Some (flips (Z.to_nat n) b1)) p (ballLaunched s) (keys s) (mouseX s).
Proof.
  intros p b1 n Hb. unfold launched_step.
  change (paddle_collision p (wall_collisions (move b))) with b1.
  rewrite block_collisions_spec. fold n. cbv beta iota.
  now rewrite out_of_bounds_flips, Hb.
Qed.

(** The frame of a launched ball that has left through the bottom, the
    blocks ending inside the canvas. *)
Lemma launched_step_below (s : Session) (b : Ball) :
  let p := update_paddle (keys s) (mouseX s) (paddle s) in
  let b1 := ball_at_blocks s b in
  out_of_bounds b1 = true -> Forall in_canvas (blocks s) ->
  launched_step s p b = lose_life s p b1 (blocks s) (score s).
Proof.
  intros p b1 Hb Hks. unfold launched_step.
  change (paddle_collision p (wall_collisions (move b))) with b1.
  rewrite block_collisions_spec.
  destruct (below_hits_nothing b1 (blocks s) Hb Hks) as [-> ->].
  rewrite Z.mul_0_r, Z.add_0_r. cbv beta iota.
  change (flips (Z.to_nat 0) b1) with b1. now rewrite Hb.
Qed.

Lemma Event_eq_Frame (e : Event) : e = Frame \/ e <> Frame.
Proof. destruct e; [left; reflexivity | right; discriminate ..]. Qed.

Lemma Event_eq_TogglePause (e : Event) : e = TogglePause \/ e <> TogglePause.
Proof. destruct e; try (right; discriminate). left; reflexivity. Qed.

Lemma GameState_eq_playing (g : GameState) : g = playing \/ g <> playing.
Proof. destruct g; [left; reflexivity | right; discriminate ..]. Qed.

(** The victory check ends a frame with the state [victory] exactly when
    no block is alive. *)
Lemma check_victory_iff (s : Session) :
  gameState s <> victory -> victory_iff_cleared (check_victory s).
Proof.
  intros Hs. unfold victory_iff_cleared, check_victory.
  destruct (all_dead (blocks s)) eqn:E; simpl.
  - split; auto.
  - rewrite E. split; [intros H; contradiction | discriminate].
Qed.

(** Before the victory check the state of a frame is [playing] or
    [defeat]. *)
Lemma launched_step_state (s : Session) (p : Paddle) (b : Ball) :
  gameState s = playing ->
  gameState (launched_step s p b) = playing \/
  gameState (launched_step s p b) = defeat.
Proof.
  intros Hp. unfold launched_step, lose_life.
  destruct (block_collisions _ _ _) as [[ks b2] sc].
  destruct (out_of_bounds b2); [|left; exact Hp].
  destruct (lives s - 1 <=? 0)%Z; [right; reflexivity | left; exact Hp].
Qed.

Lemma gameLoop_victory_iff (s : Session) :
  gameState s = playing -> victory_iff_cleared (gameLoop s).
Proof.
  intros Hp. unfold gameLoop. rewrite Hp. apply check_victory_iff.
  destruct (ball s) as [b|]; [|simpl; congruence].
  destruct (ballLaunched s); [|simpl; congruence].
  destruct (launched_step_state s (update_paddle (keys s) (mouseX s) (paddle s)) b Hp)
    as [E|E]; rewrite E; discriminate.
Qed.

Lemma gameLoop_idle (s : Session) : gameState s <> playing -> gameLoop s = s.
Proof. unfold gameLoop. destruct (gameState s); congruence. Qed.

(** The handlers of keys and pointer leave state, score, lives and blocks
    alone. *)
Lemma launch_keeps (rnd : R) (s : Session) :
  gameState (launch rnd s) = gameState s /\ score (launch rnd s) = score s /\
  lives (launch rnd s) = lives s /\ blocks (launch rnd s) = blocks s.
Proof.
  unfold launch. destruct (ball s); [destruct (negb (ballLaunched s))|];
    repeat split; reflexivity.
Qed.

Lemma input_keeps (e : Event) (s : Session) :
  e <> Frame -> e <> TogglePause ->
  gameState (step e s) = gameState s /\ score (step e s) = score s /\
  lives (step e s) = lives s /\ blocks (step e s) = blocks s.
Proof.
  intros H1 H2. destruct e; try congruence; simpl.
  - unfold handleKeyDown. destruct (String.eqb key " ").
    + apply (launch_keeps rnd (set_keys s (add (keys s) key))).
    + repeat split; reflexivity.
  - repeat split; reflexivity.
  - repeat split; reflexivity.
  - apply launch_keeps.
Qed.

Lemma togglePause_keeps (s : Session) :
  score (togglePause s) = score s /\ lives (togglePause s) = lives s /\
  blocks (togglePause s) = blocks s /\
  (gameState s = victory <-> gameState (togglePause s) = victory) /\
  (gameState s = defeat <-> gameState (togglePause s) = defeat).
Proof.
  unfold togglePause. destruct (gameState s) eqn:E; cbn [score lives blocks gameState];
    repeat split; try reflexivity; intros H; congruence.
Qed.

(** The equivalence of [victory] and "no block alive" is kept by every
    event of a session. *)
Lemma victory_iff_step (e : Event) (s : Session) :
  victory_iff_cleared s -> victory_iff_cleared (step e s).
Proof.
  intros Hv.
  destruct (Event_eq_Frame e) as [->|HF].
  - simpl. destruct (GameState_eq_playing (gameState s)) as [Hp|Hp].
    + now apply gameLoop_victory_iff.
    + now rewrite gameLoop_idle.
  - destruct (Event_eq_TogglePause e) as [->|HT].
    + simpl. destruct (togglePause_keeps s) as (_ & _ & Hb & Hg & _).
      unfold victory_iff_cleared in *. rewrite Hb, <- Hg. exact Hv.
    + destruct (input_keeps e s HF HT) as (Hg & _ & _ & Hb).
      unfold victory_iff_cleared in *. rewrite Hg, Hb. exact Hv.
Qed.

Lemma playing_has_live_block (s : Session) :
  victory_iff_cleared s -> gameState s = playing -> all_dead (blocks s) = false.
Proof.
  intros Hv Hp. destruct (all_dead (blocks s)) eqn:E; [|reflexivity].
  apply Hv in E. congruence.
Qed.

Lemma playing_has_life (s : Session) :
  lives_sound s -> gameState s = playing -> (1 <= lives s)%Z.
Proof.
  intros [H0 Hd] Hp.
  assert (lives s <> 0%Z) by (intros E; apply Hd in E; congruence). lia.
Qed.

Lemma check_victory_skip (s : Session) :
  all_dead (blocks s) = false -> check_victory s = s.
Proof. intros E. unfold check_victory. now rewrite E. Qed.

(** The frame in which the ball leaves through the bottom, in a session
    with a live block whose blocks end inside the canvas: the life is
    taken, and the ball is put back on the paddle or the session is
    lost. *)
Lemma gameLoop_below (s : Session) (b : Ball) :
  let p := update_paddle (keys s) (mouseX s) (paddle s) in
  let b1 := ball_at_blocks s b in
  gameState s = playing -> ball s = Some b -> ballLaunched s = true ->
  out_of_bounds b1 = true ->
  Forall in_canvas (blocks s) -> all_dead (blocks s) = false ->
  gameLoop s = lose_life s p b1 (blocks s) (score s).
Proof.
  intros p b1 Hp Hb Hl Ho Hc Ha. unfold gameLoop. rewrite Hp, Hb, Hl.
  rewrite (launched_step_below s b Ho Hc). fold p. fold b1.
  apply check_victory_skip. unfold lose_life.
  destruct (lives s - 1 <=? 0)%Z; exact Ha.
Qed.

(** A frame keeps what holds throughout a session. *)
Lemma steady_gameLoop (s : Session) : steady s -> steady (gameLoop s).
Proof.
  intros (Hc & Hv & Hl).
  destruct (GameState_eq_playing (gameState s)) as [Hp|Hp];
    [|rewrite gameLoop_idle by exact Hp; exact (conj Hc (conj Hv Hl))].
  pose proof (playing_has_live_block s Hv Hp) as Ha.
  pose proof (playing_has_life s Hl Hp) as H1.
  split; [|split; [now apply gameLoop_victory_iff|]].
  - (* geometry *)
    unfold gameLoop. rewrite Hp, check_victory_blocks.
    destruct (ball s) as [b|]; [|exact Hc].
    destruct (ballLaunched s); [|exact Hc].
    rewrite (proj2 (launched_step_score_blocks s _ b)).
    now apply in_canvas_struck.
  - (* lives *)
    destruct (ball s) as [b|] eqn:Hb.
    2:{ unfold gameLoop. rewrite Hp, Hb, check_victory_skip by exact Ha.
        unfold lives_sound; cbn [lives gameState]. rewrite ?Hp. split; [lia|].
        split; [discriminate | lia]. }
    destruct (ballLaunched s) eqn:Hla.
    2:{ unfold gameLoop. rewrite Hp, Hb, Hla, check_victory_skip by exact Ha.
        unfold lives_sound, follow_step; cbn [lives gameState]. rewrite ?Hp.
        split; [lia|].
        split; [discriminate | lia]. }
    destruct (out_of_bounds (ball_at_blocks s b)) eqn:Ho.
    + rewrite (gameLoop_below s b Hp Hb Hla Ho Hc Ha). unfold lose_life.
      destruct (lives s - 1 <=? 0)%Z eqn:E; unfold lives_sound; cbn [lives gameState].
      * split; [lia|]. split; [lia | reflexivity].
      * rewrite ?Hp. split; [lia|]. split; [discriminate | lia].
    + unfold gameLoop. rewrite Hp, Hb, Hla.
      rewrite (launched_step_inside s b Ho).
      unfold check_victory, lives_sound.
      match goal with |- context [if ?c then _ else _] => destruct c end;
        cbn [lives gameState].
      * split; [lia|]. split; [discriminate | lia].
      * rewrite ?Hp. split; [lia|]. split; [discriminate | lia].
Qed.

Lemma steady_step (e : Event) (s : Session) : steady s -> steady (step e s).
Proof.
  intros Hs.
  destruct (Event_eq_Frame e) as [->|HF]; [now apply steady_gameLoop|].
  destruct Hs as (Hc & Hv & Hl0 & Hld).
  split; [|split; [now apply victory_iff_step|]].
  - destruct (Event_eq_TogglePause e) as [->|HT].
    + simpl. now rewrite (proj1 (proj2 (proj2 (togglePause_keeps s)))).
    + now rewrite (proj2 (proj2 (proj2 (input_keeps e s HF HT)))).
  - unfold lives_sound. destruct (Event_eq_TogglePause e) as [->|HT].
    + simpl. destruct (togglePause_keeps s) as (_ & E & _ & _ & Hd).
      rewrite E, <- Hd. split; assumption.
    + destruct (input_keeps e s HF HT) as (Eg & _ & E & _).
      rewrite Eg, E. split; assumption.
Qed.

Lemma run_snoc (es : list Event) (e : Event) (s : Session) :
  run (es ++ [e]) s = step e (run es s).
Proof. unfold run. now rewrite fold_left_app. Qed.

Lemma steady_run (es : list Event) (s : Session) : steady s -> steady (run es s).
Proof.
  intros Hs. induction es as [|e es IH] using rev_ind; [exact Hs|].
  rewrite run_snoc. now apply steady_step.
Qed.

Lemma victory_iff_run (es : list Event) (s : Session) :
  victory_iff_cleared s -> victory_iff_cleared (run es s).
Proof.
  intros Hs. induction es as [|e es IH] using rev_ind; [exact Hs|].
  rewrite run_snoc. now apply victory_iff_step.
Qed.

(** A session that starts with a live block and blocks inside the canvas
    is steady from the start. *)
Lemma steady_initial (generated : list Block) :
  Forall in_canvas generated -> all_dead generated = false ->
  steady (initial generated).
Proof.
  intros Hc Ha. split; [exact Hc|]. split.
  - unfold victory_iff_cleared; cbn [initial gameState blocks]. rewrite Ha.
    split; discriminate.
  - unfold lives_sound; cbn [initial gameState lives].
    split; [lia|]. split; [discriminate | lia].
Qed.

End SessionFacts.

Section Terminal.

Import Physics.

(** Once the state is [defeat] no event changes state, score or lives. *)
Lemma defeat_step (e : Event) (s : Session) :
  gameState s = defeat ->
  gameState (step e s) = defeat /\ score (step e s) = score s /\
  lives (step e s) = lives s.
Proof.
  intros Hd.
  destruct (Event_eq_Frame e) as [->|HF].
  - simpl. rewrite gameLoop_idle by congruence. auto.
  - destruct (Event_eq_TogglePause e) as [->|HT].
    + simpl. unfold togglePause. rewrite Hd. auto.
    + destruct (input_keeps e s HF HT) as (Eg & Es & El & _).
      rewrite Eg, Es, El. auto.
Qed.

Lemma defeat_run (es : list Event) (s : Session) :
  gameState s = defeat ->
  gameState (run es s) = defeat /\ score (run es s) = score s /\
  lives (run es s) = lives s.
Proof.
  intros Hd. induction es as [|e es (IH1 & IH2 & IH3)] using rev_ind; [auto|].
  rewrite run_snoc.
  destruct (defeat_step e (run es s) IH1) as (H1 & H2 & H3).
  rewrite H1, H2, H3. auto.
Qed.

End Terminal.

Section WholeSession.

Import Physics.
Local Open Scope R_scope.

Lemma all_dead_struck (b : Ball) (ks : list Block) :
  all_dead ks = true -> all_dead (map (struck b) ks) = true.
Proof.
  unfold all_dead. induction ks as [|k ks IH]; [reflexivity|].
  cbn [map forallb]. rewrite !andb_true_iff. intros [Hk Hks].
  split; [|now apply IH].
  unfold struck. destruct (alive k && hits b k); [reflexivity | exact Hk].
Qed.

(** A launch changes the velocity of the ball only, and the vertical
    velocity it sets is at most the launch speed 4. *)
Lemma launch_ball (rnd : R) (s : Session) (b : Ball) :
  ball s = Some b ->
  exists b', ball (launch rnd s) = Some b' /\ ball_y b' = ball_y b /\
             radius b' = radius b /\ (dy b' = dy b \/ dy b' <= 4).
Proof.
  intros Hb. unfold launch. rewrite Hb.
  destruct (negb (ballLaunched s)).
  - eexists. split; [reflexivity|]. cbn [ball_y radius dy].
    repeat split. right.
    pose proof (COS_bound ((rnd - 5 / 10) * PI / 3)) as [Hlo _]. lra.
  - exists b. auto.
Qed.

Lemma launch_unmoved (rnd : R) (s : Session) : unmoved s -> unmoved (launch rnd s).
Proof.
  intros (Hk & Hl & Hg & b & Hb & Hy & Hr & Hd).
  destruct (launch_keeps rnd s) as (Eg & _ & El & Ek).
  destruct (launch_ball rnd s b Hb) as (b' & Hb' & Ey & Er & Ed).
  unfold unmoved. rewrite Ek, El, Eg. repeat split; try assumption.
  exists b'. rewrite Ey, Er. repeat split; try assumption.
  destruct Ed as [-> | Ed]; assumption.
Qed.

Lemma unmoved_input (e : Event) (s : Session) :
  e <> Frame -> unmoved s -> unmoved (step e s).
Proof.
  intros HF Hu. destruct e; try congruence; simpl.
  - unfold handleKeyDown.
    assert (Hu' : unmoved (set_keys s (add (keys s) key))) by exact Hu.
    destruct (String.eqb key " "); [now apply launch_unmoved | exact Hu'].
  - exact Hu.
  - exact Hu.
  - now apply launch_unmoved.
  - destruct Hu as (Hk & Hl & Hg & Hb).
    unfold togglePause, unmoved.
    destruct Hg as [Hg | Hg]; rewrite Hg; cbn [blocks lives gameState ball]; auto.
Qed.

(** The first frame run while playing on a level without a live block ends
    in [victory], with the three lives still there. *)
Lemma unmoved_frame (s : Session) :
  unmoved s -> gameState s = playing ->
  gameState (gameLoop s) = victory /\ lives (gameLoop s) = 3%Z /\
  all_dead (blocks (gameLoop s)) = true.
Proof.
  intros (Hk & Hl & _ & b & Hb & Hy & Hr & Hd) Hp.
  assert (Hdead : all_dead (blocks (gameLoop s)) = true).
  { destruct (ten_points_frame s Hp) as [H1 H2].
    destruct (ballLaunched s) eqn:Hla.
    - rewrite (proj2 (H1 b Hb eq_refl)). now apply all_dead_struck.
    - rewrite (proj2 (H2 (or_intror eq_refl))). exact Hk. }
  split; [now apply (gameLoop_victory_iff s Hp)|]. split; [|exact Hdead].
  unfold gameLoop. rewrite Hp, Hb.
  destruct (ballLaunched s) eqn:Hla.
  - assert (Ho : out_of_bounds (ball_at_blocks s b) = false).
    { unfold out_of_bounds. destruct (ball_at_blocks_place s b) as [-> ->].
      apply gtb_false. unfold CANVAS_HEIGHT. lra. }
    rewrite (launched_step_inside s b Ho). unfold check_victory.
    match goal with |- context [if ?c then _ else _] => destruct c end; exact Hl.
  - unfold follow_step, check_victory.
    match goal with |- context [if ?c then _ else _] => destruct c end; exact Hl.
Qed.

Lemma steady_sane (s : Session) : steady s -> sane s.
Proof. intros (Hc & Hv & Hl). exact (conj Hc (conj Hl (or_introl Hv))). Qed.

Lemma sane_step (e : Event) (s : Session) : sane s -> sane (step e s).
Proof.
  intros (Hc & Hl & [Hv | Hu]).
  { apply steady_sane, steady_step. exact (conj Hc (conj Hv Hl)). }
  destruct (Event_eq_Frame e) as [->|HF].
  - simpl. destruct (GameState_eq_playing (gameState s)) as [Hp|Hp].
    + destruct (unmoved_frame s Hu Hp) as (Hg & H3 & Hd).
      split; [|split].
      * destruct (ten_points_frame s Hp) as [H1 H2].
        destruct Hu as (_ & _ & _ & b & Hb & _).
        destruct (ballLaunched s) eqn:Hla.
        -- rewrite (proj2 (H1 b Hb eq_refl)). now apply in_canvas_struck.
        -- now rewrite (proj2 (H2 (or_intror eq_refl))).
      * unfold lives_sound. rewrite Hg, H3. split; [lia|].
        split; [discriminate | lia].
      * left. now apply gameLoop_victory_iff.
    + rewrite gameLoop_idle by exact Hp.
      exact (conj Hc (conj Hl (or_intror Hu))).
  - pose proof (unmoved_input e s HF Hu) as Hu'.
    split; [|split; [|right; exact Hu']].
    + destruct (Event_eq_TogglePause e) as [->|HT].
      * simpl. now rewrite (proj1 (proj2 (proj2 (togglePause_keeps s)))).
      * now rewrite (proj2 (proj2 (proj2 (input_keeps e s HF HT)))).
    + destruct Hu' as (_ & H3 & Hg & _). unfold lives_sound. rewrite H3.
      split; [lia|]. split; [|lia].
      intros E. destruct Hg as [Hg | Hg]; congruence.
Qed.

Lemma sane_run (es : list Event) (s : Session) : sane s -> sane (run es s).
Proof.
  intros Hs. induction es as [|e es IH] using rev_ind; [exact Hs|].
  rewrite run_snoc. now apply sane_step.
Qed.

(** Every session on a level whose blocks end inside the canvas starts in
    a sane state. *)
Lemma sane_initial (generated : list Block) :
  Forall in_canvas generated -> sane (initial generated).
Proof.
  intros Hc. destruct (all_dead generated) eqn:Ha.
  - split; [exact Hc|]. split.
    + unfold lives_sound; cbn [initial gameState lives].
      split; [lia|]. split; [discriminate | lia].
    + right. unfold unmoved; cbn [initial gameState lives blocks ball].
      repeat split; auto.
      eexists. split; [reflexivity|]. cbn [ball_y radius dy paddle_y].
      repeat split; lra.
  - now apply steady_sane, steady_initial.
Qed.

(** In a sane state a launched ball cannot leave through the bottom before
    the first frame, so a frame that takes a life is run on a steady
    state. *)
Lemma sane_below_steady (s : Session) (b : Ball) :
  sane s -> ball s = Some b ->
  ball_y b + dy b - radius b > CANVAS_HEIGHT -> steady s.
Proof.
  intros (Hc & Hl & [Hv | Hu]) Hb Hy; [exact (conj Hc (conj Hv Hl))|].
  destruct Hu as (_ & _ & _ & b' & Hb' & Ey & Er & Ed).
  assert (b' = b) by congruence. subst b'.
  unfold CANVAS_HEIGHT in Hy. lra.
Qed.

End WholeSession.

Section GeneratedLevels.

Import Physics.

Lemma Q2R_420 : Q2R 420 = 420%R.
Proof. unfold Q2R; cbn [Qnum Qden]. lra. Qed.

(** The blocks of every generated level end above the paddle zone, hence
    inside the canvas. *)
Lemma generated_in_canvas (Math_cos Math_sin : Q -> Q) (level : Z) :
  Layout.bounded Math_cos -> Layout.bounded Math_sin ->
  Forall in_canvas
    (map of_layout (Layout.generateBlocksForLevel Math_cos Math_sin level)).
Proof.
  intros Hc Hs. apply Forall_map. unfold Layout.generateBlocksForLevel.
  destruct (appends_generate Math_cos Math_sin Hc Hs level (Random.seededRandom 0) I)
    as (a & r' & l' & _ & Hl & E).
  rewrite (E []). cbn [Layout.blocks snd app].
  eapply Forall_impl; [|exact Hl].
  intros k (_ & _ & _ & Hk). unfold in_canvas, of_layout, CANVAS_HEIGHT.
  cbn [y height]. apply Qle_Rle in Hk.
  rewrite Q2R_plus in Hk. unfold Layout.maxPlayableY in Hk.
  rewrite Q2R_420 in Hk. lra.
Qed.

End GeneratedLevels.

Lemma speed_ball_at_blocks (s : Physics.Session) (b : Physics.Ball) :
  Physics.speed (Physics.ball_at_blocks s b) = Physics.speed b.
Proof.
  unfold Physics.ball_at_blocks.
  now rewrite speed_paddle_collision, speed_wall_collisions.
Qed.

Lemma check_victory_ball (s : Physics.Session) :
  Physics.ball (Physics.check_victory s) = Physics.ball s.
Proof.
  unfold Physics.check_victory.
  destruct (Physics.all_dead (Physics.blocks s)); reflexivity.
Qed.

(** C5.  Speed invariance: a wall bounce and a block bounce are sign
    flips of [dx] or [dy] and leave [sqrt(dx^2 + dy^2)] as it was, also
    when several blocks are hit in one frame; the paddle bounce reads
    [speed = sqrt(dx^2 + dy^2)], sets [dx = sin(angle) * speed] and
    [dy = -|cos(angle) * speed|], and the magnitude after it equals the
    magnitude before it; hence a frame in which the launched ball stays
    in play ends with the speed it started with. *)
Theorem speed_invariance :
  (forall b, Physics.speed (Physics.flip_dx b) = Physics.speed b) /\
  (forall b, Physics.speed (Physics.flip_dy b) = Physics.speed b) /\
  (forall b, Physics.speed (Physics.wall_collisions b) = Physics.speed b) /\
  (forall ks b sc,
     Physics.speed (snd (fst (Physics.block_collisions ks b sc))) = Physics.speed b) /\
  (forall p b,
     let angle := (((Physics.ball_x b - Physics.paddle_x p) / Physics.paddle_width p
                    - 5 / 10) * PI / (15 / 10))%R in
     Physics.dx (Physics.paddle_bounce p b) = (sin angle * Physics.speed b)%R /\
     Physics.dy (Physics.paddle_bounce p b) = (- Rabs (cos angle * Physics.speed b))%R /\
     Physics.speed (Physics.paddle_bounce p b) = Physics.speed b) /\
  (forall p b, Physics.speed (Physics.paddle_collision p b) = Physics.speed b) /\
  (forall s b,
     Physics.gameState s = Physics.playing -> Physics.ball s = Some b ->
     Physics.ballLaunched s = true ->
     Physics.out_of_bounds (Physics.ball_at_blocks s b) = false ->
     exists b', Physics.ball (Physics.gameLoop s) = Some b' /\
                Physics.speed b' = Physics.speed b).
Proof.
  split; [exact speed_flip_dx|].
  split; [exact speed_flip_dy|].
  split; [exact speed_wall_collisions|].
  split.
  { intros ks b sc. rewrite block_collisions_spec. apply speed_flips. }
  split.
  { intros p b angle. split; [|split].
    - unfold Physics.paddle_bounce. cbn [Physics.dx]. now rewrite paddle_speed_read.
    - unfold Physics.paddle_bounce. cbn [Physics.dy]. now rewrite paddle_speed_read.
    - apply speed_paddle_bounce. }
  split; [exact speed_paddle_collision|].
  intros s b Hp Hb Hl Ho. unfold Physics.gameLoop. rewrite Hp, Hb, Hl.
  rewrite check_victory_ball, (launched_step_inside s b Ho).
  eexists. split; [reflexivity|].
  now rewrite speed_flips, speed_ball_at_blocks.
Qed.

(** Every state of a session on a generated level is sane. *)
Lemma session_sane (Math_cos Math_sin : Q -> Q) (level : Z) (es : list Physics.Event) :
  Layout.bounded Math_cos -> Layout.bounded Math_sin ->
  Physics.sane
    (Physics.run es
       (Physics.initial
          (map Physics.of_layout
               (Layout.generateBlocksForLevel Math_cos Math_sin level)))).
Proof.
  intros Hc Hs. apply sane_run, sane_initial. now apply generated_in_canvas.
Qed.

(** C6.  Life-loss reset: in a frame run while playing in which the top
    edge of the launched ball, [y - radius] after the move, ends below the
    bottom of the canvas while more than one life is left, the lives go
    down by exactly one, the ball is put back un-launched at
    [(paddleX + paddleWidth / 2, paddleY - 10)] with velocity [(0, 0)], and
    the state stays [playing].  The frame is run on a sane state, as every
    state of a session on a generated level is ([session_sane]). *)
Theorem life_loss_reset (s : Physics.Session) (b : Physics.Ball) :
  Physics.sane s ->
  Physics.gameState s = Physics.playing ->
  Physics.ball s = Some b -> Physics.ballLaunched s = true ->
  (Physics.ball_y b + Physics.dy b - Physics.radius b > Physics.CANVAS_HEIGHT)%R ->
  (1 < Physics.lives s)%Z ->
  let s' := Physics.gameLoop s in
  Physics.lives s' = (Physics.lives s - 1)%Z /\
  Physics.ball s' =
    Some (Physics.mkBall
            (Physics.paddle_x (Physics.paddle s')
             + Physics.paddle_width (Physics.paddle s') / 2)%R
            (Physics.paddle_y (Physics.paddle s') - 10)%R 0%R 0%R
            (Physics.radius b)) /\
  Physics.ballLaunched s' = false /\
  Physics.gameState s' = Physics.playing /\
  Physics.score s' = Physics.score s /\ Physics.blocks s' = Physics.blocks s.
Proof.
  intros Hsane Hp Hb Hl Hy Hlives s'.
  destruct (sane_below_steady s b Hsane Hb Hy) as (Hc & Hv & _).
  pose proof (playing_has_live_block s Hv Hp) as Ha.
  destruct (ball_at_blocks_place s b) as [Ey Er].
  assert (Ho : Physics.out_of_bounds (Physics.ball_at_blocks s b) = true).
  { unfold Physics.out_of_bounds. rewrite Ey, Er. apply gtb_true. exact Hy. }
  unfold s'. rewrite (gameLoop_below s b Hp Hb Hl Ho Hc Ha).
  unfold Physics.lose_life.
  replace (Physics.lives s - 1 <=? 0)%Z with false by lia.
  cbn [Physics.lives Physics.ball Physics.ballLaunched Physics.gameState
       Physics.score Physics.blocks Physics.paddle].
  unfold Physics.on_paddle. rewrite Er, Hp. repeat split; reflexivity.
Qed.

(** [life_loss_reset] for a ball that leaves a session of one live block
    with three lives. *)
Lemma life_loss_reset_witness :
  let b := Physics.mkBall 400 605 0 4 8 in
  let s := Physics.mkSession Physics.playing 0 3
             [Physics.mkBlock 50 50 60 25 true "#3b82f6"]
             (Some b) (Physics.mkPaddle 340 560 120 15) true [] 400 in
  Physics.sane s /\
  (Physics.ball_y b + Physics.dy b - Physics.radius b > Physics.CANVAS_HEIGHT)%R /\
  Physics.lives (Physics.gameLoop s) = 2%Z /\
  Physics.ballLaunched (Physics.gameLoop s) = false /\
  Physics.gameState (Physics.gameLoop s) = Physics.playing.
Proof.
  intros b s.
  assert (Hy : (Physics.ball_y b + Physics.dy b - Physics.radius b
                > Physics.CANVAS_HEIGHT)%R)
    by (unfold b, Physics.CANVAS_HEIGHT; cbn [Physics.ball_y Physics.dy Physics.radius]; lra).
  assert (Hs : Physics.sane s).
  { split; [|split].
    - repeat constructor. unfold Physics.in_canvas, Physics.CANVAS_HEIGHT.
      cbn [Physics.y Physics.height]. lra.
    - split; [cbn; lia|]. split; [discriminate | cbn; lia].
    - left. split; discriminate. }
  assert (Hl : (1 < Physics.lives s)%Z) by (cbn; lia).
  pose proof (life_loss_reset s b Hs eq_refl eq_refl eq_refl Hy Hl)
    as (H1 & _ & H3 & H4 & _).
  exact (conj Hs (conj Hy (conj H1 (conj H3 H4)))).
Defined.

(* ================================================================== *)
(** * The mounted component: what every action keeps *)
(* ================================================================== *)

Section MountedFacts.

Import Physics Lifetime.
Local Open Scope R_scope.

Lemma check_victory_lives (s : Session) : lives (check_victory s) = lives s.
Proof. unfold check_victory. destruct (all_dead (blocks s)); reflexivity. Qed.

(** What a frame of a launched ball leaves in lives and ball. *)
Lemma launched_step_lives_ball (s : Session) (b : Ball) :
  let p := update_paddle (keys s) (mouseX s) (paddle s) in
  (lives (launched_step s p b) = lives s \/
   lives (launched_step s p b) = (lives s - 1)%Z) /\
  exists b', ball (launched_step s p b) = Some b' /\ radius b' = radius b.
Proof.
  intros p. unfold launched_step.
  change (paddle_collision p (wall_collisions (move b))) with (ball_at_blocks s b).
  rewrite block_collisions_spec. cbv beta iota.
  set (n := Z.to_nat (hit_count (ball_at_blocks s b) (blocks s))).
  assert (Hr : radius (flips n (ball_at_blocks s b)) = radius b).
  { rewrite (proj2 (flips_place n _)). apply ball_at_blocks_place. }
  destruct (out_of_bounds _).
  - unfold lose_life. destruct (lives s - 1 <=? 0)%Z; cbn [lives ball].
    + split; [right; reflexivity|]. eexists. split; [reflexivity | exact Hr].
    + split; [right; reflexivity|]. eexists. split; [reflexivity|].
      unfold on_paddle. cbn [radius]. exact Hr.
  - cbn [lives ball]. split; [left; reflexivity|].
    eexists. split; [reflexivity | exact Hr].
Qed.

Lemma gameLoop_lives (s : Session) :
  lives (gameLoop s) = lives s \/ lives (gameLoop s) = (lives s - 1)%Z.
Proof.
  unfold gameLoop. destruct (gameState s); try (left; reflexivity).
  rewrite check_victory_lives.
  destruct (ball s) as [b|]; [|left; reflexivity].
  destruct (ballLaunched s); [|left; reflexivity].
  apply launched_step_lives_ball.
Qed.

Lemma gameLoop_ball (s : Session) (b : Ball) :
  ball s = Some b ->
  exists b', ball (gameLoop s) = Some b' /\ radius b' = radius b.
Proof.
  intros Hb. unfold gameLoop.
  destruct (gameState s); try (exists b; split; [exact Hb | reflexivity]).
  rewrite check_victory_ball, Hb.
  destruct (ballLaunched s).
  - apply launched_step_lives_ball.
  - unfold follow_step, on_paddle. cbn [ball]. eexists. split; reflexivity.
Qed.

(** Only a frame moves the paddle. *)
Lemma input_keeps_paddle (e : Event) (s : Session) :
  e <> Frame -> paddle (step e s) = paddle s.
Proof.
  intros HF. destruct e; try congruence; simpl.
  - unfold handleKeyDown, launch. cbn [ball ballLaunched paddle set_keys].
    destruct (String.eqb key " "); [|reflexivity].
    destruct (ball s); [destruct (negb (ballLaunched s))|]; reflexivity.
  - reflexivity.
  - reflexivity.
  - unfold handleClick, launch.
    destruct (ball s); [destruct (negb (ballLaunched s))|]; reflexivity.
  - unfold togglePause. destruct (gameState s); reflexivity.
Qed.

Lemma input_keeps_ball (e : Event) (s : Session) (b : Ball) :
  e <> Frame -> ball s = Some b ->
  exists b', ball (step e s) = Some b' /\ radius b' = radius b.
Proof.
  intros HF Hb. destruct e; try congruence; simpl.
  - unfold handleKeyDown. destruct (String.eqb key " ").
    + destruct (launch_ball rnd (set_keys s (add (keys s) key)) b Hb)
        as (b' & E & _ & Er & _). eauto.
    + eauto.
  - eauto.
  - eauto.
  - destruct (launch_ball rnd s b Hb) as (b' & E & _ & Er & _). eauto.
  - unfold togglePause. destruct (gameState s); eauto.
Qed.

Lemma clamp_inside (v : R) : 0 <= clamp v 0 (CANVAS_WIDTH - 120) <= CANVAS_WIDTH - 120.
Proof.
  unfold clamp, CANVAS_WIDTH, Rmax, Rmin.
  destruct (Rle_dec (800 - 120) v); destruct (Rle_dec 0 _); lra.
Qed.

Lemma update_paddle_mounted (ks : list string) (mx : R) (p : Paddle) :
  mounted_paddle p -> mounted_paddle (update_paddle ks mx p).
Proof.
  intros (Hy & Hw & Hh & _). rewrite update_paddle_pointer.
  unfold mounted_paddle. cbn [paddle_y paddle_width paddle_height paddle_x].
  rewrite Hw. repeat split; try assumption; apply clamp_inside.
Qed.

Lemma step_mounted_paddle (e : Event) (s : Session) :
  mounted_paddle (paddle s) -> mounted_paddle (paddle (step e s)).
Proof.
  intros Hm. destruct (Event_eq_Frame e) as [->|HF].
  - simpl. destruct (GameState_eq_playing (gameState s)) as [Hp|Hp].
    + rewrite gameLoop_paddle by exact Hp. now apply update_paddle_mounted.
    + now rewrite gameLoop_idle.
  - now rewrite input_keeps_paddle.
Qed.

Lemma step_lives (e : Event) (s : Session) :
  lives (step e s) = lives s \/ lives (step e s) = (lives s - 1)%Z.
Proof.
  destruct (Event_eq_Frame e) as [->|HF]; [apply gameLoop_lives|].
  left. destruct (Event_eq_TogglePause e) as [->|HT].
  - apply togglePause_keeps.
  - apply (input_keeps e s HF HT).
Qed.

Lemma step_ball (e : Event) (s : Session) (b : Ball) :
  ball s = Some b ->
  exists b', ball (step e s) = Some b' /\ radius b' = radius b.
Proof.
  intros Hb. destruct (Event_eq_Frame e) as [->|HF].
  - now apply gameLoop_ball.
  - now apply input_keeps_ball.
Qed.

(** Every action keeps what holds of a mounted component. *)
Lemma perform_mounted (generated : list Block) (a : Action) (s : Session) :
  Forall in_canvas generated -> mounted s -> mounted (perform generated a s).
Proof.
  intros Hg (Hs & Hp & Hl & b & Hb & Hr). destruct a as [e|]; simpl.
  - split; [now apply sane_step|]. split; [now apply step_mounted_paddle|].
    split; [destruct (step_lives e s) as [-> | ->]; lia|].
    destruct (step_ball e s b Hb) as (b' & Hb' & Hr'). exists b'.
    split; [exact Hb' | congruence].
  - destruct Hp as (Hy & Hw & Hh & Hx).
    split; [|split; [exact (conj Hy (conj Hw (conj Hh Hx)))|split; [cbn; lia|]]].
    + split; [exact Hg|]. split.
      * unfold lives_sound. cbn [handleRestart lives gameState].
        split; [lia|]. split; [discriminate | lia].
      * destruct (all_dead generated) eqn:Ha.
        -- right. unfold unmoved. cbn [handleRestart blocks lives gameState ball].
           repeat split; auto.
           eexists. split; [reflexivity|]. cbn [ball_y radius dy].
           rewrite Hy. repeat split; lra.
        -- left. unfold victory_iff_cleared.
           cbn [handleRestart blocks gameState]. rewrite Ha. split; discriminate.
    + eexists. cbn [handleRestart ball]. split; reflexivity.
Qed.

Lemma lifetime_snoc (generated : list Block) (acts : list Action) (a : Action)
    (s : Session) :
  lifetime generated (acts ++ [a]) s = perform generated a (lifetime generated acts s).
Proof. unfold lifetime. now rewrite fold_left_app. Qed.

Lemma initial_mounted (generated : list Block) :
  Forall in_canvas generated -> mounted (initial generated).
Proof.
  intros Hg. split; [now apply sane_initial|]. split; [|split].
  - unfold mounted_paddle, CANVAS_WIDTH. cbn [initial paddle paddle_y paddle_width
      paddle_height paddle_x]. repeat split; lra.
  - cbn. lia.
  - eexists. cbn [initial ball]. split; reflexivity.
Qed.

Lemma lifetime_mounted (generated : list Block) (acts : list Action) :
  Forall in_canvas generated ->
  mounted (lifetime generated acts (initial generated)).
Proof.
  intros Hg. induction acts as [|a acts IH] using rev_ind.
  - now apply initial_mounted.
  - rewrite lifetime_snoc. now apply perform_mounted.
Qed.

End MountedFacts.

Section Bookkeeping.

Import Physics Lifetime.
Local Open Scope Z_scope.

Lemma dead_count_cons (k : Block) (ks : list Block) :
  dead_count (k :: ks) = (if alive k then 0 else 1) + dead_count ks.
Proof.
  unfold dead_count. cbn [filter]. destruct (alive k); cbn [negb].
  - lia.
  - cbn [List.length]. rewrite Nat2Z.inj_succ. lia.
Qed.

(** The block loop adds to the dead blocks exactly the blocks it hits. *)
Lemma dead_count_struck (b : Ball) (ks : list Block) :
  dead_count (map (struck b) ks) = dead_count ks + hit_count b ks.
Proof.
  induction ks as [|k ks IH]; [reflexivity|].
  cbn [map]. rewrite !dead_count_cons, hit_count_cons, IH.
  unfold struck. destruct (alive k) eqn:Ea; cbn [andb].
  - destruct (hits b k); cbn [kill alive]; rewrite ?Ea; lia.
  - rewrite Ea. lia.
Qed.

Lemma hit_count_nonneg (b : Ball) (ks : list Block) : 0 <= hit_count b ks.
Proof. unfold hit_count. lia. Qed.

Lemma dead_count_bounds (ks : list Block) :
  0 <= dead_count ks <= Z.of_nat (List.length ks).
Proof.
  unfold dead_count. split; [lia|].
  apply inj_le. apply filter_length_le.
Qed.

Lemma all_alive_dead_count (ks : list Block) :
  all_alive ks = true -> dead_count ks = 0.
Proof.
  unfold all_alive. induction ks as [|k ks IH]; [reflexivity|].
  cbn [forallb]. rewrite andb_true_iff. intros [Hk Hks].
  rewrite dead_count_cons, Hk, IH by exact Hks. reflexivity.
Qed.

(** Score, blocks and their number after any event. *)
Lemma step_score_blocks (e : Event) (s : Session) :
  exists n : Z, 0 <= n /\ score (step e s) = score s + 10 * n /\
                dead_count (blocks (step e s)) = dead_count (blocks s) + n /\
                List.length (blocks (step e s)) = List.length (blocks s).
Proof.
  destruct (Event_eq_Frame e) as [->|HF].
  - simpl. destruct (GameState_eq_playing (gameState s)) as [Hp|Hp].
    + destruct (ten_points_frame s Hp) as [H1 H2].
      destruct (ball s) as [b|] eqn:Hb.
      * destruct (ballLaunched s) eqn:Hl.
        -- destruct (H1 b eq_refl eq_refl) as [Es Eb].
           exists (hit_count (ball_at_blocks s b) (blocks s)).
           rewrite Es, Eb, dead_count_struck, length_map.
           repeat split; auto using hit_count_nonneg.
        -- destruct (H2 (or_intror eq_refl)) as [Es Eb].
           exists 0. rewrite Es, Eb. repeat split; lia.
      * destruct (H2 (or_introl eq_refl)) as [Es Eb].
        exists 0. rewrite Es, Eb. repeat split; lia.
    + rewrite gameLoop_idle by exact Hp. exists 0. repeat split; lia.
  - exists 0. destruct (Event_eq_TogglePause e) as [->|HT].
    + simpl. destruct (togglePause_keeps s) as (Es & _ & Eb & _).
      rewrite Es, Eb. repeat split; lia.
    + destruct (input_keeps e s HF HT) as (_ & Es & _ & Eb).
      rewrite Es, Eb. repeat split; lia.
Qed.

End Bookkeeping.

(** X1.  The score counts the dead blocks: in every state of a mounted
    component, restarts included, on a level whose blocks start alive, the
    score is ten times the number of dead blocks; the number of blocks
    never changes, so the score lies between 0 and ten times that
    number. *)
Theorem score_counts_dead_blocks
    (generated : list Physics.Block) (acts : list Lifetime.Action) :
  Lifetime.all_alive generated = true ->
  let s := Lifetime.lifetime generated acts (Physics.initial generated) in
  Physics.score s = (10 * Lifetime.dead_count (Physics.blocks s))%Z /\
  List.length (Physics.blocks s) = List.length generated /\
  (0 <= Physics.score s <= 10 * Z.of_nat (List.length generated))%Z.
Proof.
  intros Ha s.
  assert (H : Physics.score s = (10 * Lifetime.dead_count (Physics.blocks s))%Z /\
              List.length (Physics.blocks s) = List.length generated).
  { unfold s. induction acts as [|a acts IH] using rev_ind.
    - cbn. rewrite (all_alive_dead_count generated Ha). split; reflexivity.
    - rewrite lifetime_snoc. destruct IH as [IH1 IH2].
      destruct a as [e|]; cbn [Lifetime.perform].
      + destruct (step_score_blocks e
                    (Lifetime.lifetime generated acts (Physics.initial generated)))
          as (n & Hn & Es & Ed & El).
        rewrite Es, Ed, El, IH1. split; [lia | exact IH2].
      + cbn [Physics.handleRestart Physics.score Physics.blocks].
        rewrite (all_alive_dead_count generated Ha). split; reflexivity. }
  destruct H as [H1 H2]. split; [exact H1|]. split; [exact H2|].
  pose proof (dead_count_bounds (Physics.blocks s)) as Hb.
  rewrite H2 in Hb. lia.
Qed.

(** [score_counts_dead_blocks] on level 1, after a launch, a frame and a
    restart. *)
Lemma score_counts_dead_blocks_witness :
  let generated :=
    map Physics.of_layout
        (Layout.generateBlocksForLevel (fun _ => 1%Q) (fun _ => 0%Q) 1) in
  let s := Lifetime.lifetime generated
             [Lifetime.Act (Physics.Click (5 / 10)); Lifetime.Act Physics.Frame;
              Lifetime.Restart]
             (Physics.initial generated) in
  Lifetime.all_alive generated = true /\
  (0 <= Physics.score s <= 10 * 24)%Z.
Proof.
  intros generated s.
  assert (Ha : Lifetime.all_alive generated = true) by reflexivity.
  split; [exact Ha|].
  exact (proj2 (proj2 (score_counts_dead_blocks generated
           [Lifetime.Act (Physics.Click (5 / 10)); Lifetime.Act Physics.Frame;
            Lifetime.Restart] Ha))).
Defined.

Section Monotone.

Import Physics Lifetime.

Lemma same_or_killed_refl (k : Block) : same_or_killed k k.
Proof. unfold same_or_killed. repeat split; auto. Qed.

Lemma same_or_killed_trans (a b c : Block) :
  same_or_killed a b -> same_or_killed b c -> same_or_killed a c.
Proof.
  unfold same_or_killed.
  intros (H1 & H2 & H3 & H4 & H5 & H6) (G1 & G2 & G3 & G4 & G5 & G6).
  repeat split; try congruence. auto.
Qed.

Lemma same_or_killed_struck (b : Ball) (k : Block) : same_or_killed k (struck b k).
Proof.
  unfold struck. destruct (alive k && hits b k).
  - unfold same_or_killed, kill. cbn. repeat split; auto.
  - apply same_or_killed_refl.
Qed.

Lemma Forall2_same_refl (ks : list Block) : Forall2 same_or_killed ks ks.
Proof. induction ks; constructor; auto using same_or_killed_refl. Qed.

Lemma Forall2_same_struck (b : Ball) (ks : list Block) :
  Forall2 same_or_killed ks (map (struck b) ks).
Proof. induction ks; constructor; auto using same_or_killed_struck. Qed.

Lemma Forall2_same_trans (l1 l2 l3 : list Block) :
  Forall2 same_or_killed l1 l2 -> Forall2 same_or_killed l2 l3 ->
  Forall2 same_or_killed l1 l3.
Proof.
  intros H. revert l3. induction H as [|a b l1 l2 Hab _ IH]; intros l3 H3.
  - inversion H3. constructor.
  - inversion H3; subst. constructor; eauto using same_or_killed_trans.
Qed.

Lemma step_blocks_same (e : Event) (s : Session) :
  Forall2 same_or_killed (blocks s) (blocks (step e s)).
Proof.
  destruct (Event_eq_Frame e) as [->|HF].
  - simpl. destruct (GameState_eq_playing (gameState s)) as [Hp|Hp].
    + destruct (ten_points_frame s Hp) as [H1 H2].
      destruct (ball s) as [b|] eqn:Hb.
      * destruct (ballLaunched s) eqn:Hl.
        -- rewrite (proj2 (H1 b eq_refl eq_refl)). apply Forall2_same_struck.
        -- rewrite (proj2 (H2 (or_intror eq_refl))). apply Forall2_same_refl.
      * rewrite (proj2 (H2 (or_introl eq_refl))). apply Forall2_same_refl.
    + rewrite gameLoop_idle by exact Hp. apply Forall2_same_refl.
  - destruct (Event_eq_TogglePause e) as [->|HT].
    + simpl. rewrite (proj1 (proj2 (proj2 (togglePause_keeps s)))).
      apply Forall2_same_refl.
    + rewrite (proj2 (proj2 (proj2 (input_keeps e s HF HT)))).
      apply Forall2_same_refl.
Qed.

End Monotone.

(** X2.  Monotonic destruction: over any sequence of events of a session
    the blocks keep their order, place, size and colour, a dead block
    never comes back to life, the score never goes down and the lives
    never go up. *)
Theorem destruction_is_monotonic (es : list Physics.Event) (s : Physics.Session) :
  Forall2 Lifetime.same_or_killed (Physics.blocks s)
          (Physics.blocks (Physics.run es s)) /\
  (Physics.score s <= Physics.score (Physics.run es s))%Z /\
  (Physics.lives (Physics.run es s) <= Physics.lives s)%Z.
Proof.
  induction es as [|e es (IH1 & IH2 & IH3)] using rev_ind.
  - split; [apply Forall2_same_refl|]. cbn. lia.
  - rewrite run_snoc. split; [|split].
    + eapply Forall2_same_trans; [exact IH1 | apply step_blocks_same].
    + destruct (step_score_blocks e (Physics.run es s)) as (n & Hn & Es & _).
      rewrite Es. lia.
    + destruct (step_lives e (Physics.run es s)) as [-> | ->]; lia.
Qed.

(** X3.  Lives and defeat over the whole life of the component: whatever
    is clicked and however often the level is restarted, the lives stay
    between 0 and 3, and the state is [defeat] exactly when no life is
    left; a restart, also from [defeat] or [victory], gives back three
    lives, an empty score, the state [playing] and the blocks of the
    level. *)
Theorem lives_stay_between_0_and_3
    (generated : list Physics.Block) (acts : list Lifetime.Action) :
  Forall Physics.in_canvas generated ->
  let s := Lifetime.lifetime generated acts (Physics.initial generated) in
  (0 <= Physics.lives s <= 3)%Z /\
  (Physics.gameState s = Physics.defeat <-> Physics.lives s = 0%Z) /\
  let r := Lifetime.perform generated Lifetime.Restart s in
  Physics.lives r = 3%Z /\ Physics.score r = 0%Z /\
  Physics.gameState r = Physics.playing /\ Physics.blocks r = generated /\
  Physics.ballLaunched r = false.
Proof.
  intros Hg s.
  destruct (lifetime_mounted generated acts Hg) as ((_ & (H0 & Hd) & _) & _ & H3 & _).
  fold s in H0, Hd, H3.
  split; [lia|]. split; [exact Hd|]. cbn. repeat split; reflexivity.
Qed.

(** [lives_stay_between_0_and_3] on level 1. *)
Lemma lives_stay_between_0_and_3_witness :
  let generated :=
    map Physics.of_layout
        (Layout.generateBlocksForLevel (fun _ => 1%Q) (fun _ => 0%Q) 1) in
  let s := Lifetime.lifetime generated
             [Lifetime.Act (Physics.Click (5 / 10)); Lifetime.Restart;
              Lifetime.Act Physics.Frame]
             (Physics.initial generated) in
  Forall Physics.in_canvas generated /\ (0 <= Physics.lives s <= 3)%Z.
Proof.
  intros generated s.
  assert (Hc : Forall Physics.in_canvas generated).
  { apply generated_in_canvas; apply constant_bounded; split; discriminate. }
  split; [exact Hc|].
  exact (proj1 (lives_stay_between_0_and_3 generated
           [Lifetime.Act (Physics.Click (5 / 10)); Lifetime.Restart;
            Lifetime.Act Physics.Frame] Hc)).
Defined.

(** X4.  The paddle never leaves the canvas: in every state of a mounted
    component the paddle keeps the height 560, the width 120 and the
    thickness 15 it was mounted with, and its left edge stays between 0
    and 680, so that it lies between the side walls. *)
Theorem paddle_stays_in_canvas
    (generated : list Physics.Block) (acts : list Lifetime.Action) :
  let p := Physics.paddle
             (Lifetime.lifetime generated acts (Physics.initial generated)) in
  Physics.paddle_y p = 560%R /\ Physics.paddle_width p = 120%R /\
  Physics.paddle_height p = 15%R /\
  (0 <= Physics.paddle_x p)%R /\
  (Physics.paddle_x p + Physics.paddle_width p <= Physics.CANVAS_WIDTH)%R.
Proof.
  intros p.
  assert (H : Lifetime.mounted_paddle p).
  { unfold p. induction acts as [|a acts IH] using rev_ind.
    - unfold Lifetime.mounted_paddle, Physics.CANVAS_WIDTH.
      cbn [Lifetime.lifetime fold_left Physics.initial Physics.paddle
           Physics.paddle_y Physics.paddle_width Physics.paddle_height
           Physics.paddle_x].
      repeat split; lra.
    - rewrite lifetime_snoc. destruct a as [e|]; cbn [Lifetime.perform].
      + now apply step_mounted_paddle.
      + exact IH. }
  destruct H as (Hy & Hw & Hh & Hx). unfold Physics.CANVAS_WIDTH in *.
  rewrite Hw. repeat split; try assumption; lra.
Qed.

Section Cruising.

Import Physics Lifetime.
Local Open Scope R_scope.

Lemma speed_launch (a x0 y0 r : R) :
  speed (mkBall x0 y0 (sin a * 4) (- cos a * 4) r) = 4.
Proof.
  unfold speed. cbn [dx dy].
  replace (sin a * 4 * (sin a * 4) + - cos a * 4 * (- cos a * 4))
    with (Rsqr 4 * (Rsqr (sin a) + Rsqr (cos a))) by (unfold Rsqr; ring).
  rewrite sin2_cos2, Rmult_1_r. apply sqrt_Rsqr. lra.
Qed.

Lemma launch_cruising (rnd : R) (s : Session) : cruising s -> cruising (launch rnd s).
Proof.
  intros (b & Hb & H). unfold cruising, launch. rewrite Hb.
  destruct (ballLaunched s) eqn:Hl; cbn [negb].
  - exists b. rewrite Hb, Hl. auto.
  - eexists. cbn [ball ballLaunched]. split; [reflexivity|]. apply speed_launch.
Qed.

Lemma input_cruising (e : Event) (s : Session) :
  e <> Frame -> cruising s -> cruising (step e s).
Proof.
  intros HF Hc. destruct e; try congruence; cbn [step].
  - unfold handleKeyDown. destruct (String.eqb key " ").
    + apply launch_cruising. exact Hc.
    + exact Hc.
  - exact Hc.
  - exact Hc.
  - now apply launch_cruising.
  - unfold togglePause. destruct (gameState s); exact Hc.
Qed.

Lemma check_victory_launched (s : Session) :
  ballLaunched (check_victory s) = ballLaunched s.
Proof. unfold check_victory. destruct (all_dead (blocks s)); reflexivity. Qed.

Lemma frame_cruising (s : Session) : cruising s -> cruising (gameLoop s).
Proof.
  intros (b & Hb & H).
  destruct (GameState_eq_playing (gameState s)) as [Hp|Hp].
  2:{ rewrite gameLoop_idle by exact Hp. exists b. auto. }
  unfold cruising, gameLoop. rewrite Hp, Hb, check_victory_ball, check_victory_launched.
  destruct (ballLaunched s) eqn:Hl.
  - unfold launched_step.
    change (paddle_collision (update_paddle (keys s) (mouseX s) (paddle s))
              (wall_collisions (move b))) with (ball_at_blocks s b).
    rewrite block_collisions_spec. cbv beta iota.
    set (b2 := flips _ _).
    assert (H2 : speed b2 = 4).
    { unfold b2. now rewrite speed_flips, speed_ball_at_blocks. }
    destruct (out_of_bounds b2).
    + unfold lose_life. destruct (lives s - 1 <=? 0)%Z; cbn [ball ballLaunched].
      * exists b2. rewrite Hl. auto.
      * eexists. split; [reflexivity|]. unfold on_paddle. cbn [dx dy]. auto.
    + cbn [ball ballLaunched]. exists b2. rewrite Hl. auto.
  - unfold follow_step. cbn [ball ballLaunched]. eexists. split; [reflexivity|].
    rewrite Hl. unfold on_paddle. cbn [dx dy]. exact H.
Qed.

Lemma perform_cruising (generated : list Block) (a : Action) (s : Session) :
  cruising s -> cruising (perform generated a s).
Proof.
  intros Hc. destruct a as [e|]; cbn [perform].
  - destruct (Event_eq_Frame e) as [->|HF].
    + now apply frame_cruising.
    + now apply input_cruising.
  - unfold cruising, handleRestart. cbn [ball ballLaunched].
    eexists. split; [reflexivity|]. cbn [dx dy]. auto.
Qed.

End Cruising.

(** X5.  The ball has one speed: at every moment of a mounted component,
    whatever the level, the input and the restarts, the ball either has
    been launched and travels at speed 4 (the launch speed: no bounce,
    off a wall, the paddle or a block, ever changes it), or it waits for
    the launch with [dx = dy = 0]. *)
Theorem launched_ball_keeps_speed_4
    (generated : list Physics.Block) (acts : list Lifetime.Action) :
  let s := Lifetime.lifetime generated acts (Physics.initial generated) in
  exists b, Physics.ball s = Some b /\
    (Physics.ballLaunched s = true -> Physics.speed b = 4%R) /\
    (Physics.ballLaunched s = false ->
       Physics.dx b = 0%R /\ Physics.dy b = 0%R).
Proof.
  intros s.
  assert (H : Lifetime.cruising s).
  { unfold s. induction acts as [|a acts IH] using rev_ind.
    - unfold Lifetime.cruising.
      cbn [Lifetime.lifetime fold_left Physics.initial Physics.ball
           Physics.ballLaunched].
      eexists. split; [reflexivity|]. cbn [Physics.dx Physics.dy]. auto.
    - rewrite lifetime_snoc. now apply perform_cruising. }
  destruct H as (b & Hb & H). exists b. split; [exact Hb|].
  destruct (Physics.ballLaunched s); split; intros E; try discriminate; exact H.
Qed.

Section Angles.

Import Physics Lifetime.
Local Open Scope R_scope.

(** Sine and cosine of an angle of at most [c] to either side of the
    vertical, for [c] up to a right angle. *)
Lemma sin_within (a c : R) :
  0 <= c <= PI / 2 -> - c <= a <= c -> - sin c <= sin a <= sin c.
Proof.
  intros Hc Ha. split.
  - rewrite <- sin_neg. apply sin_incr_1; lra.
  - apply sin_incr_1; lra.
Qed.

Lemma cos_within (a c : R) :
  0 <= c <= PI / 2 -> - c <= a <= c -> cos c <= cos a.
Proof.
  intros Hc Ha. pose proof PI_RGT_0 as Hpi.
  assert (H : forall t, 0 <= t <= c -> cos c <= cos t).
  { intros t Ht. apply cos_decr_1; lra. }
  destruct (Rle_dec 0 a) as [Hp|Hp].
  - apply H. lra.
  - rewrite <- (cos_neg a). apply H. lra.
Qed.

Lemma sin_sign (a : R) :
  - (PI / 2) <= a <= PI / 2 -> (a <= 0 -> sin a <= 0) /\ (0 <= a -> 0 <= sin a).
Proof.
  intros Ha. pose proof PI_RGT_0 as Hpi. split; intros H.
  - destruct (Req_dec a 0) as [->|Hn]; [rewrite sin_0; lra|].
    apply Rlt_le, sin_lt_0_var; lra.
  - apply sin_ge_0; lra.
Qed.

Lemma sqrt3_bounds : 0 < sqrt 3 /\ sqrt 3 * sqrt 3 = 3.
Proof. split; [apply sqrt_lt_R0; lra | apply sqrt_sqrt; lra]. Qed.

Lemma touches_paddle_spec (p : Paddle) (b : Ball) :
  touches_paddle p b = true ->
  paddle_x p <= ball_x b <= paddle_x p + paddle_width p.
Proof.
  unfold touches_paddle, geb, leb. intros H.
  apply andb_true_iff in H. destruct H as [H H4].
  apply andb_true_iff in H. destruct H as [_ H3].
  destruct (Rle_dec (paddle_x p) (ball_x b)); [|discriminate].
  destruct (Rle_dec (ball_x b) (paddle_x p + paddle_width p)); [|discriminate].
  lra.
Qed.

Lemma speed_ge_0 (b : Ball) : 0 <= speed b.
Proof. unfold speed. apply sqrt_pos. Qed.

End Angles.

(** X6.  The launch: for a ball at rest on the paddle and a value of
    [Math.random()] in [0, 1), the space key and the click both start the
    ball where it lies, upwards and at most 30 degrees off the vertical:
    [dy <= -2 * sqrt 3] (about -3.46) and [-2 <= dx < 2]; a launch of a
    ball already under way changes nothing, and a key other than the
    space key launches nothing.  The state is not looked at: the ball is
    launched also while the game is paused. *)
Theorem launch_goes_upward (rnd : R) (s : Physics.Session) (b : Physics.Ball) :
  Physics.ball s = Some b -> Physics.ballLaunched s = false ->
  (0 <= rnd < 1)%R ->
  (exists b',
     Physics.ball (Physics.handleClick rnd s) = Some b' /\
     Physics.ball (Physics.handleKeyDown " " rnd s) = Some b' /\
     Physics.ballLaunched (Physics.handleClick rnd s) = true /\
     Physics.ballLaunched (Physics.handleKeyDown " " rnd s) = true /\
     Physics.ball_x b' = Physics.ball_x b /\ Physics.ball_y b' = Physics.ball_y b /\
     (Physics.dy b' <= - 2 * sqrt 3)%R /\ (- 2 <= Physics.dx b' < 2)%R) /\
  (forall rnd',
     Physics.handleClick rnd' (Physics.handleClick rnd s) = Physics.handleClick rnd s) /\
  (forall key, key <> " "%string ->
     Physics.ball (Physics.handleKeyDown key rnd s) = Some b /\
     Physics.ballLaunched (Physics.handleKeyDown key rnd s) = false).
Proof.
  intros Hb Hl Hr. pose proof PI_RGT_0 as Hpi.
  set (a := ((rnd - 5 / 10) * PI / 3)%R).
  assert (Ha : (- (PI / 6) <= a < PI / 6)%R) by (unfold a; nra).
  assert (Hs : (- (1 / 2) <= sin a < 1 / 2)%R).
  { rewrite <- sin_PI6. split.
    - apply (sin_within a (PI / 6)); lra.
    - apply sin_increasing_1; lra. }
  assert (Hc : (sqrt 3 / 2 <= cos a)%R).
  { rewrite <- cos_PI6. apply cos_within; lra. }
  split; [|split].
  - unfold Physics.handleClick, Physics.handleKeyDown.
    cbn [String.eqb Ascii.eqb Bool.eqb].
    unfold Physics.launch.
    cbn [Physics.set_keys Physics.ball Physics.ballLaunched].
    rewrite Hb, Hl. cbn [negb Physics.ball Physics.ballLaunched].
    fold a. eexists. split; [reflexivity|]. split; [reflexivity|].
    cbn [Physics.ball_x Physics.ball_y Physics.dx Physics.dy].
    repeat split; lra.
  - intros rnd'. unfold Physics.handleClick, Physics.launch at 1.
    unfold Physics.launch. rewrite Hb, Hl. reflexivity.
  - intros key Hk. unfold Physics.handleKeyDown.
    destruct (String.eqb_spec key " ") as [E|_]; [contradiction|].
    cbn [Physics.set_keys Physics.ball Physics.ballLaunched]. auto.
Qed.

(** [launch_goes_upward] for the ball of a fresh session and the draw
    0.25. *)
Lemma launch_goes_upward_witness :
  exists b',
    Physics.ball (Physics.handleClick (25 / 100) (Physics.initial [])) = Some b' /\
    (Physics.dy b' <= - 2 * sqrt 3)%R.
Proof.
  destruct (launch_goes_upward (25 / 100) (Physics.initial [])
              (Physics.mkBall (340 + 120 / 2) (560 - 10) 0 0 8)
              eq_refl eq_refl ltac:(lra))
    as ((b' & H1 & _ & _ & _ & _ & _ & H2 & _) & _).
  exists b'. split; assumption.
Defined.

(** X7.  The paddle always sends the ball upwards: when the ball touches
    a paddle of positive width, it leaves with the speed it came with, at
    most 60 degrees off the vertical, so that [dy <= -speed / 2] and
    [|dx| <= sqrt 3 / 2 * speed]; it leaves to the left when it hit the
    left half of the paddle and to the right when it hit the right half,
    and its position is not changed. *)
Theorem paddle_sends_ball_upward (p : Physics.Paddle) (b : Physics.Ball) :
  (0 < Physics.paddle_width p)%R ->
  Physics.touches_paddle p b = true ->
  let b' := Physics.paddle_collision p b in
  Physics.speed b' = Physics.speed b /\
  (Physics.dy b' <= - (Physics.speed b / 2))%R /\
  (Rabs (Physics.dx b') <= sqrt 3 / 2 * Physics.speed b)%R /\
  (Physics.ball_x b <= Lifetime.centre p -> Physics.dx b' <= 0)%R /\
  (Lifetime.centre p <= Physics.ball_x b -> 0 <= Physics.dx b')%R /\
  Physics.ball_x b' = Physics.ball_x b /\ Physics.ball_y b' = Physics.ball_y b.
Proof.
  intros Hw Ht b'. pose proof PI_RGT_0 as Hpi.
  pose proof (touches_paddle_spec p b Ht) as Hx.
  pose proof (speed_ge_0 b) as Hv.
  destruct sqrt3_bounds as [H3 H3'].
  unfold b', Physics.paddle_collision. rewrite Ht.
  split; [apply speed_paddle_bounce|].
  unfold Physics.paddle_bounce, Lifetime.centre.
  cbn [Physics.dx Physics.dy Physics.ball_x Physics.ball_y].
  rewrite paddle_speed_read.
  set (h := ((Physics.ball_x b - Physics.paddle_x p) / Physics.paddle_width p)%R).
  assert (Hh : (0 <= h <= 1)%R).
  { unfold h. split.
    - apply Rmult_le_pos; [lra|]. apply Rlt_le, Rinv_0_lt_compat, Hw.
    - apply Rmult_le_reg_r with (Physics.paddle_width p); [exact Hw|].
      unfold Rdiv. rewrite Rmult_assoc, Rinv_l by lra. lra. }
  assert (Hhalf : ((Physics.ball_x b <= Physics.paddle_x p + Physics.paddle_width p / 2
                    -> h <= 5 / 10) /\
                   (Physics.paddle_x p + Physics.paddle_width p / 2 <= Physics.ball_x b
                    -> 5 / 10 <= h))%R).
  { assert (E : (h * Physics.paddle_width p = Physics.ball_x b - Physics.paddle_x p)%R).
    { unfold h, Rdiv. rewrite Rmult_assoc, Rinv_l by lra. lra. }
    split; intros H; nra. }
  set (a := ((h - 5 / 10) * PI / (15 / 10))%R).
  assert (Ha : (- (PI / 3) <= a <= PI / 3)%R) by (unfold a; nra).
  assert (Hsign : ((h <= 5 / 10 -> a <= 0) /\ (5 / 10 <= h -> 0 <= a))%R).
  { unfold a. split; intros H; nra. }
  assert (Hc : (1 / 2 <= cos a)%R).
  { rewrite <- cos_PI3. apply cos_within; lra. }
  assert (Hs : (- (sqrt 3 / 2) <= sin a <= sqrt 3 / 2)%R).
  { rewrite <- sin_PI3. apply sin_within; lra. }
  destruct (sin_sign a ltac:(lra)) as [Hneg Hpos].
  split; [|split; [|split; [|split]]].
  - rewrite Rabs_pos_eq by nra. nra.
  - apply Rabs_le. split; nra.
  - intros H. assert (sin a <= 0)%R by (apply Hneg, Hsign, Hhalf, H). nra.
  - intros H. assert (0 <= sin a)%R by (apply Hpos, Hsign, Hhalf, H). nra.
  - split; reflexivity.
Qed.

(** [paddle_sends_ball_upward] for a ball that comes down on the initial
    paddle. *)
Lemma paddle_sends_ball_upward_witness :
  let p := Physics.mkPaddle 340 560 120 15 in
  let b := Physics.mkBall 400 555 0 4 8 in
  (Physics.dy (Physics.paddle_collision p b) <= - (Physics.speed b / 2))%R.
Proof.
  intros p b.
  assert (Hw : (0 < Physics.paddle_width p)%R) by (cbn; lra).
  assert (Ht : Physics.touches_paddle p b = true).
  { unfold Physics.touches_paddle, p, b.
    cbn [Physics.ball_x Physics.ball_y Physics.radius Physics.paddle_x
         Physics.paddle_y Physics.paddle_width Physics.paddle_height].
    unfold Physics.geb. eval_frame. reflexivity. }
  exact (proj1 (proj2 (paddle_sends_ball_upward p b Hw Ht))).
Defined.

Section Pausing.

Import Physics Lifetime.

Lemma idle_frames (n : nat) (s : Session) :
  gameState s <> playing -> run (repeat Frame n) s = s.
Proof.
  intros Hp. induction n as [|n IH]; [reflexivity|].
  cbn [repeat run fold_left step]. rewrite gameLoop_idle by exact Hp. exact IH.
Qed.

Lemma run_app (es es' : list Event) (s : Session) :
  run (es ++ es') s = run es' (run es s).
Proof. unfold run. apply fold_left_app. Qed.

(** The state after an event is [victory] only if it was before, or the
    event is a frame of a game in play. *)
Lemma step_victory (e : Event) (s : Session) :
  gameState (step e s) = victory ->
  gameState s = victory \/ (e = Frame /\ gameState s = playing).
Proof.
  intros H. destruct (Event_eq_Frame e) as [->|HF].
  - destruct (GameState_eq_playing (gameState s)) as [Hp|Hp]; [auto|].
    cbn [step] in H. rewrite gameLoop_idle in H by exact Hp. auto.
  - destruct (Event_eq_TogglePause e) as [->|HT].
    + left. destruct (togglePause_keeps s) as (_ & _ & _ & Hv & _). now apply Hv.
    + left. now rewrite <- (proj1 (input_keeps e s HF HT)).
Qed.

Lemma victory_step (e : Event) (s : Session) :
  gameState s = victory -> gameState (step e s) = victory.
Proof.
  intros Hv. destruct (Event_eq_Frame e) as [->|HF].
  - cbn [step]. rewrite gameLoop_idle by congruence. exact Hv.
  - destruct (Event_eq_TogglePause e) as [->|HT].
    + destruct (togglePause_keeps s) as (_ & _ & _ & Hv' & _). now apply Hv'.
    + now rewrite (proj1 (input_keeps e s HF HT)).
Qed.

Lemma victory_silent (es : list Event) (s : Session) :
  gameState s = victory ->
  notifications es s = 0%nat /\ gameState (run es s) = victory.
Proof.
  revert s. induction es as [|e es IH]; intros s Hv; [auto|].
  cbn [notifications run fold_left].
  destruct (IH (step e s) (victory_step e s Hv)) as [-> H]. split; [|exact H].
  destruct e; try reflexivity. unfold notifies. now rewrite Hv.
Qed.

Lemma notifies_victory (s : Session) :
  notifies s = true <-> gameState (gameLoop s) = victory /\ gameState s = playing.
Proof.
  unfold notifies. destruct (GameState_eq_playing (gameState s)) as [Hp|Hp].
  - rewrite Hp. pose proof (gameLoop_victory_iff s Hp) as Hv.
    unfold victory_iff_cleared in Hv. rewrite Hv. tauto.
  - destruct (gameState s); try congruence; split; intros H;
      try discriminate; destruct H; congruence.
Qed.

Lemma GameState_eq_victory (g : GameState) : g = victory \/ g <> victory.
Proof. destruct g; auto; right; discriminate. Qed.

End Pausing.

(** X8.  Pause: pausing a game in play, letting any number of frames
    pass and resuming gives the session back exactly as it was, ball,
    paddle, blocks, score and lives; while the pause lasts no frame
    changes anything, and a game that is won or lost cannot be paused. *)
Theorem pause_freezes_the_game (n : nat) (s : Physics.Session) :
  Physics.gameState s = Physics.playing ->
  Physics.gameState (Physics.togglePause s) = Physics.paused /\
  Physics.run (repeat Physics.Frame n) (Physics.togglePause s) =
    Physics.togglePause s /\
  Physics.run (Physics.TogglePause :: repeat Physics.Frame n ++ [Physics.TogglePause]) s
    = s /\
  (forall t, Physics.gameState t = Physics.victory \/
             Physics.gameState t = Physics.defeat -> Physics.togglePause t = t).
Proof.
  intros Hp.
  assert (H1 : Physics.gameState (Physics.togglePause s) = Physics.paused).
  { unfold Physics.togglePause. now rewrite Hp. }
  assert (H2 : Physics.run (repeat Physics.Frame n) (Physics.togglePause s) =
               Physics.togglePause s).
  { apply idle_frames. congruence. }
  split; [exact H1|]. split; [exact H2|]. split.
  - change (Physics.TogglePause :: repeat Physics.Frame n ++ [Physics.TogglePause])
      with ([Physics.TogglePause] ++ repeat Physics.Frame n ++ [Physics.TogglePause]).
    rewrite !run_app. cbn [Physics.run fold_left Physics.step]. fold (Physics.run).
    change (fold_left (fun s e => Physics.step e s) (repeat Physics.Frame n)
              (Physics.togglePause s))
      with (Physics.run (repeat Physics.Frame n) (Physics.togglePause s)).
    rewrite H2. unfold Physics.togglePause at 1. rewrite H1.
    unfold Physics.togglePause. rewrite Hp.
    cbn [Physics.score Physics.lives Physics.blocks Physics.ball Physics.paddle
         Physics.ballLaunched Physics.keys Physics.mouseX].
    destruct s. cbn in Hp. now subst.
  - intros t [Ht|Ht]; unfold Physics.togglePause; now rewrite Ht.
Qed.

(** [pause_freezes_the_game] on a fresh session and three frames. *)
Lemma pause_freezes_the_game_witness :
  Physics.run (Physics.TogglePause :: repeat Physics.Frame 3 ++ [Physics.TogglePause])
              (Physics.initial []) = Physics.initial [].
Proof.
  exact (proj1 (proj2 (proj2 (pause_freezes_the_game 3 (Physics.initial []) eq_refl)))).
Defined.

(** X9.  [onLevelComplete] is called at most once in a session, and it is
    called exactly when the session reaches [victory]: a session that has
    not been won yet and goes through any events reports its level as
    complete once if it ends in [victory] and never otherwise. *)
Theorem level_complete_reported_once (es : list Physics.Event) (s : Physics.Session) :
  Physics.gameState s <> Physics.victory ->
  (Lifetime.notifications es s <= 1)%nat /\
  (Lifetime.notifications es s = 1%nat <->
   Physics.gameState (Physics.run es s) = Physics.victory).
Proof.
  revert s. induction es as [|e es IH]; intros s Hs.
  - cbn. split; [lia|]. split; [discriminate | congruence].
  - cbn [Lifetime.notifications Physics.run fold_left].
    change (fold_left (fun s e => Physics.step e s) es (Physics.step e s))
      with (Physics.run es (Physics.step e s)).
    destruct (GameState_eq_victory (Physics.gameState (Physics.step e s)))
      as [Hv|Hv].
    + destruct (victory_silent es _ Hv) as [-> Hr]. rewrite Hr.
      destruct (step_victory e s Hv) as [?|[-> Hp]]; [contradiction|].
      assert (Hn : Lifetime.notifies s = true).
      { apply notifies_victory. auto. }
      rewrite Hn. split; [lia|]. split; auto.
    + destruct (IH _ Hv) as [H1 H2].
      assert (Hn : match e with
                   | Physics.Frame => if Lifetime.notifies s then 1%nat else 0%nat
                   | _ => 0%nat
                   end = 0%nat).
      { destruct e; try reflexivity.
        destruct (Lifetime.notifies s) eqn:En; [|reflexivity].
        apply notifies_victory in En. destruct En. contradiction. }
      rewrite Hn. cbn [Nat.add]. split; assumption.
Qed.

(** [level_complete_reported_once] on a level without blocks, which the
    first frame wins. *)
Lemma level_complete_reported_once_witness :
  Physics.gameState (Physics.initial []) <> Physics.victory /\
  (Lifetime.notifications [Physics.Frame] (Physics.initial []) <= 1)%nat.
Proof.
  assert (H : Physics.gameState (Physics.initial []) <> Physics.victory)
    by (cbn [Physics.initial Physics.gameState]; discriminate).
  split; [exact H|].
  exact (proj1 (level_complete_reported_once [Physics.Frame] (Physics.initial []) H)).
Defined.

(* ================================================================== *)
(** * How many blocks a level has, and what they look like *)
(* ================================================================== *)

Section EmitRules.

Import Random Layout Census.
Local Open Scope Q_scope.
Local Open Scope gen_scope.

Variable R : Source -> Prop.
Variable P : Block -> Prop.

Lemma emits_ret {A} (Q : A -> Prop) (a : A) : Q a -> emits R Q P 0 (ret a).
Proof.
  intros Ha r Hr. exists a, r, []. repeat split; auto.
  intros l. unfold ret. now rewrite app_nil_r.
Qed.

Lemma emits_bind {A B} (Q1 : A -> Prop) (Q2 : B -> Prop) (n m : nat)
    (c : Gen A) (k : A -> Gen B) :
  emits R Q1 P n c -> (forall a, Q1 a -> emits R Q2 P m (k a)) ->
  emits R Q2 P (n + m) (bind c k).
Proof.
  intros Hc Hk r Hr.
  destruct (Hc r Hr) as (a & r1 & l1 & Hr1 & Ha & Hl1 & Hn1 & E1).
  destruct (Hk a Ha r1 Hr1) as (b & r2 & l2 & Hr2 & Hb & Hl2 & Hn2 & E2).
  exists b, r2, (l1 ++ l2). repeat split; auto.
  - apply Forall_app; auto.
  - rewrite length_app. lia.
  - intros l. unfold bind. rewrite E1, E2. now rewrite app_assoc.
Qed.

Lemma emits_bind0 {A B} (Q1 : A -> Prop) (Q2 : B -> Prop) (m : nat)
    (c : Gen A) (k : A -> Gen B) :
  emits R Q1 P 0 c -> (forall a, Q1 a -> emits R Q2 P m (k a)) ->
  emits R Q2 P m (bind c k).
Proof. exact (emits_bind Q1 Q2 0 m c k). Qed.

Lemma emits_weaken {A} (Q Q' : A -> Prop) (n n' : nat) (c : Gen A) :
  emits R Q P n c -> (n <= n')%nat -> (forall a, Q a -> Q' a) ->
  emits R Q' P n' c.
Proof.
  intros Hc Hn HQ r Hr.
  destruct (Hc r Hr) as (a & r1 & l1 & Hr1 & Ha & Hl1 & Hn1 & E1).
  exists a, r1, l1. repeat split; auto. lia.
Qed.

Lemma emits_seed (seed : Z) :
  R (seededRandom seed) -> emits R (fun _ => True) P 0 (seed_random seed).
Proof.
  intros Hs r _. exists tt, (seededRandom seed), []. repeat split; auto.
  intros l. unfold seed_random. simpl. now rewrite app_nil_r.
Qed.

Lemma emits_push (b : Block) : P b -> emits R (fun _ => True) P 1 (push b).
Proof.
  intros Hb r Hr. exists tt, r, [b]. repeat split; auto.
Qed.

Lemma emits_when (c : bool) (n : nat) (body : Gen unit) :
  (c = true -> emits R (fun _ => True) P n body) ->
  emits R (fun _ => True) P n (when c body).
Proof.
  destruct c; simpl; intros H; [now apply H|].
  apply emits_weaken with (Q := fun _ : unit => True) (n := O);
    [now apply emits_ret | lia | auto].
Qed.

Lemma emits_place (m M bx by_ w h : Q) (c : string) :
  (fits m M bx by_ w h = true -> P (mkBlock bx by_ w h true c)) ->
  emits R (fun _ => True) P 1 (place m M bx by_ w h c).
Proof.
  intros H. unfold place. apply emits_when. intros Hf.
  apply emits_push. now apply H.
Qed.

Lemma emits_for_from (body : Z -> Gen unit) (n k : nat) :
  (forall i, emits R (fun _ => True) P n (body i)) ->
  forall i, emits R (fun _ => True) P (k * n) (for_from i k body).
Proof.
  intros Hb. induction k as [|k IH]; intros i; cbn [for_from Nat.mul].
  - now apply emits_ret.
  - apply emits_bind with (Q1 := fun _ : unit => True); [apply Hb | intros _ _; apply IH].
Qed.

Lemma emits_for_loop (bound : Z) (body : Z -> Gen unit) (n : nat) :
  (forall i, emits R (fun _ => True) P n (body i)) ->
  emits R (fun _ => True) P (Z.to_nat bound * n) (for_loop bound body).
Proof. intros Hb. now apply emits_for_from. Qed.

(** A loop whose body appends at most one block. *)
Lemma emits_for_each (bound : Z) (body : Z -> Gen unit) :
  (forall i, emits R (fun _ => True) P 1 (body i)) ->
  emits R (fun _ => True) P (Z.to_nat bound) (for_loop bound body).
Proof.
  intros Hb. rewrite <- (Nat.mul_1_r (Z.to_nat bound)). now apply emits_for_loop.
Qed.

Lemma emits_forEach {A S} (xs : list A) (body : A -> Z -> S -> Gen S) (n : nat) :
  (forall v i a, emits R (fun _ => True) P n (body v i a)) ->
  forall acc, emits R (fun _ => True) P (List.length xs * n) (forEach xs body acc).
Proof.
  intros Hb. unfold forEach. generalize 0%Z.
  induction xs as [|v xs IH]; intros i acc; cbn [forEach_from List.length Nat.mul].
  - now apply emits_ret.
  - apply emits_bind with (Q1 := fun _ : S => True); [apply Hb | intros a _; apply IH].
Qed.

End EmitRules.

Section EmitRandom.

Import Random Layout Census.
Local Open Scope Q_scope.

Variable P : Block -> Prop.

(** [random()] on a source whose state is not negative returns a number
    of the unit interval. *)
Lemma emits_random : emits nonneg unit_draw P 0 random.
Proof.
  intros r Hr. exists (fst (call r)), (snd (call r)), [].
  split; [now apply nonneg_call|]. split.
  - rewrite call_value. apply unit_interval, advance_nonneg, Hr.
  - repeat split; auto. intros l. unfold random. simpl. now rewrite app_nil_r.
Qed.

Lemma floor_unit (v : Q) (n : Z) :
  unit_draw v -> (0 < n)%Z -> (0 <= Math_floor (v * inject_Z n) < n)%Z.
Proof.
  intros [Hlo Hhi] Hn.
  assert (HN : 0 < inject_Z n)
    by (change 0 with (inject_Z 0); rewrite <- Zlt_Qlt; lia).
  unfold Math_floor. split.
  - change 0%Z with (Qfloor (inject_Z 0)). apply Qfloor_resp_le.
    change (inject_Z 0) with 0. apply Qmult_le_0_compat; [exact Hlo|].
    apply Qlt_le_weak, HN.
  - rewrite Zlt_Qlt. eapply Qle_lt_trans; [apply Qfloor_le|].
    set (N := inject_Z n) in *. clearbody N. Lqa.nra.
Qed.

Lemma color_at_palette (v : Q) :
  unit_draw v ->
  In (color_at colors5 (Math_floor (v * num (Z.of_nat (List.length colors5))))) colors5.
Proof.
  intros Hv.
  destruct (index_defined colors5
              (Math_floor (v * num (Z.of_nat (List.length colors5)))))
    as (c & Ec & Hc).
  { apply (floor_unit v 5 Hv). reflexivity. }
  unfold color_at. now rewrite Ec.
Qed.

End EmitRandom.

(** One step of an [emits] goal of straight-line generator code: a draw,
    a loop of guarded pushes, or a guarded push. *)
Ltac emits_step :=
  lazymatch goal with
  | |- Census.emits _ _ _ _ (Layout.bind Layout.random _) =>
      apply emits_bind0 with (Q1 := Census.unit_draw);
      [apply emits_random | intros ? ?]
  | |- Census.emits _ _ _ _ (Layout.for_loop _ _) => apply emits_for_each; intros ?
  | |- Census.emits _ _ _ _ (Layout.place _ _ _ _ _ _ _) => apply emits_place; intros _
  end.

Section EmitPatterns.

Import Random Layout Census.
Local Open Scope Q_scope.

Variables Math_cos Math_sin : Q -> Q.
Variables m M : Q.
Variables (cmin cmax : Z) (wlo whi hlo hhi : Q).

Lemma cluster_block (k : Cluster) (bx by_ : Q) :
  cluster_in cmin cmax wlo whi hlo hhi k ->
  block_in wlo whi hlo hhi
    (mkBlock bx by_ (blockWidth k) (blockHeight k) true (cluster_color k)).
Proof. intros (_ & Hw & Hh & Hc). unfold block_in. cbn. auto. Qed.

Ltac emits_pattern k Hk :=
  destruct k as [cx cy pat cnt col bw bh];
  pose proof (fun bx by_ => cluster_block _ bx by_ Hk) as Hb; cbn in Hb;
  repeat emits_step; apply Hb.

Lemma emits_tight6 (k : Cluster) :
  cluster_in cmin cmax wlo whi hlo hhi k ->
  emits nonneg (fun _ => True) (block_in wlo whi hlo hhi) (Z.to_nat (blockCount k))
        (tight6 m M k).
Proof. intros Hk. unfold tight6. emits_pattern k Hk. Qed.

Lemma emits_scattered6 (k : Cluster) :
  cluster_in cmin cmax wlo whi hlo hhi k ->
  emits nonneg (fun _ => True) (block_in wlo whi hlo hhi) (Z.to_nat (blockCount k))
        (scattered6 Math_cos Math_sin m M k).
Proof. intros Hk. unfold scattered6. emits_pattern k Hk. Qed.

Lemma emits_line6 (k : Cluster) :
  cluster_in cmin cmax wlo whi hlo hhi k ->
  emits nonneg (fun _ => True) (block_in wlo whi hlo hhi) (Z.to_nat (blockCount k))
        (line6 Math_cos Math_sin m M k).
Proof. intros Hk. unfold line6. emits_pattern k Hk. Qed.

Lemma emits_arc6 (k : Cluster) :
  cluster_in cmin cmax wlo whi hlo hhi k ->
  emits nonneg (fun _ => True) (block_in wlo whi hlo hhi) (Z.to_nat (blockCount k))
        (arc6 Math_cos Math_sin m M k).
Proof. intros Hk. unfold arc6. emits_pattern k Hk. Qed.

Lemma emits_tight (k : Cluster) :
  cluster_in cmin cmax wlo whi hlo hhi k ->
  emits nonneg (fun _ => True) (block_in wlo whi hlo hhi) (Z.to_nat (blockCount k))
        (tight m M k).
Proof. intros Hk. unfold tight. emits_pattern k Hk. Qed.

Lemma emits_scattered (k : Cluster) :
  cluster_in cmin cmax wlo whi hlo hhi k ->
  emits nonneg (fun _ => True) (block_in wlo whi hlo hhi) (Z.to_nat (blockCount k))
        (scattered Math_cos Math_sin m M k).
Proof. intros Hk. unfold scattered. emits_pattern k Hk. Qed.

Lemma emits_line (k : Cluster) :
  cluster_in cmin cmax wlo whi hlo hhi k ->
  emits nonneg (fun _ => True) (block_in wlo whi hlo hhi) (Z.to_nat (blockCount k))
        (line Math_cos Math_sin m M k).
Proof. intros Hk. unfold line. emits_pattern k Hk. Qed.

Lemma emits_arc (k : Cluster) :
  cluster_in cmin cmax wlo whi hlo hhi k ->
  emits nonneg (fun _ => True) (block_in wlo whi hlo hhi) (Z.to_nat (blockCount k))
        (arc Math_cos Math_sin m M k).
Proof. intros Hk. unfold arc. emits_pattern k Hk. Qed.

Lemma emits_spiral (k : Cluster) :
  cluster_in cmin cmax wlo whi hlo hhi k ->
  emits nonneg (fun _ => True) (block_in wlo whi hlo hhi) (Z.to_nat (blockCount k))
        (spiral Math_cos Math_sin m M k).
Proof. intros Hk. unfold spiral. emits_pattern k Hk. Qed.

Lemma emits_nothing (n : nat) :
  emits nonneg (fun _ : unit => True) (block_in wlo whi hlo hhi) n (ret tt).
Proof.
  apply emits_weaken with (Q := fun _ : unit => True) (n := O);
    [now apply emits_ret | lia | auto].
Qed.

(** A cluster appends at most as many blocks as it drew for its count. *)
Lemma emits_layout_cluster6 (k : Cluster) :
  cluster_in cmin cmax wlo whi hlo hhi k ->
  emits nonneg (fun _ => True) (block_in wlo whi hlo hhi) (Z.to_nat cmax)
        (layout_cluster6 Math_cos Math_sin m M k).
Proof.
  intros Hk. assert (Hn : (Z.to_nat (blockCount k) <= Z.to_nat cmax)%nat).
  { destruct Hk as (Hc & _). lia. }
  unfold layout_cluster6.
  repeat match goal with |- context [if ?c then _ else _] => destruct c end;
    try apply emits_nothing;
    (eapply emits_weaken; [| exact Hn | auto]);
    auto using emits_tight6, emits_scattered6, emits_line6, emits_arc6.
Qed.

Lemma emits_layout_cluster (k : Cluster) :
  cluster_in cmin cmax wlo whi hlo hhi k ->
  emits nonneg (fun _ => True) (block_in wlo whi hlo hhi) (Z.to_nat cmax)
        (layout_cluster Math_cos Math_sin m M k).
Proof.
  intros Hk. assert (Hn : (Z.to_nat (blockCount k) <= Z.to_nat cmax)%nat).
  { destruct Hk as (Hc & _). lia. }
  unfold layout_cluster.
  repeat match goal with |- context [if ?c then _ else _] => destruct c end;
    try apply emits_nothing;
    (eapply emits_weaken; [| exact Hn | auto]);
    auto using emits_tight, emits_scattered, emits_line, emits_arc, emits_spiral.
Qed.

End EmitPatterns.

Section EmitLevels.

Import Random Layout Census.
Local Open Scope Q_scope.

Variables Math_cos Math_sin : Q -> Q.
Variables m M : Q.
Variable P : Block -> Prop.

Lemma emits_draw_cluster6 :
  emits nonneg (cluster_in 5 8 40 55 18 26) P 0 (draw_cluster6 m M).
Proof.
  unfold draw_cluster6.
  apply emits_bind0 with (Q1 := unit_draw); [apply emits_random | intros r1 H1].
  apply emits_bind0 with (Q1 := unit_draw); [apply emits_random | intros r2 H2].
  apply emits_bind0 with (Q1 := unit_draw); [apply emits_random | intros r3 H3].
  apply emits_bind0 with (Q1 := unit_draw); [apply emits_random | intros r4 H4].
  apply emits_bind0 with (Q1 := unit_draw); [apply emits_random | intros r5 H5].
  apply emits_bind0 with (Q1 := unit_draw); [apply emits_random | intros r6 H6].
  apply emits_bind0 with (Q1 := unit_draw); [apply emits_random | intros r7 H7].
  apply emits_ret. unfold cluster_in.
  cbn [blockCount blockWidth blockHeight cluster_color].
  pose proof (floor_unit r4 4 H4 eq_refl) as Hc.
  change (inject_Z 4) with 4 in Hc.
  unfold unit_draw in H6, H7.
  split; [lia|]. split; [Lqa.lra|]. split; [Lqa.lra|].
  now apply color_at_palette.
Qed.

Lemma emits_draw_cluster :
  emits nonneg (cluster_in 4 9 35 55 18 28) P 0 (draw_cluster m M).
Proof.
  unfold draw_cluster.
  apply emits_bind0 with (Q1 := unit_draw); [apply emits_random | intros r1 H1].
  apply emits_bind0 with (Q1 := unit_draw); [apply emits_random | intros r2 H2].
  apply emits_bind0 with (Q1 := unit_draw); [apply emits_random | intros r3 H3].
  apply emits_bind0 with (Q1 := unit_draw); [apply emits_random | intros r4 H4].
  apply emits_bind0 with (Q1 := unit_draw); [apply emits_random | intros r5 H5].
  apply emits_bind0 with (Q1 := unit_draw); [apply emits_random | intros r6 H6].
  apply emits_bind0 with (Q1 := unit_draw); [apply emits_random | intros r7 H7].
  apply emits_ret. unfold cluster_in.
  cbn [blockCount blockWidth blockHeight cluster_color].
  pose proof (floor_unit r4 6 H4 eq_refl) as Hc.
  change (inject_Z 6) with 6 in Hc.
  unfold unit_draw in H6, H7.
  split; [lia|]. split; [Lqa.lra|]. split; [Lqa.lra|].
  now apply color_at_palette.
Qed.

End EmitLevels.

Section EmitGenerate.

Import Random Layout Census.
Local Open Scope Q_scope.

Variables Math_cos Math_sin : Q -> Q.

(** Level 6: ten clusters of at most eight blocks. *)
Lemma emits_level6 :
  emits nonneg (fun _ => True) (block_in 40 55 18 26) 80 (level6 Math_cos Math_sin).
Proof.
  unfold level6.
  apply emits_bind0 with (Q1 := fun _ : unit => True).
  - apply emits_seed. unfold nonneg. simpl. lia.
  - intros _ _. cbv zeta.
    apply (emits_for_loop nonneg (block_in 40 55 18 26) 10 _ 8). intros c.
    apply emits_bind0 with (Q1 := cluster_in 5 8 40 55 18 26).
    + apply emits_draw_cluster6.
    + intros k Hk. now apply (emits_layout_cluster6 Math_cos Math_sin 50 420 5 8).
Qed.

(** Levels of 100 and more: [numClusters] clusters of at most nine
    blocks. *)
Lemma emits_procedural (level : Z) :
  (0 <= level)%Z ->
  emits nonneg (fun _ => True) (block_in 35 55 18 28)
        (Z.to_nat (numClusters level) * 9) (procedural Math_cos Math_sin level).
Proof.
  intros Hl. unfold procedural.
  apply emits_bind0 with (Q1 := fun _ : unit => True).
  - apply emits_seed. unfold nonneg. simpl. exact Hl.
  - intros _ _. cbv zeta. apply emits_for_loop. intros c. unfold cluster_round.
    apply emits_bind0 with (Q1 := cluster_in 4 9 35 55 18 28).
    + apply emits_draw_cluster.
    + intros k Hk. now apply (emits_layout_cluster Math_cos Math_sin 50 420 4 9).
Qed.

(** What [emits] says of a whole run of the generator. *)
Lemma emits_run (P : Block -> Prop) (n : nat) (c : Gen unit) :
  emits nonneg (fun _ => True) P n c ->
  let l := blocks (snd (c (mkGen (seededRandom 0) []))) in
  Forall P l /\ (List.length l <= n)%nat.
Proof.
  intros H. destruct (H (seededRandom 0)) as (a & r' & l' & _ & _ & Hp & Hn & E).
  - unfold nonneg. simpl. lia.
  - cbv zeta. rewrite (E []). cbn [snd blocks app]. auto.
Qed.

Lemma numClusters_range (level : Z) :
  (100 <= level)%Z -> (6 <= numClusters level <= 11)%Z.
Proof.
  intros Hl. rewrite numClusters_div, levelDifficulty_mod by exact Hl.
  pose proof (Z.mod_pos_bound (level - 100) 12 eq_refl) as Hr.
  assert (0 <= (level - 100) mod 12 / 2 < 6)%Z.
  { split; [apply Z.div_pos; lia | apply Z.div_lt_upper_bound; lia]. }
  lia.
Qed.

(** The branch of the generator a level takes. *)
Lemma generate_branch (level : Z) :
  (level = 1 \/ level = 2 \/ level = 3 \/ level = 4 \/ level = 5 \/ level = 6 \/
   100 <= level \/
   (level <> 1 /\ level <> 2 /\ level <> 3 /\ level <> 4 /\ level <> 5 /\
    level <> 6 /\ level < 100))%Z.
Proof. lia. Qed.

Lemma generate_procedural (level : Z) :
  (100 <= level)%Z ->
  generate Math_cos Math_sin level = procedural Math_cos Math_sin level.
Proof.
  intros Hl. unfold generate.
  replace (level =? 1)%Z with false by lia.
  replace (level =? 2)%Z with false by lia.
  replace (level =? 3)%Z with false by lia.
  replace (level =? 4)%Z with false by lia.
  replace (level =? 5)%Z with false by lia.
  replace (level =? 6)%Z with false by lia.
  replace (level >=? 100)%Z with true by lia. reflexivity.
Qed.

Lemma generate_unknown (level : Z) :
  (level <> 1 /\ level <> 2 /\ level <> 3 /\ level <> 4 /\ level <> 5 /\
   level <> 6 /\ level < 100)%Z ->
  generateBlocksForLevel Math_cos Math_sin level = [].
Proof.
  intros H. unfold generateBlocksForLevel, generate.
  replace (level =? 1)%Z with false by lia.
  replace (level =? 2)%Z with false by lia.
  replace (level =? 3)%Z with false by lia.
  replace (level =? 4)%Z with false by lia.
  replace (level =? 5)%Z with false by lia.
  replace (level =? 6)%Z with false by lia.
  replace (level >=? 100)%Z with false by lia. reflexivity.
Qed.

Lemma level6_count :
  (List.length (generateBlocksForLevel Math_cos Math_sin 6) <= 80)%nat.
Proof. exact (proj2 (emits_run _ _ _ emits_level6)). Qed.

Lemma procedural_count (level : Z) :
  (100 <= level)%Z ->
  (List.length (generateBlocksForLevel Math_cos Math_sin level)
   <= Z.to_nat (numClusters level) * 9)%nat.
Proof.
  intros Hl. unfold generateBlocksForLevel. rewrite generate_procedural by exact Hl.
  apply (emits_run _ _ _ (emits_procedural level ltac:(lia))).
Qed.

(** The hand-authored levels push without a test: their sizes are read
    off the loops. *)
Lemma authored_counts :
  List.length (generateBlocksForLevel Math_cos Math_sin 1) = 24%nat /\
  List.length (generateBlocksForLevel Math_cos Math_sin 2) = 8%nat /\
  List.length (generateBlocksForLevel Math_cos Math_sin 3) = 28%nat /\
  List.length (generateBlocksForLevel Math_cos Math_sin 4) = 32%nat /\
  List.length (generateBlocksForLevel Math_cos Math_sin 5) = 36%nat.
Proof. repeat split; reflexivity. Qed.

(** No level has more than 99 blocks. *)
Lemma level_count_99 (level : Z) :
  (List.length (generateBlocksForLevel Math_cos Math_sin level) <= 99)%nat.
Proof.
  destruct authored_counts as (H1 & H2 & H3 & H4 & H5).
  destruct (generate_branch level) as [E|[E|[E|[E|[E|[E|[E|E]]]]]]];
    try (subst; lia).
  - subst. pose proof level6_count. lia.
  - pose proof (procedural_count level E). pose proof (numClusters_range level E). lia.
  - rewrite generate_unknown by exact E. cbn. lia.
Qed.

End EmitGenerate.

(** X10.  How many blocks a level has, whatever the host's cosine and
    sine return: levels 1 to 5 have exactly 24, 8, 28, 32 and 36 blocks;
    level 6 has at most 80; a level of 100 or more has at most nine
    blocks for each of its clusters, hence at most 99; every other level
    has no block at all. *)
Theorem level_block_counts (Math_cos Math_sin : Q -> Q) (level : Z) :
  let n := List.length (Layout.generateBlocksForLevel Math_cos Math_sin level) in
  (level = 1 -> n = 24%nat)%Z /\ (level = 2 -> n = 8%nat)%Z /\
  (level = 3 -> n = 28%nat)%Z /\ (level = 4 -> n = 32%nat)%Z /\
  (level = 5 -> n = 36%nat)%Z /\ (level = 6 -> (n <= 80)%nat)%Z /\
  (100 <= level ->
     Z.of_nat n <= 9 * Layout.numClusters level /\ (n <= 99)%nat)%Z /\
  ((level < 100 /\ ~ 1 <= level <= 6)%Z -> n = 0%nat) /\
  (n <= 99)%nat.
Proof.
  intros n.
  destruct (authored_counts Math_cos Math_sin) as (A1 & A2 & A3 & A4 & A5).
  assert (H1 : (level = 1 -> n = 24%nat)%Z) by (intros E; unfold n; now subst).
  assert (H2 : (level = 2 -> n = 8%nat)%Z) by (intros E; unfold n; now subst).
  assert (H3 : (level = 3 -> n = 28%nat)%Z) by (intros E; unfold n; now subst).
  assert (H4 : (level = 4 -> n = 32%nat)%Z) by (intros E; unfold n; now subst).
  assert (H5 : (level = 5 -> n = 36%nat)%Z) by (intros E; unfold n; now subst).
  assert (H6 : (level = 6 -> (n <= 80)%nat)%Z).
  { intros E. unfold n. subst. apply level6_count. }
  assert (H7 : (100 <= level ->
                Z.of_nat n <= 9 * Layout.numClusters level /\ (n <= 99)%nat)%Z).
  { intros Hl. pose proof (numClusters_range level Hl) as Hc.
    pose proof (procedural_count Math_cos Math_sin level Hl) as Hn. fold n in Hn.
    lia. }
  assert (H8 : (level < 100 /\ ~ 1 <= level <= 6)%Z -> n = 0%nat).
  { intros Hu. unfold n. rewrite generate_unknown; [reflexivity | lia]. }
  repeat (split; [assumption|]).
  destruct (generate_branch level) as [E|[E|[E|[E|[E|[E|[E|E]]]]]]]; lia.
Qed.

Section GeneratedAlive.

Import Random Layout Census.
Local Open Scope Q_scope.

Variables Math_cos Math_sin : Q -> Q.

Lemma block_in_alive (wlo whi hlo hhi : Q) (l : list Block) :
  Forall (block_in wlo whi hlo hhi) l -> forallb alive l = true.
Proof.
  intros H. apply forallb_forall. rewrite Forall_forall in H.
  intros b Hb. exact (proj1 (H b Hb)).
Qed.

Lemma level6_shape :
  Forall (block_in 40 55 18 26) (generateBlocksForLevel Math_cos Math_sin 6).
Proof. exact (proj1 (emits_run _ _ _ (emits_level6 Math_cos Math_sin))). Qed.

Lemma procedural_shape (level : Z) :
  (100 <= level)%Z ->
  Forall (block_in 35 55 18 28) (generateBlocksForLevel Math_cos Math_sin level).
Proof.
  intros Hl. unfold generateBlocksForLevel. rewrite generate_procedural by exact Hl.
  apply (emits_run _ _ _ (emits_procedural Math_cos Math_sin level ltac:(lia))).
Qed.

(** Every block the generator returns is alive. *)
Lemma generated_alive (level : Z) :
  forallb alive (generateBlocksForLevel Math_cos Math_sin level) = true.
Proof.
  destruct (generate_branch level) as [E|[E|[E|[E|[E|[E|[E|E]]]]]]];
    try (subst; reflexivity).
  - subst. exact (block_in_alive _ _ _ _ _ level6_shape).
  - exact (block_in_alive _ _ _ _ _ (procedural_shape level E)).
  - now rewrite generate_unknown.
Qed.

End GeneratedAlive.

(** X11.  What the blocks of the random levels look like, whatever the
    host's cosine and sine return: every block of a level of 100 or more
    is alive, between 35 and 55 wide and between 18 and 28 high, and has
    one of the five colours of the palette; every block of level 6 is
    alive, between 40 and 55 wide and between 18 and 26 high, in a colour
    of the same palette. *)
Theorem random_level_block_shape (Math_cos Math_sin : Q -> Q) (level : Z) :
  let shape (wlo whi hlo hhi : Q) (b : Layout.Block) :=
    Layout.alive b = true /\
    (wlo <= Layout.width b < whi)%Q /\ (hlo <= Layout.height b < hhi)%Q /\
    In (Layout.color b)
       ["#f97316"; "#06b6d4"; "#a855f7"; "#ec4899"; "#eab308"]%string in
  let l := Layout.generateBlocksForLevel Math_cos Math_sin level in
  ((100 <= level)%Z -> Forall (shape 35 55 18 28)%Q l) /\
  (level = 6%Z -> Forall (shape 40 55 18 26)%Q l).
Proof.
  intros shape l. split.
  - intros Hl. exact (procedural_shape Math_cos Math_sin level Hl).
  - intros ->. exact (level6_shape Math_cos Math_sin).
Qed.

Section WinningScore.

Import Physics Lifetime.
Local Open Scope Z_scope.

Lemma all_dead_dead_count (ks : list Block) :
  all_dead ks = true -> dead_count ks = Z.of_nat (List.length ks).
Proof.
  unfold all_dead. induction ks as [|k ks IH]; [reflexivity|].
  cbn [forallb]. rewrite andb_true_iff. intros [Hk Hks].
  rewrite dead_count_cons, IH by exact Hks.
  apply negb_true_iff in Hk. rewrite Hk. cbn [List.length]. lia.
Qed.

Lemma all_alive_of_layout (l : list Layout.Block) :
  all_alive (map of_layout l) = forallb Layout.alive l.
Proof.
  unfold all_alive. induction l as [|k l IH]; [reflexivity|].
  cbn [map forallb]. now rewrite IH.
Qed.

(** The bookkeeping of score and blocks over the life of a component. *)
Lemma lifetime_score (generated : list Block) (acts : list Action) :
  all_alive generated = true ->
  let s := lifetime generated acts (initial generated) in
  score s = 10 * dead_count (blocks s) /\
  List.length (blocks s) = List.length generated.
Proof.
  intros Ha. cbv zeta. induction acts as [|a acts [IH1 IH2]] using rev_ind.
  - cbn. rewrite (all_alive_dead_count generated Ha). split; reflexivity.
  - rewrite lifetime_snoc. destruct a as [e|]; cbn [perform].
    + destruct (step_score_blocks e (lifetime generated acts (initial generated)))
        as (n & Hn & Es & Ed & El).
      rewrite Es, Ed, El, IH1. split; [lia | exact IH2].
    + cbn [handleRestart score blocks].
      rewrite (all_alive_dead_count generated Ha). split; reflexivity.
Qed.

End WinningScore.

(** X12.  The score of a won level: for every level, played through any
    input and any number of restarts, the level starts with all its
    blocks alive, and when the state is [victory] the score is exactly ten
    times the number of blocks of the level (240, 80, 280, 320 and 360 on
    levels 1 to 5); in every state the score is at most 990. *)
Theorem winning_score (Math_cos Math_sin : Q -> Q) (level : Z)
    (acts : list Lifetime.Action) :
  Layout.bounded Math_cos -> Layout.bounded Math_sin ->
  let generated :=
    map Physics.of_layout (Layout.generateBlocksForLevel Math_cos Math_sin level) in
  let s := Lifetime.lifetime generated acts (Physics.initial generated) in
  Lifetime.all_alive generated = true /\
  (Physics.gameState s = Physics.victory ->
   Physics.score s = (10 * Z.of_nat (List.length generated))%Z) /\
  (Physics.score s <= 990)%Z.
Proof.
  intros Hc Hs generated s.
  assert (Ha : Lifetime.all_alive generated = true).
  { unfold generated. rewrite all_alive_of_layout. apply generated_alive. }
  destruct (lifetime_score generated acts Ha) as [Hscore Hlen]. fold s in Hscore, Hlen.
  split; [exact Ha|]. split.
  - intros Hv.
    assert (Hg : Forall Physics.in_canvas generated)
      by (apply generated_in_canvas; assumption).
    destruct (lifetime_mounted generated acts Hg) as ((_ & _ & [Hi|Hu]) & _).
    + fold s in Hi. apply Hi in Hv.
      rewrite Hscore, (all_dead_dead_count _ Hv), Hlen. reflexivity.
    + fold s in Hu. destruct Hu as (_ & _ & [Hp|Hp] & _); congruence.
  - pose proof (dead_count_bounds (Physics.blocks s)) as Hb. rewrite Hlen in Hb.
    pose proof (level_count_99 Math_cos Math_sin level) as Hn.
    unfold generated in Hb. rewrite length_map in Hb. lia.
Qed.

(** [winning_score] on level 1 with a constant cosine and sine. *)
Lemma winning_score_witness :
  let generated :=
    map Physics.of_layout
        (Layout.generateBlocksForLevel (fun _ => 1%Q) (fun _ => 0%Q) 1) in
  let s := Lifetime.lifetime generated
             [Lifetime.Act (Physics.Click (5 / 10)); Lifetime.Act Physics.Frame]
             (Physics.initial generated) in
  Layout.bounded (fun _ => 1%Q) /\ Layout.bounded (fun _ => 0%Q) /\
  (Physics.gameState s = Physics.victory -> Physics.score s = 240%Z).
Proof.
  intros generated s.
  assert (Hc : Layout.bounded (fun _ => 1%Q)) by (apply constant_bounded; split; discriminate).
  assert (Hs : Layout.bounded (fun _ => 0%Q)) by (apply constant_bounded; split; discriminate).
  split; [exact Hc|]. split; [exact Hs|].
  exact (proj1 (proj2 (winning_score (fun _ => 1%Q) (fun _ => 0%Q) 1
           [Lifetime.Act (Physics.Click (5 / 10)); Lifetime.Act Physics.Frame] Hc Hs))).
Defined.

(* ================================================================== *)
(** * Particles: creation and life span *)
(* ================================================================== *)

Section ParticleFacts.

Import Particles.
Local Open Scope R_scope.

Lemma spawn_length x y color rnd (n : nat) : forall i,
  List.length (spawn x y color rnd i n) = n.
Proof. induction n as [|n IH]; intros i; cbn [spawn List.length]; auto. Qed.

Lemma spawn_fresh x y color rnd (n : nat) :
  (forall j, 0 <= rnd j < 1) ->
  forall i, Forall (fresh x y color) (spawn x y color rnd i n).
Proof.
  intros Hr. induction n as [|n IH]; intros i; cbn [spawn]; constructor; [|apply IH].
  unfold fresh. cbn [px py pcolor life maxLife pdx pdy size].
  pose proof (Hr (3 * i)%nat). pose proof (Hr (3 * i + 1)%nat).
  pose proof (Hr (3 * i + 2)%nat).
  repeat split; lra.
Qed.

Lemma aged_0 (p : Particle) : aged 0 p = p.
Proof.
  destruct p. unfold aged. cbn [px py pdx pdy life maxLife size pcolor INR].
  f_equal; lra.
Qed.

Lemma age_aged (n : nat) (p : Particle) : age (aged n p) = aged (S n) p.
Proof.
  unfold age, aged. cbn [px py pdx pdy life maxLife size pcolor].
  rewrite S_INR. f_equal; lra.
Qed.

(** A particle that is no longer kept would not be kept a frame later
    either: the test of a frame can be left out before the next frame. *)
Lemma update_filter (l : list Particle) :
  update (filter (fun p => Physics.gtb (life p) 0) l) = update l.
Proof.
  unfold update. induction l as [|a l IH]; [reflexivity|].
  cbn [filter map]. destruct (Physics.gtb (life a) 0) eqn:Ea.
  - cbn [filter map]. now rewrite IH.
  - rewrite IH. replace (Physics.gtb (life (age a)) 0) with false; [reflexivity|].
    symmetry. apply gtb_false. unfold age. cbn [life].
    unfold Physics.gtb in Ea. destruct (Rlt_dec 0 (life a)); [discriminate | lra].
Qed.

(** The particles after [n] frames, in closed form. *)
Lemma frames_aged (n : nat) (ps : list Particle) :
  frames (S n) ps = filter (fun p => Physics.gtb (life p) 0) (map (aged (S n)) ps).
Proof.
  induction n as [|n IH].
  - change (frames 1 ps) with (update ps). unfold update. f_equal.
    apply map_ext. intros p. now rewrite <- age_aged, aged_0.
  - change (frames (S (S n)) ps) with (update (frames (S n) ps)).
    rewrite IH, update_filter. unfold update. f_equal.
    rewrite map_map. apply map_ext. intros p. apply age_aged.
Qed.

Lemma update_length (ps : list Particle) :
  (List.length (update ps) <= List.length ps)%nat.
Proof.
  unfold update. rewrite <- (length_map age ps). apply filter_length_le.
Qed.

End ParticleFacts.

(** X13.  [createParticles]: with particle effects switched off it leaves
    the particles as they are; switched on, and [Math.random()] returning
    numbers of [0, 1), it appends exactly [count] particles behind the
    ones there are, each at the given point and in the given colour, with
    [life = maxLife = 1], [dx] and [dy] in [-2, 2) and [size] in
    [2, 5). *)
Theorem create_particles_fresh (x y : R) (count : nat) (color : string)
    (rnd : nat -> R) (ps : list Particles.Particle) :
  (forall j, 0 <= rnd j < 1)%R ->
  Particles.createParticles false x y count color rnd ps = ps /\
  exists new,
    Particles.createParticles true x y count color rnd ps = ps ++ new /\
    List.length new = count /\
    Forall (Particles.fresh x y color) new.
Proof.
  intros Hr. split; [reflexivity|].
  exists (Particles.spawn x y color rnd 0 count).
  split; [reflexivity|]. split.
  - apply spawn_length.
  - now apply spawn_fresh.
Qed.

(** [create_particles_fresh] for the five particles of a wall hit. *)
Lemma create_particles_fresh_witness :
  exists new,
    Particles.createParticles true 8 300 5 "#00d9ff" (fun _ => 5 / 10)%R [] = new /\
    List.length new = 5%nat.
Proof.
  destruct (create_particles_fresh 8 300 5 "#00d9ff" (fun _ => 5 / 10)%R []
              ltac:(intros; lra)) as (_ & new & E & Hn & _).
  exists new. split; [exact E | exact Hn].
Defined.

(** X14.  The life of a particle: a frame never adds a particle; a
    particle created with [life = 1] is drawn in 62 frames, moving by
    [(dx, dy)] a frame with an opacity [life / maxLife] that falls from
    0.984 to 0.008, and is removed by the 63rd; so 63 frames after the
    last one was created no particle is left. *)
Theorem particle_lives_62_frames (p : Particles.Particle) (n : nat) :
  Particles.life p = 1%R -> Particles.maxLife p = 1%R ->
  (forall ps, (List.length (Particles.update ps) <= List.length ps)%nat) /\
  ((1 <= n <= 62)%nat ->
   Particles.frames n [p] = [Particles.aged n p] /\
   Particles.globalAlpha (Particles.aged n p) = (1 - INR n * (16 / 1000))%R /\
   (8 / 1000 <= Particles.globalAlpha (Particles.aged n p) <= 984 / 1000)%R) /\
  ((63 <= n)%nat -> Particles.frames n [p] = []) /\
  (forall ps, Forall (fun q => Particles.life q <= 1)%R ps ->
              Particles.frames 63 ps = []).
Proof.
  intros Hl Hm. split; [exact update_length|].
  assert (Hlate : forall k ps, (63 <= k)%nat ->
            Forall (fun q => Particles.life q <= 1)%R ps ->
            Particles.frames k ps = []).
  { intros k ps Hk Hps. destruct k as [|k]; [lia|]. rewrite frames_aged.
    induction ps as [|q ps IH]; [reflexivity|].
    inversion Hps as [|? ? Hq Hps']; subst. cbn [map filter].
    rewrite gtb_false; [now apply IH|].
    unfold Particles.aged. cbn [Particles.life].
    pose proof (le_INR 63 (S k) Hk) as H. rewrite (INR_IZR_INZ 63) in H.
    change (IZR (Z.of_nat 63)) with 63%R in H. lra. }
  split; [|split].
  - intros Hn. destruct n as [|n]; [lia|].
    assert (Hlo : (1 <= INR (S n))%R) by (apply (le_INR 1); lia).
    assert (Hhi : (INR (S n) <= 62)%R).
    { change 62%R with (IZR (Z.of_nat 62)). rewrite <- INR_IZR_INZ.
      apply le_INR. lia. }
    assert (Ea : Particles.globalAlpha (Particles.aged (S n) p)
                 = (1 - INR (S n) * (16 / 1000))%R).
    { unfold Particles.globalAlpha, Particles.aged.
      cbn [Particles.life Particles.maxLife]. rewrite Hl, Hm. field. }
    split; [|split; [exact Ea | rewrite Ea; lra]].
    rewrite frames_aged. cbn [map filter].
    rewrite (proj2 (gtb_true _ _)); [reflexivity|].
    unfold Particles.aged. cbn [Particles.life]. rewrite Hl. lra.
  - intros Hn. apply Hlate; [exact Hn|]. constructor; [lra | constructor].
  - intros ps Hps. apply Hlate; [lia | exact Hps].
Qed.

(** [particle_lives_62_frames] for a particle of a paddle hit, 62 frames
    on. *)
Lemma particle_lives_62_frames_witness :
  let p := Particles.mkParticle 400 560 1 (-1) 1 1 3 "#7c3aed" in
  Particles.frames 62 [p] = [Particles.aged 62 p].
Proof.
  intros p.
  exact (proj1 (proj1 (proj2 (particle_lives_62_frames p 62 eq_refl eq_refl))
                      ltac:(lia))).
Defined.

(* ================================================================== *)
(** * The application: unlocking and map selection *)
(* ================================================================== *)

Section Unlocking.

Import App.
Local Open Scope Z_scope.

Lemma includes_In (l : list Z) (n : Z) : includes l n = true <-> In n l.
Proof.
  unfold includes. rewrite existsb_exists. split.
  - intros (x & Hx & E). apply Z.eqb_eq in E. now subst.
  - intros H. exists n. split; [exact H | apply Z.eqb_refl].
Qed.

Lemma includes_false (l : list Z) (n : Z) : includes l n = false <-> ~ In n l.
Proof.
  rewrite <- includes_In. destruct (includes l n); split; congruence.
Qed.

Lemma handleLevelComplete_In (levelId : Z) (l : list Z) (n : Z) :
  In n (handleLevelComplete levelId l) <-> In n l \/ n = levelId + 1.
Proof.
  unfold handleLevelComplete. cbv zeta.
  destruct (includes l (levelId + 1)) eqn:E; cbn [negb].
  - apply includes_In in E. split; [auto|]. intros [H| ->]; assumption.
  - rewrite in_app_iff. cbn [In]. intuition.
Qed.

Lemma handleLevelComplete_NoDup (levelId : Z) (l : list Z) :
  NoDup l -> NoDup (handleLevelComplete levelId l).
Proof.
  intros Hl. unfold handleLevelComplete. cbv zeta.
  destruct (includes l (levelId + 1)) eqn:E; cbn [negb]; [exact Hl|].
  apply includes_false in E.
  apply NoDup_app; [exact Hl | repeat constructor; intros [] |].
  intros x Hx [<-|[]]. contradiction.
Qed.

Lemma handleLevelComplete_prefix (levelId : Z) (l : list Z) :
  exists t, handleLevelComplete levelId l = l ++ t.
Proof.
  unfold handleLevelComplete. cbv zeta.
  destruct (includes l (levelId + 1)); cbn [negb].
  - exists []. now rewrite app_nil_r.
  - eexists. reflexivity.
Qed.

Lemma completes_snoc (ls : list Z) (n : Z) (l : list Z) :
  completes (ls ++ [n]) l = handleLevelComplete n (completes ls l).
Proof. unfold completes. now rewrite fold_left_app. Qed.

End Unlocking.

(** X15.  Unlocking: [handleLevelComplete(n)] adds [n + 1] behind the
    unlocked levels unless it is there already, and removes nothing.  So
    after any sequence of completed levels, started from [[1]], a level is
    unlocked exactly if it is 1 or follows a completed level, no level is
    listed twice, the list starts with what was unlocked before, and
    completing a level a second time changes nothing. *)
Theorem unlock_progression (ls : list Z) :
  let l := App.completes ls [1%Z] in
  NoDup l /\
  (forall n, In n l <-> n = 1%Z \/ exists m, In m ls /\ n = (m + 1)%Z) /\
  (forall more, exists t, App.completes (ls ++ more) [1%Z] = l ++ t) /\
  (forall n, In n ls -> App.handleLevelComplete n l = l).
Proof.
  cbv zeta. induction ls as [|k ls (IH1 & IH2 & IH3 & IH4)] using rev_ind.
  - cbn [App.completes fold_left]. split; [repeat constructor; intros []|].
    split; [|split].
    + intros n. cbn [In]. split; [intros [<-|[]]; auto|].
      intros [->|(m & [] & _)]. auto.
    + intros more. induction more as [|k more [t Ht]] using rev_ind.
      * exists []. reflexivity.
      * rewrite app_nil_l in *. rewrite completes_snoc, Ht.
        destruct (handleLevelComplete_prefix k ([1%Z] ++ t)) as [t' ->].
        exists (t ++ t'). now rewrite app_assoc.
    + intros n [].
  - rewrite completes_snoc.
    assert (Hin : forall n, In n (App.handleLevelComplete k (App.completes ls [1%Z]))
                   <-> n = 1%Z \/ exists m, In m (ls ++ [k]) /\ n = (m + 1)%Z).
    { intros n. rewrite handleLevelComplete_In, IH2. split.
      - intros [[->|(m & Hm & ->)]| ->]; [auto| |].
        + right. exists m. split; [apply in_or_app; auto | reflexivity].
        + right. exists k. split; [apply in_or_app; cbn; auto | reflexivity].
      - intros [->|(m & Hm & ->)]; [auto|].
        apply in_app_or in Hm. destruct Hm as [Hm|[<-|[]]]; [|auto].
        left. right. exists m. auto. }
    split; [now apply handleLevelComplete_NoDup|]. split; [exact Hin|]. split.
    + intros more. rewrite <- app_assoc.
      induction more as [|j more [t Ht]] using rev_ind.
      * exists []. cbn [app]. now rewrite completes_snoc, app_nil_r.
      * replace (ls ++ [k] ++ more ++ [j]) with ((ls ++ [k] ++ more) ++ [j])
          by (now rewrite <- !app_assoc).
        rewrite completes_snoc, Ht.
        destruct (handleLevelComplete_prefix j
                    (App.handleLevelComplete k (App.completes ls [1%Z]) ++ t))
          as [t' ->].
        exists (t ++ t'). now rewrite app_assoc.
    + intros n Hn. unfold App.handleLevelComplete at 1. cbv zeta.
      replace (App.includes (App.handleLevelComplete k (App.completes ls [1%Z]))
                            (n + 1)) with true; [reflexivity|].
      symmetry. apply includes_In, Hin. right. exists n. auto.
Qed.

Section Navigation.

Import App.
Local Open Scope Z_scope.

(** The card found for a map id is the card of a curated map, with the
    lock [updatedMaps] computes. *)
Lemma card_spec (a : State) (mapId : Z) (m : MapData) :
  card a mapId = Some m ->
  id m = mapId /\ 1 <= id m <= 6 /\
  locked m = lockedNow (unlockedLevels a) (mapsScreen a) m.
Proof.
  unfold card, updatedMaps, curatedMaps. cbn [map find id].
  repeat match goal with
         | |- context [?n =? mapId] => destruct (Z.eqb_spec n mapId)
         end;
    intros E; try discriminate; injection E as <-; cbn [id locked];
    repeat split; (assumption || lia || reflexivity).
Qed.

Lemma run_snoc_app (es : list Event) (e : Event) (a : State) :
  run (es ++ [e]) a = step e (run es a).
Proof. unfold run. now rewrite fold_left_app. Qed.

(** What an event can do to the level selected and to the unlocked
    levels. *)
Lemma step_cases (e : Event) (a : State) :
  (selectedMapId (step e a) = selectedMapId a /\
   unlockedLevels (step e a) = unlockedLevels a /\
   (currentScreen (step e a) = game -> currentScreen a = game)) \/
  (exists m, e = ClickCurated (id m) /\ card a (id m) = Some m /\
             locked m = false /\ currentScreen a = maps /\
             step e a = handleSelectMap (id m) a) \/
  (exists index, e = ClickProcedural index /\ 0 <= index < 12 /\
                 currentScreen a = maps /\
                 step e a = handleSelectMap (levelIdOf index) a) \/
  (e = LevelComplete /\ currentScreen a = game /\
   selectedMapId (step e a) = selectedMapId a /\
   unlockedLevels (step e a) = handleLevelComplete (selectedMapId a) (unlockedLevels a)).
Proof.
  destruct e; cbn [step]; unfold onMaps.
  - left. destruct (currentScreen a) eqn:E; cbn; repeat split; auto;
      destruct t; cbn; congruence.
  - left. destruct (currentScreen a) eqn:E; cbn; repeat split; auto; congruence.
  - left. destruct (currentScreen a) eqn:E; cbn; repeat split; auto; congruence.
  - left. destruct (currentScreen a) eqn:E; cbn; repeat split; auto; congruence.
  - left. destruct (currentScreen a) eqn:E; cbn; repeat split; auto; congruence.
  - left. destruct (currentScreen a) eqn:E; try (repeat split; auto; congruence).
    destruct (activeTab (mapsScreen a)); try (repeat split; auto; congruence).
    destruct (card a mapId); try (repeat split; auto; congruence).
    destruct (developerMode (mapsScreen a)); cbn; repeat split; auto; congruence.
  - destruct (currentScreen a) eqn:E; try (left; repeat split; auto; congruence).
    destruct (activeTab (mapsScreen a)); try (left; repeat split; auto; congruence).
    destruct (card a mapId) as [m|] eqn:Ec; try (left; repeat split; auto; congruence).
    unfold clickCurated.
    destruct (developerMode (mapsScreen a) && instantWinMode (mapsScreen a)).
    + left. cbn. repeat split; auto; congruence.
    + destruct (locked m) eqn:El; cbn [negb].
      * left. repeat split; auto; congruence.
      * right. left. exists m. destruct (card_spec a mapId m Ec) as (<- & _ & _).
        repeat split; auto.
  - destruct (currentScreen a) eqn:E; try (left; repeat split; auto; congruence).
    destruct (activeTab (mapsScreen a)); try (left; repeat split; auto; congruence).
    destruct ((0 <=? index) && (index <? 12)) eqn:Ei;
      try (left; repeat split; auto; congruence).
    unfold clickProcedural.
    destruct (developerMode (mapsScreen a) && instantWinMode (mapsScreen a)).
    + left. cbn. repeat split; auto; congruence.
    + right. right. left. exists index. apply andb_true_iff in Ei.
      repeat split; auto; lia.
  - left. destruct (currentScreen a) eqn:E; cbn; repeat split; auto; congruence.
  - destruct (currentScreen a) eqn:E; try (left; repeat split; auto; congruence).
    right. right. right. cbn. auto.
Qed.

Lemma initial_playable : playable initial.
Proof.
  unfold playable, offered. cbn [initial selectedMapId unlockedLevels].
  split; [lia|]. split; [repeat constructor; intros []|]. split; [cbn; auto|].
  intros n [<-|[]]. auto.
Qed.

Lemma step_playable (e : Event) (a : State) : playable a -> playable (step e a).
Proof.
  intros (Hs & Hn & H1 & Hu).
  destruct (step_cases e a) as [(Es & Eu & _)|[(m & _ & Ec & _ & _ & E)|
    [(i & _ & Hi & _ & E)|(_ & _ & Es & Eu)]]]; unfold playable.
  - rewrite Es, Eu. auto.
  - rewrite E. cbn [handleSelectMap selectedMapId unlockedLevels].
    destruct (card_spec a (id m) m Ec) as (_ & Hm & _).
    repeat split; auto. left. exact Hm.
  - rewrite E. cbn [handleSelectMap selectedMapId unlockedLevels].
    repeat split; auto. right. unfold levelIdOf. lia.
  - rewrite Es, Eu. split; [exact Hs|]. split; [now apply handleLevelComplete_NoDup|].
    split; [apply handleLevelComplete_In; auto|].
    intros n Hin. apply handleLevelComplete_In in Hin. destruct Hin as [Hin| ->].
    + now apply Hu.
    + right. replace (selectedMapId a + 1 - 1) with (selectedMapId a) by ring.
      exact Hs.
Qed.

End Navigation.

(** X16.  Across the application, whatever is clicked, in developer mode
    or not: the level the game is started with is always one of 1 to 6 or
    101 to 112, a level the generator has a branch for; the unlocked
    levels hold level 1, hold no level twice, and every other one of them
    follows such a level; and only a completed level on the game screen
    ever changes them, an instant win of the developer mode never. *)
Theorem game_starts_on_offered_level (es : list App.Event) :
  let a := App.run es App.initial in
  App.offered (App.selectedMapId a) /\
  NoDup (App.unlockedLevels a) /\ In 1%Z (App.unlockedLevels a) /\
  (forall n, In n (App.unlockedLevels a) -> n = 1%Z \/ App.offered (n - 1)) /\
  (forall e, App.unlockedLevels (App.step e a) <> App.unlockedLevels a ->
             e = App.LevelComplete /\ App.currentScreen a = App.game).
Proof.
  cbv zeta.
  assert (H : App.playable (App.run es App.initial)).
  { induction es as [|e es IH] using rev_ind; [exact initial_playable|].
    rewrite run_snoc_app. now apply step_playable. }
  destruct H as (H1 & H2 & H3 & H4). repeat (split; [assumption|]).
  intros e Hne.
  destruct (step_cases e (App.run es App.initial))
    as [(_ & Eu & _)|[(m & _ & _ & _ & _ & E)|[(i & _ & _ & _ & E)|(He & Hg & _)]]].
  - contradiction.
  - rewrite E in Hne. now contradiction Hne.
  - rewrite E in Hne. now contradiction Hne.
  - auto.
Qed.

Section Sequential.

Import App.
Local Open Scope Z_scope.

(** Only its own button switches the developer mode on. *)
Lemma step_developer (e : Event) (a : State) :
  e <> ToggleDeveloperMode ->
  developerMode (mapsScreen a) = false ->
  developerMode (mapsScreen (step e a)) = false.
Proof.
  intros He Hd. destruct e; try congruence; cbn [step]; unfold onMaps.
  - destruct (currentScreen a); cbn; auto.
  - destruct (currentScreen a); cbn; auto.
  - destruct (currentScreen a); cbn; auto.
  - destruct (currentScreen a); cbn; auto. now rewrite Hd.
  - destruct (currentScreen a); auto.
    destruct (activeTab (mapsScreen a)); auto.
    destruct (card a mapId); auto. now rewrite Hd.
  - destruct (currentScreen a); auto.
    destruct (activeTab (mapsScreen a)); auto.
    destruct (card a mapId); auto. unfold clickCurated. rewrite Hd. cbn [andb].
    destruct (negb (locked m)); cbn; auto.
  - destruct (currentScreen a); auto.
    destruct (activeTab (mapsScreen a)); auto.
    destruct ((0 <=? index) && (index <? 12)); auto.
    unfold clickProcedural. rewrite Hd. cbn. auto.
  - destruct (currentScreen a); cbn; auto.
  - destruct (currentScreen a); cbn; auto.
Qed.

Lemma step_sequential (e : Event) (a : State) (k : Z) :
  e <> ToggleDeveloperMode -> playable a -> sequential k a ->
  exists k', sequential k' (step e a).
Proof.
  intros He (Hoff & _) (Hd & Hk & Hu & Hs).
  pose proof (step_developer e a He Hd) as Hd'.
  destruct (step_cases e a) as [(Es & Eu & _)|[(m & _ & Ec & El & _ & E)|
    [(i & _ & Hi & _ & E)|(_ & _ & Es & Eu)]]]; unfold sequential.
  - exists k. rewrite Es, Eu. auto.
  - exists k. split; [exact Hd'|]. rewrite E.
    cbn [handleSelectMap selectedMapId unlockedLevels].
    destruct (card_spec a (id m) m Ec) as (_ & Hm & Hl).
    split; [exact Hk|]. split; [exact Hu|]. left.
    rewrite El in Hl. unfold lockedNow in Hl. rewrite Hd in Hl.
    symmetry in Hl. apply negb_false_iff, includes_In in Hl.
    apply Hu; [lia | exact Hl].
  - exists k. split; [exact Hd'|]. rewrite E.
    cbn [handleSelectMap selectedMapId unlockedLevels].
    split; [exact Hk|]. split; [exact Hu|]. right. unfold levelIdOf. lia.
  - unfold offered in Hoff.
    destruct (Z.eq_dec (selectedMapId a) k) as [Ek|Ek].
    + exists (k + 1). split; [exact Hd'|]. rewrite Es, Eu.
      split; [lia|]. split; [|lia].
      intros n Hn. rewrite handleLevelComplete_In, (Hu n Hn). lia.
    + exists k. split; [exact Hd'|]. rewrite Es, Eu.
      split; [lia|]. split; [|exact Hs].
      intros n Hn. rewrite handleLevelComplete_In, (Hu n Hn). lia.
Qed.

Lemma initial_sequential : sequential 1 initial.
Proof.
  unfold sequential, unlocked_up_to.
  cbn [initial mapsScreen mapsInitial developerMode unlockedLevels selectedMapId].
  split; [reflexivity|]. split; [lia|]. split; [|lia].
  intros n Hn. cbn [In]. lia.
Qed.

End Sequential.

(** X17.  Curated levels unlock one after the other: as long as the
    developer mode is never switched, the unlocked levels among 1 to 7
    are exactly the levels 1 to [k] for some [k], and a curated level the
    game is started with is one of them; so level [n] is played only
    when the levels 1 to [n] are all unlocked. *)
Theorem curated_levels_unlock_in_order (es : list App.Event) :
  App.no_developer es ->
  let a := App.run es App.initial in
  App.developerMode (App.mapsScreen a) = false /\
  exists k, (1 <= k <= 7)%Z /\
    (forall n, (1 <= n <= 7)%Z -> (In n (App.unlockedLevels a) <-> (n <= k)%Z)) /\
    ((App.selectedMapId a <= 6)%Z ->
     (App.selectedMapId a <= k)%Z /\
     In (App.selectedMapId a) (App.unlockedLevels a)).
Proof.
  intros Hes. cbv zeta.
  assert (H : App.playable (App.run es App.initial) /\
              exists k, App.sequential k (App.run es App.initial)).
  { induction es as [|e es IH] using rev_ind.
    - split; [exact initial_playable | exists 1%Z; exact initial_sequential].
    - rewrite run_snoc_app.
      assert (Hes' : App.no_developer es).
      { intros Hin. apply Hes, in_or_app. auto. }
      assert (He : e <> App.ToggleDeveloperMode).
      { intros ->. apply Hes, in_or_app. cbn. auto. }
      destruct (IH Hes') as (Hp & k & Hk).
      split; [now apply step_playable | now apply (step_sequential e _ k)]. }
  destruct H as ((Hoff & _) & k & Hd & Hk & Hu & Hs).
  split; [exact Hd|]. exists k. split; [exact Hk|]. split; [exact Hu|].
  intros H6. unfold App.offered in Hoff.
  assert (Hle : (App.selectedMapId (App.run es App.initial) <= k)%Z) by lia.
  split; [exact Hle|]. apply Hu; lia.
Qed.

(** [curated_levels_unlock_in_order] after level 1 has been played and
    completed. *)
Lemma curated_levels_unlock_in_order_witness :
  let es := [App.Navigate App.to_maps; App.ClickCurated 1; App.LevelComplete] in
  App.no_developer es /\
  App.developerMode (App.mapsScreen (App.run es App.initial)) = false.
Proof.
  intros es.
  assert (H : App.no_developer es).
  { unfold App.no_developer, es. cbn [In]. intros [E|[E|[E|[]]]]; discriminate. }
  split; [exact H|].
  exact (proj1 (curated_levels_unlock_in_order es H)).
Defined.

(** X18.  The developer mode opens every curated map: for each of the
    maps 2 to 6, which a fresh application shows locked, switching the
    developer mode on, pressing the lock button of the card and clicking
    the card starts the game on that map with nothing unlocked but level
    1; the same clicks without the developer mode leave the map screen as
    it is; completing the map so opened unlocks the next level while the
    map itself stays locked, and after going back the override is
    forgotten and the card is locked again. *)
Theorem developer_mode_opens_any_map (mapId : Z) :
  (2 <= mapId <= 6)%Z ->
  let opened :=
    App.run [App.Navigate App.to_maps; App.ToggleDeveloperMode;
             App.ToggleLock mapId; App.ClickCurated mapId] App.initial in
  let plain :=
    App.run [App.Navigate App.to_maps; App.ToggleLock mapId;
             App.ClickCurated mapId] App.initial in
  App.currentScreen opened = App.game /\ App.selectedMapId opened = mapId /\
  App.unlockedLevels opened = [1%Z] /\
  plain = App.run [App.Navigate App.to_maps] App.initial /\
  App.unlockedLevels (App.step App.LevelComplete opened) = [1; mapId + 1]%Z /\
  option_map App.locked
    (App.card (App.run [App.LevelComplete; App.Back] opened) mapId) = Some true.
Proof.
  intros H.
  assert (E : (mapId = 2 \/ mapId = 3 \/ mapId = 4 \/ mapId = 5 \/ mapId = 6)%Z) by lia.
  destruct E as [->|[->|[->|[->| ->]]]]; cbv zeta; repeat split; reflexivity.
Qed.

(** [developer_mode_opens_any_map] for the last map. *)
Lemma developer_mode_opens_any_map_witness :
  App.selectedMapId
    (App.run [App.Navigate App.to_maps; App.ToggleDeveloperMode;
              App.ToggleLock 6; App.ClickCurated 6] App.initial) = 6%Z.
Proof.
  exact (proj1 (proj2 (developer_mode_opens_any_map 6 ltac:(lia)))).
Defined.

Section Cards.

Import App.
Local Open Scope Z_scope.

Lemma index_cases (index : Z) :
  0 <= index < 12 ->
  index = 0 \/ index = 1 \/ index = 2 \/ index = 3 \/ index = 4 \/ index = 5 \/
  index = 6 \/ index = 7 \/ index = 8 \/ index = 9 \/ index = 10 \/ index = 11.
Proof. lia. Qed.

Lemma numClusters_card (index : Z) :
  0 <= index < 12 ->
  Layout.numClusters (levelIdOf index) = 6 + ((index + 1) mod 12) / 2.
Proof.
  intros Hi. unfold levelIdOf.
  rewrite numClusters_div, levelDifficulty_mod by lia.
  do 2 f_equal. f_equal. lia.
Qed.

End Cards.

(** X19.  The twelve cards of the procedural tab: card [index] (0 to 11)
    starts level [101 + index], which takes the procedural branch of the
    generator and has
    [6 + ((index + 1) mod 12) / 2] clusters and at most nine blocks a
    cluster.  The difficulty printed on the card grows with the index;
    the number of clusters grows with it up to card 10 and falls back to
    6, the least, on card 11, the last of the "Expert" cards, whose
    estimate of 105 blocks the level cannot reach (at most 54); on every
    other card the estimate is within what the level can have.  The
    header of the game shows the number of the card plus one. *)
Theorem procedural_cards (Math_cos Math_sin : Q -> Q) (index : Z) :
  (0 <= index < 12)%Z ->
  let levelId := App.levelIdOf index in
  let n := Z.of_nat (List.length
                       (Layout.generateBlocksForLevel Math_cos Math_sin levelId)) in
  (101 <= levelId <= 112)%Z /\
  Layout.generate Math_cos Math_sin levelId
    = Layout.procedural Math_cos Math_sin levelId /\
  Layout.numClusters levelId = (6 + ((index + 1) mod 12) / 2)%Z /\
  (n <= 9 * Layout.numClusters levelId)%Z /\
  App.difficultyRank index = (index / 3)%Z /\
  (index <= 10 -> Layout.numClusters levelId = 6 + (index + 1) / 2)%Z /\
  (index = 11 -> Layout.numClusters levelId = 6 /\ App.difficultyRank index = 3 /\
                 App.estimatedBlocks index = 105 /\ n <= 54)%Z /\
  (App.estimatedBlocks index <= 9 * Layout.numClusters levelId <-> index <> 11)%Z /\
  App.headerNumber levelId = (App.cardNumber index + 1)%Z.
Proof.
  intros Hi levelId n.
  assert (Hl : (101 <= levelId <= 112)%Z) by (unfold levelId, App.levelIdOf; lia).
  assert (Hc : Layout.numClusters levelId = (6 + ((index + 1) mod 12) / 2)%Z)
    by (apply numClusters_card; exact Hi).
  assert (Hn : (n <= 9 * Layout.numClusters levelId)%Z).
  { pose proof (procedural_count Math_cos Math_sin levelId ltac:(lia)) as Hp.
    pose proof (numClusters_range levelId ltac:(lia)) as Hr.
    unfold n. lia. }
  split; [exact Hl|]. split; [apply generate_procedural; lia|].
  split; [exact Hc|]. split; [exact Hn|].
  assert (Hcases := index_cases index Hi).
  split; [|split; [|split; [|split]]].
  - unfold App.difficultyRank.
    destruct Hcases as [->|[->|[->|[->|[->|[->|[->|[->|[->|[->|[->| ->]]]]]]]]]]];
      reflexivity.
  - intros H10. rewrite Hc. rewrite Z.mod_small by lia. reflexivity.
  - intros ->. rewrite Hc in Hn. rewrite Hc.
    change ((6 + (11 + 1) mod 12 / 2)%Z) with 6%Z in *.
    repeat split; try reflexivity. lia.
  - rewrite Hc. unfold App.estimatedBlocks.
    destruct Hcases as [->|[->|[->|[->|[->|[->|[->|[->|[->|[->|[->| ->]]]]]]]]]]];
      cbn; split; intros H; try lia; try discriminate.
  - unfold App.headerNumber, App.cardNumber, levelId, App.levelIdOf. ring.
Qed.

(** [procedural_cards] for the last card. *)
Lemma procedural_cards_witness :
  Layout.numClusters (App.levelIdOf 11) = 6%Z.
Proof.
  exact (proj1 (proj1 (proj2 (proj2 (proj2 (proj2 (proj2 (proj2
           (procedural_cards (fun _ => 1%Q) (fun _ => 0%Q) 11 ltac:(lia))))))))
               eq_refl)).
Defined.

(** X20.  The block count printed on the card of a curated map is never
    less than the number of blocks the generator makes for that map,
    whatever the host's cosine and sine return; among the hand-authored
    maps 1 to 5 it is the exact number on the maps 1, 2 and 4 only: map 3
    says 36 and has 28, map 5 says 64 and has 36. *)
Theorem curated_cards_block_counts (Math_cos Math_sin : Q -> Q) (m : App.MapData) :
  In m App.curatedMaps ->
  let n := Z.of_nat (List.length
                       (Layout.generateBlocksForLevel Math_cos Math_sin (App.id m))) in
  (n <= App.blocks m)%Z /\
  ((App.id m <= 5)%Z ->
   (n = App.blocks m <-> App.id m = 1 \/ App.id m = 2 \/ App.id m = 4)%Z) /\
  (App.id m = 3 -> n = 28 /\ App.blocks m = 36)%Z /\
  (App.id m = 5 -> n = 36 /\ App.blocks m = 64)%Z.
Proof.
  intros Hm n.
  destruct (authored_counts Math_cos Math_sin) as (A1 & A2 & A3 & A4 & A5).
  pose proof (level6_count Math_cos Math_sin) as A6.
  unfold App.curatedMaps in Hm. cbn [In] in Hm.
  destruct Hm as [<-|[<-|[<-|[<-|[<-|[<-|[]]]]]]]; unfold n; cbn [App.id App.blocks];
    rewrite ?A1, ?A2, ?A3, ?A4, ?A5; cbn [Z.of_nat Pos.of_succ_nat]; lia.
Qed.

(** [curated_cards_block_counts] for the map "Pyramid Power". *)
Lemma curated_cards_block_counts_witness :
  (Z.of_nat (List.length
               (Layout.generateBlocksForLevel (fun _ => 1%Q) (fun _ => 0%Q) 3))
   <= 36)%Z.
Proof.
  exact (proj1 (curated_cards_block_counts (fun _ => 1%Q) (fun _ => 0%Q)
                  (App.mkMap 3 "Pyramid Power" "Medium" 36 true)
                  ltac:(cbn; auto))).
Defined.

(* ================================================================== *)
(** * More of the frame: blocks hit together, the wait for the launch *)
(* ================================================================== *)

Section HitParity.

Import Physics.
Local Open Scope R_scope.

Lemma flips_fields (n : nat) (b : Ball) :
  ball_x (flips n b) = ball_x b /\ dx (flips n b) = dx b /\
  dy (flips n b) = if Nat.even n then dy b else - dy b.
Proof.
  induction n as [|n (IH1 & IH2 & IH3)]; [cbn; auto|].
  change (flips (S n) b) with (flip_dy (flips n b)).
  unfold flip_dy. cbn [ball_x dx dy]. rewrite IH3, Nat.even_succ, <- Nat.negb_even.
  destruct (Nat.even n); cbn [negb]; repeat split; auto; lra.
Qed.

Lemma even_to_nat (z : Z) : (0 <= z)%Z -> Nat.even (Z.to_nat z) = Z.even z.
Proof.
  intros Hz. apply Bool.eq_iff_eq_true. rewrite Nat.even_spec, Z.even_spec.
  split; intros [m Hm].
  - exists (Z.of_nat m). lia.
  - exists (Z.to_nat m). lia.
Qed.

End HitParity.

(** X21.  Blocks hit in the same frame: the block loop tests every block
    against the ball where the frame has moved it, so every live block
    the ball overlaps is dead after the loop ([alive] is [false]), every
    other block keeps its [alive], and no block changes place, size or
    colour; [dy] is inverted once for each block destroyed, so the ball is
    turned back when their number is odd and flies on in its direction
    when it is even; [dx] and the position are not touched. *)
Theorem blocks_hit_together (ks : list Physics.Block) (b : Physics.Ball) (sc : Z) :
  let n := Physics.hit_count b ks in
  let ks' := fst (fst (Physics.block_collisions ks b sc)) in
  let b' := snd (fst (Physics.block_collisions ks b sc)) in
  Forall2 (fun k k' =>
             Physics.x k' = Physics.x k /\ Physics.y k' = Physics.y k /\
             Physics.width k' = Physics.width k /\
             Physics.height k' = Physics.height k /\
             Physics.color k' = Physics.color k /\
             Physics.alive k' = Physics.alive k && negb (Physics.hits b k))
          ks ks' /\
  (forall k, In k ks' -> Physics.hits b k = true -> Physics.alive k = false) /\
  Z.of_nat (List.length (filter Physics.alive ks'))
    = (Z.of_nat (List.length (filter Physics.alive ks)) - n)%Z /\
  Physics.ball_x b' = Physics.ball_x b /\ Physics.ball_y b' = Physics.ball_y b /\
  Physics.dx b' = Physics.dx b /\
  Physics.dy b' = (if Z.even n then Physics.dy b else - Physics.dy b)%R.
Proof.
  cbv zeta. rewrite block_collisions_spec. cbn [fst snd].
  destruct (flips_fields (Z.to_nat (Physics.hit_count b ks)) b) as (Hx & Hdx & Hdy).
  split; [apply struck_marks|]. split.
  { intros k' Hin Hh. apply in_map_iff in Hin. destruct Hin as (k & <- & _).
    destruct (struck_fields b k) as (Ex & Ey & Ew & Eh & _ & Ea).
    assert (Hk : Physics.hits b k = true).
    { unfold Physics.hits in *. now rewrite <- Ex, <- Ey, <- Ew, <- Eh. }
    rewrite Ea, Hk. apply andb_false_r. }
  split; [apply live_after_struck|].
  split; [exact Hx|]. split; [apply flips_place|]. split; [exact Hdx|].
  rewrite Hdy, even_to_nat by apply hit_count_nonneg. reflexivity.
Qed.

(** [blocks_hit_together] for a ball that overlaps two live blocks of
    three: the two are dead after the loop, the third is alive, and the
    ball flies on upward. *)
Lemma blocks_hit_together_witness :
  let b := Physics.mkBall 400 296 0 (-4) 8 in
  let ks := [Physics.mkBlock 390 280 60 25 true "#3b82f6";
             Physics.mkBlock 380 270 60 25 true "#3b82f6";
             Physics.mkBlock 50 50 60 25 true "#3b82f6"] in
  Physics.hit_count b ks = 2%Z /\
  map Physics.alive (fst (fst (Physics.block_collisions ks b 0)))
    = [false; false; true] /\
  Physics.dy (snd (fst (Physics.block_collisions ks b 0))) = (-4)%R.
Proof.
  intros b ks.
  destruct (blocks_hit_together ks b 0) as (Hm & _ & _ & _ & _ & _ & Hdy).
  assert (Hn : Physics.hit_count b ks = 2%Z).
  { unfold ks, b, Physics.hit_count, Physics.hits, Physics.geb.
    eval_frame. reflexivity. }
  split; [exact Hn|]. split.
  - set (after := fst (fst (Physics.block_collisions ks b 0))) in *.
    unfold ks in Hm.
    inversion Hm as [|k1 k1' l1 l1' (_ & _ & _ & _ & _ & A1) Hm1]; subst.
    inversion Hm1 as [|k2 k2' l2 l2' (_ & _ & _ & _ & _ & A2) Hm2]; subst.
    inversion Hm2 as [|k3 k3' l3 l3' (_ & _ & _ & _ & _ & A3) Hm3]; subst.
    inversion Hm3; subst.
    cbn [map]. rewrite A1, A2, A3.
    unfold b, Physics.hits, Physics.geb. eval_frame. reflexivity.
  - rewrite Hdy, Hn. reflexivity.
Defined.

Section Waiting.

Import Physics Lifetime.
Local Open Scope R_scope.

Lemma frame_waiting (generated : list Block) (s : Session) :
  waiting generated s -> waiting generated (gameLoop s).
Proof.
  intros (Hl & Hs & Hv & Hk & Hd & b & Hb & Hdx & Hdy & Hx & Hy).
  destruct (GameState_eq_playing (gameState s)) as [Hp|Hp].
  2:{ rewrite gameLoop_idle by exact Hp. unfold waiting. eauto 12. }
  unfold gameLoop. rewrite Hp, Hb, Hl. unfold check_victory, follow_step.
  cbn [blocks]. unfold waiting.
  destruct (all_dead (blocks s));
    cbn [ballLaunched score lives blocks gameState ball paddle];
    (repeat split; try assumption; try congruence);
    eexists; (split; [reflexivity|]); unfold on_paddle, centre;
    cbn [dx dy ball_x ball_y]; auto.
Qed.

Lemma step_waiting (generated : list Block) (e : Event) (s : Session) :
  launches e = false -> waiting generated s -> waiting generated (step e s).
Proof.
  intros He Hw. destruct e; cbn [launches] in He; try discriminate; cbn [step].
  - now apply frame_waiting.
  - unfold handleKeyDown. rewrite He. exact Hw.
  - exact Hw.
  - exact Hw.
  - destruct Hw as (Hl & Hs & Hv & Hk & Hd & Hb).
    unfold togglePause, waiting.
    destruct (gameState s) eqn:Eg;
      cbn [ballLaunched score lives blocks gameState ball paddle];
      repeat split; try assumption; try congruence.
Qed.

End Waiting.

(** X22.  Nothing happens before the launch: in a session in which
    neither the canvas is clicked nor the space key pressed, whatever
    else is pressed, moved or paused and however many frames pass, the
    ball is never launched, it rests on the middle of the paddle ten
    above it and follows it, no point is scored, no life is lost, no
    block is touched and the game is not lost. *)
Theorem nothing_before_launch (generated : list Physics.Block)
    (es : list Physics.Event) :
  forallb (fun e => negb (Lifetime.launches e)) es = true ->
  let s := Physics.run es (Physics.initial generated) in
  Physics.ballLaunched s = false /\ Physics.score s = 0%Z /\
  Physics.lives s = 3%Z /\ Physics.blocks s = generated /\
  Physics.gameState s <> Physics.defeat /\
  exists b, Physics.ball s = Some b /\
            Physics.dx b = 0%R /\ Physics.dy b = 0%R /\
            Physics.ball_x b
              = (Physics.paddle_x (Physics.paddle s)
                 + Physics.paddle_width (Physics.paddle s) / 2)%R /\
            Physics.ball_y b = (Physics.paddle_y (Physics.paddle s) - 10)%R.
Proof.
  intros Hes. cbv zeta.
  assert (H : Lifetime.waiting generated (Physics.run es (Physics.initial generated))).
  { induction es as [|e es IH] using rev_ind.
    - unfold Lifetime.waiting, Lifetime.centre.
      cbn [Physics.run fold_left Physics.initial Physics.ballLaunched Physics.score
           Physics.lives Physics.blocks Physics.gameState Physics.ball Physics.paddle
           Physics.paddle_x Physics.paddle_width Physics.paddle_y].
      repeat split; try discriminate.
      eexists. split; [reflexivity|].
      cbn [Physics.dx Physics.dy Physics.ball_x Physics.ball_y]. auto.
    - rewrite forallb_app in Hes. apply andb_true_iff in Hes. destruct Hes as [H1 H2].
      cbn [forallb] in H2. rewrite andb_true_r in H2. apply negb_true_iff in H2.
      rewrite run_snoc. apply step_waiting; auto. }
  exact H.
Qed.

(** [nothing_before_launch] for a pointer move, an arrow key, a pause and
    frames. *)
Lemma nothing_before_launch_witness :
  Physics.lives
    (Physics.run [Physics.MouseMove 100 0 800; Physics.Frame;
                  Physics.KeyDown "ArrowLeft" (5 / 10); Physics.Frame;
                  Physics.TogglePause; Physics.Frame]
                 (Physics.initial [])) = 3%Z.
Proof.
  exact (proj1 (proj2 (proj2 (nothing_before_launch []
           [Physics.MouseMove 100 0 800; Physics.Frame;
            Physics.KeyDown "ArrowLeft" (5 / 10); Physics.Frame;
            Physics.TogglePause; Physics.Frame] eq_refl)))).
Defined.

(* ================================================================== *)
(** * The ball stays between the walls *)
(* ================================================================== *)

Section Enclosure.

Import Physics Lifetime.
Local Open Scope R_scope.

Lemma speed_bound (b : Ball) :
  speed b = 4 -> - 4 <= dx b <= 4 /\ - 4 <= dy b <= 4.
Proof.
  unfold speed. intros H.
  assert (Hs : sqrt (dx b * dx b + dy b * dy b) * sqrt (dx b * dx b + dy b * dy b)
               = dx b * dx b + dy b * dy b) by (apply sqrt_sqrt; nra).
  rewrite H in Hs. split; nra.
Qed.

(** The side walls: [dx] is kept strictly between them and inverted at
    them; nothing else changes. *)
Lemma wall_x_fields (b : Ball) :
  ball_x (wall_x b) = ball_x b /\ ball_y (wall_x b) = ball_y b /\
  dy (wall_x b) = dy b /\ radius (wall_x b) = radius b /\
  ((dx (wall_x b) = dx b /\ 0 < ball_x b - radius b /\
    ball_x b + radius b < CANVAS_WIDTH) \/
   dx (wall_x b) = - dx b).
Proof.
  unfold wall_x, geb, leb.
  destruct (Rle_dec (ball_x b - radius b) 0);
    destruct (Rle_dec CANVAS_WIDTH (ball_x b + radius b)); cbn [orb];
    repeat split; try reflexivity; try (right; reflexivity).
  left. repeat split; lra.
Qed.

(** The top wall. *)
Lemma wall_y_fields (b : Ball) :
  ball_x (wall_y b) = ball_x b /\ ball_y (wall_y b) = ball_y b /\
  dx (wall_y b) = dx b /\ radius (wall_y b) = radius b /\
  ((dy (wall_y b) = dy b /\ 0 < ball_y b - radius b) \/
   (dy (wall_y b) = - dy b /\ ball_y b - radius b <= 0)).
Proof.
  unfold wall_y, leb.
  destruct (Rle_dec (ball_y b - radius b) 0);
    repeat split; try reflexivity.
  - right. split; [reflexivity | assumption].
  - left. split; [reflexivity | lra].
Qed.

(** A ball at the top wall is above every block that begins below the
    strip of the wall. *)
Lemma above_hits_nothing (b : Ball) (ks : list Block) :
  ball_y b + radius b <= 16 -> Forall below_top ks -> hit_count b ks = 0%Z.
Proof.
  intros Hb Hks. induction Hks as [|k ks Hk _ IH]; [reflexivity|].
  rewrite hit_count_cons, IH. unfold hits, geb.
  rewrite (leb_false (y k) (ball_y b + radius b)) by (unfold below_top in Hk; lra).
  now rewrite !andb_false_r.
Qed.

Lemma struck_below_top (b : Ball) (ks : list Block) :
  Forall below_top ks -> Forall below_top (map (struck b) ks).
Proof.
  intros H. induction H as [|k ks Hk _ IH]; cbn [map]; constructor; [|exact IH].
  unfold struck. destruct (alive k && hits b k); [|exact Hk].
  unfold below_top, kill. cbn [y]. exact Hk.
Qed.

Lemma touches_paddle_y (p : Paddle) (b : Ball) :
  touches_paddle p b = true -> paddle_y p <= ball_y b + radius b.
Proof.
  unfold touches_paddle, geb. intros H.
  apply andb_true_iff in H. destruct H as [H _].
  apply andb_true_iff in H. destruct H as [H _].
  apply andb_true_iff in H. destruct H as [H _].
  now apply leb_true in H.
Qed.

Lemma paddle_collision_fields (p : Paddle) (b : Ball) :
  ball_x (paddle_collision p b) = ball_x b /\
  ball_y (paddle_collision p b) = ball_y b /\
  radius (paddle_collision p b) = radius b.
Proof.
  unfold paddle_collision. destruct (touches_paddle p b); repeat split; reflexivity.
Qed.

(** The ball a frame leaves, before the test for the bottom: moved,
    bounced off walls, paddle and blocks. *)
Lemma ball_after_frame (p : Paddle) (b : Ball) (ks : list Block) :
  mounted_paddle p -> Forall below_top ks ->
  radius b = 8 -> speed b = 4 -> contained b ->
  let bp := paddle_collision p (wall_collisions (move b)) in
  let b2 := flips (Z.to_nat (hit_count bp ks)) bp in
  radius b2 = 8 /\ speed b2 = 4 /\ contained b2.
Proof.
  intros (Hpy & Hpw & Hph & Hpx) Hks Hr Hv (Hx & Hx' & Hy & Hy') bp b2.
  unfold CANVAS_WIDTH in Hpx.
  set (bw := wall_collisions (move b)) in *.
  destruct (wall_x_fields (move b)) as (Ax & Ay & Ady & Ar & Adx).
  destruct (wall_y_fields (wall_x (move b))) as (Bx & By & Bdx & Br & Bdy).
  change (wall_y (wall_x (move b))) with bw in Bx, By, Bdx, Br, Bdy.
  cbn [move ball_x ball_y dx dy radius] in Ax, Ay, Ady, Ar, Adx.
  rewrite Ax in Bx. rewrite Ay in By. rewrite Ar in Br. rewrite Ay, Ar, Ady in Bdy.
  unfold CANVAS_WIDTH in Adx. rewrite Hr in *.
  destruct (paddle_collision_fields p bw) as (Px & Py & Pr). fold bp in Px, Py, Pr.
  destruct (flips_fields (Z.to_nat (hit_count bp ks)) bp) as (Fx & Fdx & Fdy).
  destruct (flips_place (Z.to_nat (hit_count bp ks)) bp) as (Fy & Fr).
  fold b2 in Fx, Fdx, Fdy, Fy, Fr.
  assert (Hv2 : speed b2 = 4).
  { unfold b2, bp, bw. rewrite speed_flips, speed_paddle_collision,
      speed_wall_collisions. exact Hv. }
  destruct (speed_bound b2 Hv2) as (Vx & Vy).
  split; [congruence|]. split; [exact Hv2|].
  assert (Ex : ball_x b2 = ball_x b + dx b) by congruence.
  assert (Ey : ball_y b2 = ball_y b + dy b) by congruence.
  unfold contained. rewrite Ex, Ey.
  assert (Gx : - 4 <= ball_x b + dx b + dx b2 <= 804).
  { destruct (touches_paddle p bw) eqn:Et.
    - pose proof (touches_paddle_spec p bw Et) as Ht. rewrite Bx, Hpw in Ht. lra.
    - assert (Ep : bp = bw) by (unfold bp, paddle_collision; now rewrite Et).
      destruct (speed_bound b Hv) as (Wx & _).
      rewrite Fdx, Ep, Bdx. destruct Adx as [(-> & H1 & H2)| ->]; lra. }
  assert (Gy : - 4 <= ball_y b + dy b + dy b2).
  { destruct Bdy as [(_ & Hhi)|(Edy & Hlo)]; [lra|].
    assert (Et : touches_paddle p bw = false).
    { destruct (touches_paddle p bw) eqn:Et; [|reflexivity].
      pose proof (touches_paddle_y p bw Et) as Ht. rewrite By, Br, Hpy in Ht. lra. }
    assert (Ep : bp = bw) by (unfold bp, paddle_collision; now rewrite Et).
    assert (En : hit_count bp ks = 0%Z).
    { apply above_hits_nothing; [|exact Hks]. rewrite Ep, By, Br. lra. }
    rewrite Fdy, En, Ep, Edy. cbn [Z.to_nat Nat.even]. lra. }
  lra.
Qed.

End Enclosure.

Section EnclosedSession.

Import Physics Lifetime.
Local Open Scope R_scope.

(** The ball as it is put on the paddle. *)
Lemma on_paddle_rest (p : Paddle) (b : Ball) :
  mounted_paddle p -> radius b = 8 ->
  let b' := on_paddle p b 0 0 in
  radius b' = 8 /\ contained b' /\
  dx b' = 0 /\ dy b' = 0 /\ 0 <= ball_x b' <= 800 /\ 0 <= ball_y b'.
Proof.
  intros (Hy & Hw & _ & Hx) Hr. unfold CANVAS_WIDTH in Hx.
  unfold on_paddle, contained. cbn [radius dx dy ball_x ball_y].
  rewrite Hy, Hw. repeat split; try assumption; lra.
Qed.

Lemma check_victory_enclosed (s : Session) : enclosed s -> enclosed (check_victory s).
Proof.
  unfold enclosed.
  now rewrite check_victory_paddle, check_victory_blocks, check_victory_ball,
    check_victory_launched.
Qed.

Lemma frame_enclosed (s : Session) : enclosed s -> enclosed (gameLoop s).
Proof.
  intros (Hp & Hk & b & Hb & Hr & Hc & Hl).
  destruct (GameState_eq_playing (gameState s)) as [Eg|Eg].
  2:{ rewrite gameLoop_idle by exact Eg. unfold enclosed. eauto 10. }
  unfold gameLoop. rewrite Eg, Hb. apply check_victory_enclosed.
  set (p := update_paddle (keys s) (mouseX s) (paddle s)).
  assert (Hp' : mounted_paddle p) by now apply update_paddle_mounted.
  destruct (ballLaunched s) eqn:El.
  - unfold launched_step. rewrite block_collisions_spec. cbv beta iota.
    set (bp := paddle_collision p (wall_collisions (move b))).
    destruct (ball_after_frame p b (blocks s) Hp' Hk Hr Hl Hc) as (Hr2 & Hv2 & Hc2).
    fold bp in Hr2, Hv2, Hc2.
    set (b2 := flips (Z.to_nat (hit_count bp (blocks s))) bp) in *.
    pose proof (struck_below_top bp (blocks s) Hk) as Hk'.
    destruct (out_of_bounds b2).
    + unfold lose_life. destruct (lives s - 1 <=? 0)%Z; unfold enclosed;
        cbn [paddle blocks ball ballLaunched].
      * split; [exact Hp'|]. split; [exact Hk'|]. exists b2. rewrite El. auto.
      * split; [exact Hp'|]. split; [exact Hk'|].
        destruct (on_paddle_rest p b2 Hp' Hr2) as (H1 & H2 & H3).
        eexists. split; [reflexivity|]. auto.
    + unfold enclosed. cbn [paddle blocks ball ballLaunched].
      split; [exact Hp'|]. split; [exact Hk'|]. exists b2. rewrite El. auto.
  - unfold follow_step, enclosed. cbn [paddle blocks ball ballLaunched].
    split; [exact Hp'|]. split; [exact Hk|]. rewrite El.
    destruct Hl as (-> & -> & _).
    destruct (on_paddle_rest p b Hp' Hr) as (H1 & H2 & H3).
    eexists. split; [reflexivity|]. auto.
Qed.

Lemma launch_enclosed (rnd : R) (s : Session) : enclosed s -> enclosed (launch rnd s).
Proof.
  intros (Hp & Hk & b & Hb & Hr & Hc & Hl). unfold launch. rewrite Hb.
  destruct (ballLaunched s) eqn:El; cbn [negb].
  - unfold enclosed. rewrite Hb, El. eauto 10.
  - unfold enclosed. cbn [paddle blocks ball ballLaunched].
    split; [exact Hp|]. split; [exact Hk|].
    destruct Hl as (_ & _ & Hx & Hy).
    eexists. split; [reflexivity|]. cbn [radius]. split; [exact Hr|].
    pose proof (speed_launch ((rnd - 5 / 10) * PI / 3) (ball_x b) (ball_y b) (radius b))
      as Hv.
    split; [|exact Hv].
    destruct (speed_bound _ Hv) as (Vx & Vy). cbn [dx dy] in Vx, Vy.
    unfold contained. cbn [ball_x ball_y dx dy]. lra.
Qed.

Lemma input_enclosed (e : Event) (s : Session) :
  e <> Frame -> enclosed s -> enclosed (step e s).
Proof.
  intros HF He. destruct e; try congruence; cbn [step].
  - unfold handleKeyDown. destruct (String.eqb key " ").
    + apply launch_enclosed. exact He.
    + exact He.
  - exact He.
  - exact He.
  - now apply launch_enclosed.
  - unfold togglePause. destruct (gameState s); exact He.
Qed.

Lemma perform_enclosed (generated : list Block) (a : Action) (s : Session) :
  Forall below_top generated -> enclosed s -> enclosed (perform generated a s).
Proof.
  intros Hg He. destruct a as [e|]; cbn [perform].
  - destruct (Event_eq_Frame e) as [->|HF].
    + now apply frame_enclosed.
    + now apply input_enclosed.
  - destruct He as (Hp & _ & _). unfold enclosed, handleRestart.
    cbn [paddle blocks ball ballLaunched].
    split; [exact Hp|]. split; [exact Hg|].
    destruct Hp as (Hy & Hw & _ & Hx). unfold CANVAS_WIDTH in Hx.
    eexists. split; [reflexivity|]. unfold contained.
    cbn [radius dx dy ball_x ball_y]. rewrite Hy, Hw. repeat split; lra.
Qed.

Lemma initial_enclosed (generated : list Block) :
  Forall below_top generated -> enclosed (initial generated).
Proof.
  intros Hg. unfold enclosed, initial, mounted_paddle, contained, CANVAS_WIDTH.
  cbn [paddle blocks ball ballLaunched paddle_x paddle_y paddle_width paddle_height].
  split; [repeat split; lra|]. split; [exact Hg|].
  eexists. split; [reflexivity|]. cbn [radius dx dy ball_x ball_y].
  repeat split; lra.
Qed.

(** The blocks of every generated level begin below the strip of the top
    wall. *)
Lemma generated_below_top (Math_cos Math_sin : Q -> Q) (level : Z) :
  Layout.bounded Math_cos -> Layout.bounded Math_sin ->
  Forall below_top
    (map of_layout (Layout.generateBlocksForLevel Math_cos Math_sin level)).
Proof.
  intros Hc Hs. apply Forall_map. unfold Layout.generateBlocksForLevel.
  destruct (appends_generate Math_cos Math_sin Hc Hs level (Random.seededRandom 0) I)
    as (a & r' & l' & _ & Hl & E).
  rewrite (E []). cbn [Layout.blocks snd app].
  eapply Forall_impl; [|exact Hl].
  intros k (_ & _ & Hk & _). unfold below_top, of_layout. cbn [y].
  apply Qle_Rle in Hk. unfold Layout.margin in Hk.
  assert (E50 : Q2R 50 = 50) by (unfold Q2R; cbn [Qnum Qden]; lra).
  rewrite E50 in Hk. lra.
Qed.

End EnclosedSession.

(** X23.  The ball leaves the field through the bottom only: on every
    generated level, through any input and any number of restarts, the
    centre of the ball is never more than 4 to the left of the left wall,
    4 to the right of the right wall or 4 above the top wall, and the
    move of the next frame does not take it further out either. *)
Theorem ball_stays_between_walls (Math_cos Math_sin : Q -> Q) (level : Z)
    (acts : list Lifetime.Action) :
  Layout.bounded Math_cos -> Layout.bounded Math_sin ->
  let generated :=
    map Physics.of_layout (Layout.generateBlocksForLevel Math_cos Math_sin level) in
  let s := Lifetime.lifetime generated acts (Physics.initial generated) in
  exists b, Physics.ball s = Some b /\
    (- 4 <= Physics.ball_x b <= Physics.CANVAS_WIDTH + 4)%R /\
    (- 4 <= Physics.ball_y b)%R /\
    (- 4 <= Physics.ball_x b + Physics.dx b <= Physics.CANVAS_WIDTH + 4)%R /\
    (- 4 <= Physics.ball_y b + Physics.dy b)%R.
Proof.
  intros Hc Hs generated s.
  assert (Hg : Forall Lifetime.below_top generated)
    by (apply generated_below_top; assumption).
  assert (H : Lifetime.enclosed s).
  { unfold s. induction acts as [|a acts IH] using rev_ind.
    - now apply initial_enclosed.
    - rewrite lifetime_snoc. now apply perform_enclosed. }
  destruct H as (_ & _ & b & Hb & _ & (Hx & Hx' & Hy & Hy') & _).
  exists b. unfold Physics.CANVAS_WIDTH. repeat split; (assumption || lra).
Qed.

(** [ball_stays_between_walls] on level 1, after a launch and frames. *)
Lemma ball_stays_between_walls_witness :
  let generated :=
    map Physics.of_layout
        (Layout.generateBlocksForLevel (fun _ => 1%Q) (fun _ => 0%Q) 1) in
  let s := Lifetime.lifetime generated
             [Lifetime.Act (Physics.Click (5 / 10)); Lifetime.Act Physics.Frame;
              Lifetime.Act Physics.Frame]
             (Physics.initial generated) in
  exists b, Physics.ball s = Some b /\ (- 4 <= Physics.ball_y b)%R.
Proof.
  intros generated s.
  assert (Hc : Layout.bounded (fun _ => 1%Q)) by (apply constant_bounded; split; discriminate).
  assert (Hs : Layout.bounded (fun _ => 0%Q)) by (apply constant_bounded; split; discriminate).
  destruct (ball_stays_between_walls (fun _ => 1%Q) (fun _ => 0%Q) 1
              [Lifetime.Act (Physics.Click (5 / 10)); Lifetime.Act Physics.Frame;
               Lifetime.Act Physics.Frame] Hc Hs) as (b & Hb & _ & Hy & _).
  exists b. split; [exact Hb | exact Hy].
Defined.

Section LostLives.

Import Physics.
Local Open Scope R_scope.

(** What a frame of a launched ball does to the lives. *)
Lemma launched_step_lives (s : Session) (b : Ball) :
  let p := update_paddle (keys s) (mouseX s) (paddle s) in
  lives (launched_step s p b) =
    if gtb (ball_y b + dy b - radius b) CANVAS_HEIGHT
    then (lives s - 1)%Z else lives s.
Proof.
  intros p. unfold launched_step.
  change (paddle_collision p (wall_collisions (move b))) with (ball_at_blocks s b).
  rewrite block_collisions_spec. cbv beta iota.
  rewrite out_of_bounds_flips. unfold out_of_bounds.
  destruct (ball_at_blocks_place s b) as [-> ->].
  destruct (gtb (ball_y b + dy b - radius b) CANVAS_HEIGHT); [|reflexivity].
  unfold lose_life. destruct (lives s - 1 <=? 0)%Z; reflexivity.
Qed.

End LostLives.

(** X24.  A life is lost through the bottom and in no other way: an
    event takes at most one life, and it takes one exactly when it is a
    frame of a game in play whose launched ball, after the move, has its
    top edge below the bottom of the canvas; no key, click, pointer move
    or pause, and no frame of a paused or finished game, costs a life. *)
Theorem life_lost_only_through_bottom (e : Physics.Event) (s : Physics.Session) :
  (Physics.lives (Physics.step e s) = Physics.lives s \/
   Physics.lives (Physics.step e s) = (Physics.lives s - 1)%Z) /\
  (Physics.lives (Physics.step e s) = (Physics.lives s - 1)%Z <->
   e = Physics.Frame /\ Physics.gameState s = Physics.playing /\
   Physics.ballLaunched s = true /\
   exists b, Physics.ball s = Some b /\
     (Physics.ball_y b + Physics.dy b - Physics.radius b > Physics.CANVAS_HEIGHT)%R).
Proof.
  split; [apply step_lives|].
  destruct (Event_eq_Frame e) as [->|HF].
  2:{ split.
      - intros H. exfalso.
        destruct (Event_eq_TogglePause e) as [->|HT].
        + cbn [Physics.step] in H.
          rewrite (proj1 (proj2 (togglePause_keeps s))) in H. lia.
        + destruct (input_keeps e s HF HT) as (_ & _ & El & _). rewrite El in H. lia.
      - intros (E & _). contradiction. }
  cbn [Physics.step].
  destruct (GameState_eq_playing (Physics.gameState s)) as [Hp|Hp].
  2:{ rewrite gameLoop_idle by exact Hp. split; [lia | intros (_ & E & _); contradiction]. }
  unfold Physics.gameLoop. rewrite Hp, check_victory_lives.
  destruct (Physics.ball s) as [b|] eqn:Hb.
  2:{ cbn [Physics.lives]. split; [lia | intros (_ & _ & _ & b & E & _); discriminate]. }
  destruct (Physics.ballLaunched s) eqn:Hl.
  2:{ unfold Physics.follow_step. cbn [Physics.lives].
      split; [lia | intros (_ & _ & E & _); discriminate]. }
  rewrite launched_step_lives.
  destruct (Physics.gtb (Physics.ball_y b + Physics.dy b - Physics.radius b)
                        Physics.CANVAS_HEIGHT) eqn:Eg.
  - apply gtb_true in Eg. split; [|reflexivity].
    intros _. repeat split; auto. exists b. split; [reflexivity | lra].
  - split; [lia|]. intros (_ & _ & _ & b' & E & Hy). injection E as <-.
    apply (proj2 (gtb_true _ _)) in Hy. congruence.
Qed.

Section Pointer.

Import Physics Lifetime.
Local Open Scope R_scope.

Lemma clamp_cases (v lo hi : R) :
  lo <= hi ->
  (v <= lo -> clamp v lo hi = lo) /\ (lo <= v <= hi -> clamp v lo hi = v) /\
  (hi <= v -> clamp v lo hi = hi).
Proof.
  intros H. unfold clamp, Rmax, Rmin.
  repeat split; intros Hv; destruct (Rle_dec hi v); destruct (Rle_dec lo _); lra.
Qed.

End Pointer.

(** X25.  The paddle follows the pointer: when the pointer moves over the
    canvas, shown at any positive width, [mouseX] is its place on the
    800 wide canvas, and the next frame of a game in play puts the
    middle of the paddle there if that leaves the paddle inside the
    canvas, and the paddle against the left or right wall otherwise. *)
Theorem paddle_follows_pointer (clientX left rect_width : R) (s : Physics.Session) :
  (0 < rect_width)%R -> (left <= clientX <= left + rect_width)%R ->
  Physics.gameState s = Physics.playing ->
  Physics.paddle_width (Physics.paddle s) = 120%R ->
  let pointer := ((clientX - left) / rect_width * Physics.CANVAS_WIDTH)%R in
  let s' := Physics.gameLoop (Physics.handleMouseMove clientX left rect_width s) in
  Physics.mouseX s' = pointer /\ (0 <= pointer <= 800)%R /\
  ((60 <= pointer <= 740)%R -> Lifetime.centre (Physics.paddle s') = pointer) /\
  ((pointer <= 60)%R -> Physics.paddle_x (Physics.paddle s') = 0%R) /\
  ((740 <= pointer)%R -> Physics.paddle_x (Physics.paddle s') = 680%R).
Proof.
  intros Hw Hc Hp Hpw pointer s'.
  set (s1 := Physics.handleMouseMove clientX left rect_width s).
  assert (Hp1 : Physics.gameState s1 = Physics.playing) by exact Hp.
  assert (Em : Physics.mouseX s' = pointer).
  { unfold s'. fold s1. unfold Physics.gameLoop. rewrite Hp1.
    unfold Physics.check_victory.
    destruct (Physics.ball s1); [destruct (Physics.ballLaunched s1)|].
    - unfold Physics.launched_step, Physics.lose_life.
      destruct (Physics.block_collisions _ _ _) as [[ks b2] sc].
      destruct (Physics.out_of_bounds b2);
        [destruct (Physics.lives s1 - 1 <=? 0)%Z|];
        cbn [Physics.blocks]; destruct (Physics.all_dead ks); reflexivity.
    - unfold Physics.follow_step. cbn [Physics.blocks].
      destruct (Physics.all_dead (Physics.blocks s1)); reflexivity.
    - cbn [Physics.blocks].
      destruct (Physics.all_dead (Physics.blocks s1)); reflexivity. }
  assert (Hr : (0 <= (clientX - left) / rect_width <= 1)%R).
  { split.
    - apply Rmult_le_pos; [lra|]. apply Rlt_le, Rinv_0_lt_compat, Hw.
    - apply Rmult_le_reg_r with rect_width; [exact Hw|].
      unfold Rdiv. rewrite Rmult_assoc, Rinv_l by lra. lra. }
  assert (Hb : (0 <= pointer <= 800)%R).
  { unfold pointer, Physics.CANVAS_WIDTH. nra. }
  assert (Ex : Physics.paddle_x (Physics.paddle s')
               = Physics.clamp (pointer - 120 / 2) 0 (800 - 120)).
  { unfold s'. fold s1. rewrite gameLoop_paddle by exact Hp1.
    rewrite update_paddle_pointer. cbn [Physics.paddle_x].
    change (Physics.paddle s1) with (Physics.paddle s). rewrite Hpw. reflexivity. }
  assert (Ew : Physics.paddle_width (Physics.paddle s') = 120%R).
  { unfold s'. fold s1. rewrite gameLoop_paddle by exact Hp1.
    rewrite update_paddle_pointer. cbn [Physics.paddle_width]. exact Hpw. }
  destruct (clamp_cases (pointer - 120 / 2) 0 (800 - 120) ltac:(lra)) as (C1 & C2 & C3).
  split; [exact Em|]. split; [exact Hb|]. split; [|split].
  - intros H. unfold Lifetime.centre. rewrite Ex, Ew, C2 by lra. lra.
  - intros H. rewrite Ex, C1 by lra. reflexivity.
  - intros H. rewrite Ex, C3 by lra. lra.
Qed.

(** [paddle_follows_pointer] for a canvas shown half as wide, the pointer
    a quarter in. *)
Lemma paddle_follows_pointer_witness :
  Lifetime.centre
    (Physics.paddle
       (Physics.gameLoop (Physics.handleMouseMove 110 10 400 (Physics.initial []))))
  = ((110 - 10) / 400 * Physics.CANVAS_WIDTH)%R.
Proof.
  apply (paddle_follows_pointer 110 10 400 (Physics.initial [])
           ltac:(lra) ltac:(lra) eq_refl eq_refl).
  unfold Physics.CANVAS_WIDTH. lra.
Defined.

(* ================================================================== *)
(** * Defeat and victory *)
(* ================================================================== *)

Section DefeatFacts.

Import Physics.
Local Open Scope R_scope.

(** The frame in which the ball leaves through the bottom, run on a sane
    state: it takes one life, and ends in [defeat] exactly when the life
    was the last. *)
Lemma last_life_frame (t : Session) (b : Ball) :
  sane t -> gameState t = playing -> ball t = Some b -> ballLaunched t = true ->
  ball_y b + dy b - radius b > CANVAS_HEIGHT ->
  lives (gameLoop t) = (lives t - 1)%Z /\
  (lives t = 1%Z -> gameState (gameLoop t) = defeat /\ lives (gameLoop t) = 0%Z) /\
  (lives t <> 1%Z -> gameState (gameLoop t) = playing).
Proof.
  intros Hs Hp Hb Hla Hy.
  pose proof Hs as (_ & Hl & _).
  destruct (sane_below_steady t b Hs Hb Hy) as (Hcs & Hv & _).
  pose proof (playing_has_live_block t Hv Hp) as Hlive.
  pose proof (playing_has_life t Hl Hp) as H1.
  destruct (ball_at_blocks_place t b) as [Ey Er].
  assert (Ho : out_of_bounds (ball_at_blocks t b) = true).
  { unfold out_of_bounds. rewrite Ey, Er. apply gtb_true. exact Hy. }
  rewrite (gameLoop_below t b Hp Hb Hla Ho Hcs Hlive).
  unfold lose_life.
  destruct (lives t - 1 <=? 0)%Z eqn:E;
    cbn [lives gameState]; rewrite ?Hp.
  - split; [reflexivity|]. split; [intros ->; split; reflexivity|]. intros Hn. lia.
  - split; [reflexivity|]. split; [|reflexivity]. intros Hn. lia.
Qed.

(** The state becomes [defeat] in no other way: only a frame of a game in
    play that takes the last life ends in [defeat]. *)
Lemma defeat_only_by_last_life (e : Event) (t : Session) :
  sane t -> gameState t <> defeat -> gameState (step e t) = defeat ->
  e = Frame /\ gameState t = playing /\ lives t = 1%Z /\
  lives (step e t) = 0%Z /\ ballLaunched t = true /\
  exists b, ball t = Some b /\ ball_y b + dy b - radius b > CANVAS_HEIGHT.
Proof.
  intros Hs Hn Hd.
  pose proof (sane_step e t Hs) as (_ & (_ & Hd') & _).
  pose proof Hs as (_ & (H0 & Hd0) & _).
  assert (E0 : lives (step e t) = 0%Z) by now apply Hd'.
  assert (N0 : lives t <> 0%Z) by (intros E; apply Hn, Hd0, E).
  destruct (Event_eq_Frame e) as [->|HF].
  2:{ exfalso. destruct (Event_eq_TogglePause e) as [->|HT].
      - cbn [step] in Hd. destruct (togglePause_keeps t) as (_ & _ & _ & _ & Hk).
        apply Hn, Hk, Hd.
      - destruct (input_keeps e t HF HT) as (Eg & _). rewrite Eg in Hd. contradiction. }
  cbn [step] in *.
  destruct (GameState_eq_playing (gameState t)) as [Hp|Hp].
  2:{ rewrite gameLoop_idle in Hd by exact Hp. contradiction. }
  unfold gameLoop in E0. rewrite Hp, check_victory_lives in E0.
  destruct (ball t) as [b|] eqn:Hb; [|cbn [lives] in E0; contradiction].
  destruct (ballLaunched t) eqn:Hl;
    [|unfold follow_step in E0; cbn [lives] in E0; contradiction].
  rewrite launched_step_lives in E0.
  destruct (gtb (ball_y b + dy b - radius b) CANVAS_HEIGHT) eqn:Eg;
    [|contradiction].
  apply gtb_true in Eg.
  split; [reflexivity|]. split; [exact Hp|]. split; [lia|].
  split.
  - unfold gameLoop. rewrite Hp, check_victory_lives, Hb, Hl, launched_step_lives.
    rewrite (proj2 (gtb_true _ _)) by exact Eg. exact E0.
  - split; [reflexivity|]. exists b. split; [reflexivity | lra].
Qed.

(** Once the state is [defeat] nothing moves. *)
Lemma defeat_frozen (t : Session) :
  gameState t = defeat ->
  gameLoop t = t /\
  forall later,
    gameState (run later t) = defeat /\ score (run later t) = score t /\
    lives (run later t) = lives t.
Proof.
  intros Hd. split; [apply gameLoop_idle; congruence|].
  intros later. now apply defeat_run.
Qed.

End DefeatFacts.

(** C7.  Defeat is a frozen terminal state.  In every state of a session
    on a level whose blocks end inside the canvas, and in every other
    sane state: the lives are not negative; the state is [defeat] exactly
    when the lives are 0; a frame in which the ball leaves through the
    bottom takes one life and ends in [defeat], with no life left, exactly
    when it takes the last one; the state becomes [defeat] in no other
    way, so it does on exactly the frame on which the lives reach 0; once
    the state is [defeat], a frame changes nothing and no later event
    changes state, score or lives. *)
Theorem defeat_terminal (generated : list Physics.Block) (es : list Physics.Event) :
  Forall Physics.in_canvas generated ->
  let s := Physics.run es (Physics.initial generated) in
  (0 <= Physics.lives s)%Z /\
  (Physics.gameState s = Physics.defeat <-> Physics.lives s = 0%Z) /\
  (forall b, Physics.gameState s = Physics.playing -> Physics.ball s = Some b ->
     Physics.ballLaunched s = true ->
     (Physics.ball_y b + Physics.dy b - Physics.radius b > Physics.CANVAS_HEIGHT)%R ->
     Physics.lives (Physics.gameLoop s) = (Physics.lives s - 1)%Z /\
     (Physics.lives s = 1%Z -> Physics.gameState (Physics.gameLoop s) = Physics.defeat) /\
     (Physics.lives s <> 1%Z -> Physics.gameState (Physics.gameLoop s) = Physics.playing)) /\
  (Physics.gameState s = Physics.defeat ->
     Physics.gameLoop s = s /\
     forall later,
       Physics.gameState (Physics.run later s) = Physics.defeat /\
       Physics.score (Physics.run later s) = Physics.score s /\
       Physics.lives (Physics.run later s) = Physics.lives s) /\
  Physics.sane s /\
  (forall t, Physics.sane t ->
     (0 <= Physics.lives t)%Z /\
     (Physics.gameState t = Physics.defeat <-> Physics.lives t = 0%Z) /\
     (forall e, Physics.sane (Physics.step e t)) /\
     (forall b, Physics.gameState t = Physics.playing -> Physics.ball t = Some b ->
        Physics.ballLaunched t = true ->
        (Physics.ball_y b + Physics.dy b - Physics.radius b
         > Physics.CANVAS_HEIGHT)%R ->
        Physics.lives (Physics.gameLoop t) = (Physics.lives t - 1)%Z /\
        (Physics.lives t = 1%Z ->
         Physics.gameState (Physics.gameLoop t) = Physics.defeat /\
         Physics.lives (Physics.gameLoop t) = 0%Z) /\
        (Physics.lives t <> 1%Z ->
         Physics.gameState (Physics.gameLoop t) = Physics.playing)) /\
     (forall e, Physics.gameState t <> Physics.defeat ->
        Physics.gameState (Physics.step e t) = Physics.defeat ->
        e = Physics.Frame /\ Physics.gameState t = Physics.playing /\
        Physics.lives t = 1%Z /\ Physics.lives (Physics.step e t) = 0%Z /\
        Physics.ballLaunched t = true /\
        exists b, Physics.ball t = Some b /\
          (Physics.ball_y b + Physics.dy b - Physics.radius b
           > Physics.CANVAS_HEIGHT)%R)) /\
  (forall t, Physics.gameState t = Physics.defeat ->
     Physics.gameLoop t = t /\
     forall later,
       Physics.gameState (Physics.run later t) = Physics.defeat /\
       Physics.score (Physics.run later t) = Physics.score t /\
       Physics.lives (Physics.run later t) = Physics.lives t).
Proof.
  intros Hc s.
  assert (Hs : Physics.sane s) by (apply sane_run, sane_initial; exact Hc).
  pose proof Hs as (_ & Hl & _).
  split; [exact (proj1 Hl)|]. split; [exact (proj2 Hl)|]. split.
  { intros b Hp Hb Hla Hy.
    destruct (last_life_frame s b Hs Hp Hb Hla Hy) as (H1 & H2 & H3).
    split; [exact H1|]. split; [|exact H3]. intros E. exact (proj1 (H2 E)). }
  split; [exact (defeat_frozen s)|].
  split; [exact Hs|]. split; [|exact defeat_frozen].
  intros t Ht. pose proof Ht as (_ & Hlt & _).
  split; [exact (proj1 Hlt)|]. split; [exact (proj2 Hlt)|].
  split; [intros e; now apply sane_step|]. split.
  - intros b. now apply last_life_frame.
  - intros e. now apply defeat_only_by_last_life.
Qed.

(** [defeat_terminal] for a session on level 1, and for the frame in which
    the ball leaves a game with one life left: that frame ends in [defeat]
    with no life, and a launch, a frame and a pause later the state is
    still [defeat] with the same score and no life. *)
Lemma defeat_terminal_witness :
  let generated :=
    map Physics.of_layout
        (Layout.generateBlocksForLevel (fun _ => 1%Q) (fun _ => 0%Q) 1) in
  let s := Physics.run [Physics.Click (5 / 10); Physics.Frame]
                       (Physics.initial generated) in
  let b := Physics.mkBall 400 605 0 4 8 in
  let t := Physics.mkSession Physics.playing 30 1
             [Physics.mkBlock 50 50 60 25 true "#3b82f6"]
             (Some b) (Physics.mkPaddle 340 560 120 15) true [] 400 in
  let later := [Physics.Click (5 / 10); Physics.Frame; Physics.TogglePause;
                Physics.Frame] in
  Forall Physics.in_canvas generated /\
  (0 <= Physics.lives s)%Z /\
  (Physics.gameState s = Physics.defeat <-> Physics.lives s = 0%Z) /\
  Physics.sane t /\
  Physics.gameState t = Physics.playing /\ Physics.lives t = 1%Z /\
  Physics.gameState (Physics.gameLoop t) = Physics.defeat /\
  Physics.lives (Physics.gameLoop t) = 0%Z /\
  Physics.gameState (Physics.run later (Physics.gameLoop t)) = Physics.defeat /\
  Physics.score (Physics.run later (Physics.gameLoop t))
    = Physics.score (Physics.gameLoop t) /\
  Physics.lives (Physics.run later (Physics.gameLoop t)) = 0%Z.
Proof.
  intros generated s b t later.
  assert (Hc : Forall Physics.in_canvas generated).
  { apply generated_in_canvas; apply constant_bounded; split; discriminate. }
  assert (Ht : Physics.sane t).
  { split; [|split].
    - repeat constructor. unfold Physics.in_canvas, Physics.CANVAS_HEIGHT.
      cbn [Physics.y Physics.height]. lra.
    - split; [cbn; lia|]. split; [discriminate | cbn; lia].
    - left. split; discriminate. }
  assert (Hy : (Physics.ball_y b + Physics.dy b - Physics.radius b
                > Physics.CANVAS_HEIGHT)%R).
  { unfold b, Physics.CANVAS_HEIGHT.
    cbn [Physics.ball_y Physics.dy Physics.radius]. lra. }
  pose proof (defeat_terminal generated
                [Physics.Click (5 / 10); Physics.Frame] Hc)
    as (H1 & H2 & _ & _ & _ & Hall & Hfrozen).
  destruct (Hall t Ht) as (_ & _ & _ & Hframe & _).
  destruct (Hframe b eq_refl eq_refl eq_refl Hy) as (_ & Hlast & _).
  destruct (Hlast eq_refl) as (Hd & H0).
  destruct (Hfrozen (Physics.gameLoop t) Hd) as (_ & Hlater).
  destruct (Hlater later) as (L1 & L2 & L3).
  split; [exact Hc|]. split; [exact H1|]. split; [exact H2|].
  split; [exact Ht|]. split; [reflexivity|]. split; [reflexivity|].
  split; [exact Hd|]. split; [exact H0|]. split; [exact L1|].
  split; [exact L2|]. rewrite L3. exact H0.
Defined.

Section VictoryFacts.

Import Physics.

(** The state is [victory] only when every block is dead: kept by every
    event, from any start that is not [victory]. *)
Lemma victory_cleared_step (e : Event) (s : Session) :
  (gameState s = victory -> all_dead (blocks s) = true) ->
  gameState (step e s) = victory -> all_dead (blocks (step e s)) = true.
Proof.
  intros Hv H.
  destruct (Event_eq_Frame e) as [->|HF].
  - cbn [step] in *. destruct (GameState_eq_playing (gameState s)) as [Hp|Hp].
    + now apply (gameLoop_victory_iff s Hp).
    + rewrite gameLoop_idle in * by exact Hp. now apply Hv.
  - destruct (Event_eq_TogglePause e) as [->|HT].
    + cbn [step] in *. destruct (togglePause_keeps s) as (_ & _ & Eb & Ev & _).
      rewrite Eb. apply Hv, Ev, H.
    + destruct (input_keeps e s HF HT) as (Eg & _ & _ & Eb).
      rewrite Eb. apply Hv. now rewrite <- Eg.
Qed.

Lemma victory_cleared_run (generated : list Block) (es : list Event) :
  gameState (run es (initial generated)) = victory ->
  all_dead (blocks (run es (initial generated))) = true.
Proof.
  induction es as [|e es IH] using rev_ind.
  - cbn [run fold_left initial gameState]. discriminate.
  - rewrite run_snoc. now apply victory_cleared_step.
Qed.

(** Before the first frame no block has been touched and the state is not
    [victory]. *)
Lemma before_first_frame (generated : list Block) (es : list Event) :
  ~ In Frame es ->
  gameState (run es (initial generated)) <> victory /\
  blocks (run es (initial generated)) = generated.
Proof.
  induction es as [|e es IH] using rev_ind; intros Hn.
  - cbn [run fold_left initial gameState blocks]. split; [discriminate | reflexivity].
  - rewrite run_snoc.
    assert (He : e <> Frame) by (intros ->; apply Hn, in_or_app; cbn; auto).
    destruct IH as [Hv Hb]; [intros Hin; apply Hn, in_or_app; auto|].
    destruct (Event_eq_TogglePause e) as [->|HT].
    + cbn [step]. destruct (togglePause_keeps (run es (initial generated)))
        as (_ & _ & Eb & Ev & _).
      split; [intros H; apply Hv, Ev, H | now rewrite Eb].
    + destruct (input_keeps e (run es (initial generated)) He HT)
        as (Eg & _ & _ & Eb).
      split; [now rewrite Eg | now rewrite Eb].
Qed.

Lemma run_blocks_length (es : list Event) (s : Session) :
  List.length (blocks (run es s)) = List.length (blocks s).
Proof.
  induction es as [|e es IH] using rev_ind; [reflexivity|].
  rewrite run_snoc.
  destruct (step_score_blocks e (run es s)) as (n & _ & _ & _ & El).
  now rewrite El.
Qed.

(** A generated level that has a block has a live block. *)
Lemma generated_has_live (Math_cos Math_sin : Q -> Q) (level : Z) :
  map of_layout (Layout.generateBlocksForLevel Math_cos Math_sin level) <> [] ->
  all_dead (map of_layout (Layout.generateBlocksForLevel Math_cos Math_sin level))
  = false.
Proof.
  pose proof (generated_alive Math_cos Math_sin level) as Ha.
  destruct (Layout.generateBlocksForLevel Math_cos Math_sin level) as [|k l];
    [intros H; now contradiction H|].
  intros _. cbn [forallb] in Ha. apply andb_true_iff in Ha. destruct Ha as [Hk _].
  unfold all_dead. cbn [map forallb of_layout alive]. now rewrite Hk.
Qed.

End VictoryFacts.

(** C3, as the code has it.  Victory and "every block dead", for every
    level.  The state is [victory] only when every block is dead.  On a
    level that has a block (a generated block is alive; the levels 1 to 5
    always have one) the converse holds in every state of a session too.
    On a level without blocks (every level below 100 other than 1 to 6)
    every block is dead from the start while the state is not [victory]:
    it is not before a frame has run, and it is once the first event is a
    frame.  A frame run while playing on a sane state ends in [victory]
    exactly when it ends with every block dead, so the step from [playing]
    to [victory] is taken in the very frame that destroys the last live
    block and in no frame that leaves one alive; a frame run in another
    state changes nothing. *)
Theorem victory_equivalence (Math_cos Math_sin : Q -> Q) (level : Z)
    (es : list Physics.Event) :
  let generated :=
    map Physics.of_layout (Layout.generateBlocksForLevel Math_cos Math_sin level) in
  let s := Physics.run es (Physics.initial generated) in
  (Physics.gameState s = Physics.victory ->
   Physics.all_dead (Physics.blocks s) = true) /\
  (generated <> [] ->
   (Physics.gameState s = Physics.victory <->
    Physics.all_dead (Physics.blocks s) = true)) /\
  (generated = [] ->
   Physics.all_dead (Physics.blocks s) = true /\
   (~ In Physics.Frame es -> Physics.gameState s <> Physics.victory) /\
   (forall later, es = Physics.Frame :: later ->
                  Physics.gameState s = Physics.victory)) /\
  (forall t, Physics.sane t -> Physics.gameState t = Physics.playing ->
     (Physics.gameState (Physics.gameLoop t) = Physics.victory <->
      Physics.all_dead (Physics.blocks (Physics.gameLoop t)) = true) /\
     (Physics.all_dead (Physics.blocks t) = false ->
      Physics.all_dead (Physics.blocks (Physics.gameLoop t)) = true ->
      Physics.gameState (Physics.gameLoop t) = Physics.victory) /\
     (Physics.all_dead (Physics.blocks (Physics.gameLoop t)) = false ->
      Physics.gameState (Physics.gameLoop t) <> Physics.victory)) /\
  (forall t, Physics.gameState t <> Physics.playing -> Physics.gameLoop t = t) /\
  ((1 <= level <= 5)%Z -> generated <> []) /\
  ((level < 100 /\ ~ 1 <= level <= 6)%Z -> generated = []).
Proof.
  intros generated s.
  split; [apply victory_cleared_run|]. split.
  { intros Hne. apply victory_iff_run. unfold Physics.victory_iff_cleared.
    cbn [Physics.initial Physics.gameState Physics.blocks].
    unfold generated in *. rewrite (generated_has_live _ _ _ Hne).
    split; discriminate. }
  split.
  { intros He.
    assert (Hd : Physics.all_dead (Physics.blocks s) = true).
    { pose proof (run_blocks_length es (Physics.initial generated)) as Hl.
      fold s in Hl. cbn [Physics.initial Physics.blocks] in Hl. rewrite He in Hl.
      destruct (Physics.blocks s); [reflexivity | discriminate]. }
    split; [exact Hd|]. split.
    - intros Hn. exact (proj1 (before_first_frame generated es Hn)).
    - intros later E.
      assert (Hv : Physics.victory_iff_cleared s).
      { unfold s. rewrite E.
        change (Physics.run (Physics.Frame :: later) (Physics.initial generated))
          with (Physics.run later (Physics.gameLoop (Physics.initial generated))).
        apply victory_iff_run. apply gameLoop_victory_iff. reflexivity. }
      now apply Hv. }
  split.
  { intros t _ Hp. pose proof (gameLoop_victory_iff t Hp) as Hv.
    split; [exact Hv|]. split.
    - intros _ Hd. now apply Hv.
    - intros Hd H. apply Hv in H. congruence. }
  split; [exact gameLoop_idle|]. split.
  - intros Hl Hnil. apply map_eq_nil in Hnil.
    destruct (authored_counts Math_cos Math_sin) as (A1 & A2 & A3 & A4 & A5).
    assert (E : (level = 1 \/ level = 2 \/ level = 3 \/ level = 4 \/ level = 5)%Z)
      by lia.
    destruct E as [->|[->|[->|[->| ->]]]];
      rewrite Hnil in *; discriminate.
  - intros Hl. unfold generated. rewrite generate_unknown by lia. reflexivity.
Qed.

(** [victory_equivalence] for a session on level 1, and for the frame in
    which the ball destroys the last live block of two: that frame ends in
    [victory]. *)
Lemma victory_equivalence_witness :
  let generated :=
    map Physics.of_layout
        (Layout.generateBlocksForLevel (fun _ => 1%Q) (fun _ => 0%Q) 1) in
  let s := Physics.run [Physics.Click (5 / 10); Physics.Frame]
                       (Physics.initial generated) in
  let b := Physics.mkBall 400 300 0 (-4) 8 in
  let t := Physics.mkSession Physics.playing 10 3
             [Physics.mkBlock 380 270 60 25 false "#3b82f6";
              Physics.mkBlock 390 280 60 25 true "#3b82f6"]
             (Some b) (Physics.mkPaddle 340 560 120 15) true [] 400 in
  generated <> [] /\
  (Physics.gameState s = Physics.victory <->
   Physics.all_dead (Physics.blocks s) = true) /\
  Physics.sane t /\
  Physics.all_dead (Physics.blocks t) = false /\
  Physics.gameState (Physics.gameLoop t) = Physics.victory.
Proof.
  intros generated s b t.
  pose proof (victory_equivalence (fun _ => 1%Q) (fun _ => 0%Q) 1
                [Physics.Click (5 / 10); Physics.Frame])
    as (_ & H2 & _ & H4 & _ & H6 & _).
  assert (Hne : generated <> []) by (apply H6; lia).
  assert (Ht : Physics.sane t).
  { split; [|split].
    - repeat constructor; unfold Physics.in_canvas, Physics.CANVAS_HEIGHT;
        cbn [Physics.y Physics.height]; lra.
    - split; [cbn; lia|]. split; [discriminate | cbn; lia].
    - left. split; discriminate. }
  split; [exact Hne|]. split; [exact (H2 Hne)|]. split; [exact Ht|].
  split; [reflexivity|].
  destruct (H4 t Ht eq_refl) as (_ & H3 & _).
  apply (H3 eq_refl).
  destruct (ten_points_frame t eq_refl) as [Hf _].
  rewrite (proj2 (Hf b eq_refl eq_refl)).
  unfold b. rewrite (example_ball t eq_refl eq_refl eq_refl).
  unfold t, Physics.struck, Physics.hits, Physics.geb.
  cbn [Physics.blocks map]. eval_frame. reflexivity.
Defined.

(** C3, the part the code does not have: on a level without blocks the
    state is not [victory] although every block is dead, at the start of
    the session and for as long as no frame runs in the state [playing];
    level 7 is such a level, and a session on it that is paused before its
    first frame stays [paused] with nothing alive through that frame. *)
Lemma victory_not_before_first_frame :
  let generated :=
    map Physics.of_layout
        (Layout.generateBlocksForLevel (fun _ => 1%Q) (fun _ => 0%Q) 7) in
  let s0 := Physics.initial generated in
  let s1 := Physics.run [Physics.TogglePause; Physics.Frame] s0 in
  generated = [] /\
  Physics.all_dead (Physics.blocks s0) = true /\
  Physics.gameState s0 = Physics.playing /\
  Physics.all_dead (Physics.blocks s1) = true /\
  Physics.gameState s1 = Physics.paused /\
  ~ (forall es,
       Physics.gameState (Physics.run es (Physics.initial generated))
         = Physics.victory <->
       Physics.all_dead
         (Physics.blocks (Physics.run es (Physics.initial generated))) = true).
Proof.
  intros generated s0 s1.
  assert (Hg : generated = []) by reflexivity.
  split; [exact Hg|]. unfold s1, s0. rewrite Hg.
  split; [reflexivity|]. split; [reflexivity|].
  split; [reflexivity|]. split; [reflexivity|].
  intros H. specialize (H []). destruct H as [_ H].
  assert (E : Physics.gameState (Physics.run [] (Physics.initial []))
              = Physics.victory) by (apply H; reflexivity).
  discriminate E.
Qed.
